(** * Quiz-maker: the quiz session lifecycle, embedded and verified

    A shallow embedding of the session logic of the quiz application:
    - [src/QuizScreen.tsx]: the answer map, the per-question transient state
      (sequencing working list, matching selections), the countdown timer and
      finalization ([getFormattedAnswers], [handleNext], [moveItem]);
    - [src/services/geminiService.ts]: post-processing of the generation
      response ([shuffleArray], the body of [generateQuiz] after the remote
      call), aggregation of the grading response ([gradeQuiz]) and the tutor
      query ([explainQuestion]);
    - [src/UploadScreen.tsx]: [handleSubmit];
    - [src/ResultScreen.tsx]: [handleAskAI].

    Conventions.  A JavaScript string is a [string] (a sequence of code
    units); a number that is an integer is a [Z], with the rounding of
    binary64 arithmetic and the conversions of the language written out
    ([JsNumber]); a JavaScript array is a [list]; an object used as a map is
    an insertion-ordered association list ([JsObject]); a promise is the value
    it settles to ([Completion]); [Math.random] reads a tape of draws, and the
    engine's sort under a comparison function that draws is a parameter of
    the component ([Engine]). *)

From Stdlib Require Import List String Ascii Bool Arith ZArith QArith Lia.
From Stdlib Require Import Permutation Sorted DecimalString DecimalZ.
Import ListNotations.

Close Scope Q_scope.
Open Scope string_scope.
Open Scope list_scope.

(** ** JavaScript strings *)

Module JsString.

(** [Array.prototype.join(sep)] on an array of strings. *)
Fixpoint join (sep : string) (items : list string) : string :=
  match items with
  | [] => ""
  | [x] => x
  | x :: rest => x ++ sep ++ join sep rest
  end.

(** [String.prototype.includes]: [pat] occurs somewhere in [s]. *)
Fixpoint includes (pat s : string) : bool :=
  prefix pat s ||
  match s with
  | EmptyString => false
  | String _ s' => includes pat s'
  end.

(** [String.prototype.endsWith]: some tail of [s] is [suffix]. *)
Fixpoint endsWith (s suffix : string) : bool :=
  (s =? suffix) ||
  match s with
  | EmptyString => false
  | String _ s' => endsWith s' suffix
  end.

(** The scan of [String.prototype.split] for a non-empty separator.  [cur] is
    the piece read since the last separator; [skip] counts the code units of a
    matched separator that are still to be passed over.  The leftmost
    occurrence wins and the scan resumes right after it. *)
Fixpoint split_from (sep : string) (skip : nat) (cur s : string) : list string :=
  match s with
  | EmptyString => [cur]
  | String c s' =>
      match skip with
      | S k => split_from sep k cur s'
      | O =>
          if prefix sep s
          then cur :: split_from sep (String.length sep - 1) "" s'
          else split_from sep 0 (cur ++ String c "") s'
      end
  end.

Fixpoint code_units (s : string) : list string :=
  match s with
  | EmptyString => []
  | String c s' => String c "" :: code_units s'
  end.

(** [String.prototype.split(sep)]: with the empty separator the string falls
    apart into its code units (and [""] into no piece at all). *)
Definition split (sep s : string) : list string :=
  match sep with
  | EmptyString => code_units s
  | String _ _ => split_from sep 0 "" s
  end.

(** White space and line terminators, which [String.prototype.trim] and
    [parseInt] remove: of the code units a [string] is made of (those below
    256) these are TAB, LF, VT, FF, CR, SPACE and the no-break space
    (code unit 160). *)
Definition is_space (c : ascii) : bool :=
  let n := nat_of_ascii c in
  ((9 <=? n) && (n <=? 13))%nat || (n =? 32)%nat || (n =? 160)%nat.

Fixpoint trimStart (s : string) : string :=
  match s with
  | EmptyString => ""
  | String c s' => if is_space c then trimStart s' else s
  end.

Fixpoint trimEnd (s : string) : string :=
  match s with
  | EmptyString => ""
  | String c s' =>
      match trimEnd s' with
      | EmptyString => if is_space c then "" else String c ""
      | t => String c t
      end
  end.

Definition trim (s : string) : string := trimEnd (trimStart s).

(** A string in a condition: only [""] is falsy. *)
Definition truthy (s : string) : bool :=
  match s with
  | EmptyString => false
  | String _ _ => true
  end.

(** [s || d] on strings. *)
Definition or_else (s d : string) : string := if truthy s then s else d.

End JsString.

(** ** JavaScript numbers *)

(** The numbers the embedded code computes with are integers, kept as [Z]:
    question identities, counts, seconds.  A number of the program is a
    binary64 number, so an arithmetic operation gives the binary64 number
    nearest to its exact result, and the conversions from and to strings are
    those of the language.  Magnitudes stay below 2^1024 (no overflow to
    [Infinity] here). *)

Module JsNumber.

(** The binary64 number nearest to the integer [z], ties going to the even
    significand.  Integers of at most 53 bits are binary64 numbers. *)
Definition round (z : Z) : Z :=
  let a := Z.abs z in
  let shift := (Z.log2 a - 52)%Z in
  if (shift <=? 0)%Z then z
  else
    let q := Z.shiftr a shift in
    let r := (a - Z.shiftl q shift)%Z in
    let half := Z.shiftl 1 (shift - 1) in
    let q' := if ((half <? r) || ((r =? half) && Z.odd q))%Z
              then (q + 1)%Z else q in
    (Z.sgn z * Z.shiftl q' shift)%Z.

(** The quotient [n / d] of two positive integers rounded to the nearest
    integer, ties going to the even one. *)
Definition nearest (n d : Z) : Z :=
  let q := (n / d)%Z in
  let r := (n mod d)%Z in
  if ((d <? 2 * r) || ((2 * r =? d) && Z.odd q))%Z then (q + 1)%Z else q.

(** [a / b] for integers [0 <= a] and [0 < b < 2^53], as the pair [(m, k)]
    that stands for the binary64 number [m / 2^k]. *)
Definition quotient (a b : Z) : Z * Z :=
  let q0 := (a / b)%Z in
  if (q0 =? 0)%Z
  then
    (* below 1: a significand of 53 bits under the leading bit of [a / b] *)
    if (a =? 0)%Z then (0%Z, 0%Z)
    else
      let k := (Z.log2_up ((b + a - 1) / a) + 52)%Z in
      (nearest (a * 2 ^ k) b, k)
  else
    let e := (Z.log2 q0 - 52)%Z in
    if (0 <=? e)%Z then ((nearest a (b * 2 ^ e) * 2 ^ e)%Z, 0%Z)
    else (nearest (a * 2 ^ (- e)) b, (- e)%Z).

(** [Math.floor(a / b)] for an integer [a] and an integer [0 < b < 2^53]. *)
Definition floor_div (a b : Z) : Z :=
  if (0 <=? a)%Z
  then let (m, k) := quotient a b in (m / 2 ^ k)%Z
  else let (m, k) := quotient (- a) b in (- ((m + 2 ^ k - 1) / 2 ^ k))%Z.

(** The decimal digits of an integer, with a minus sign if it is negative. *)
Definition decimal (n : Z) : string :=
  DecimalString.NilZero.string_of_int (Z.to_int n).

Definition digits (a : Z) : nat := String.length (decimal a).

(** The multiples of [unit] next to [v] that are read back as [v]: none, one,
    or of two the nearer one (of two equally near ones the even one). *)
Definition candidate (v unit : Z) : option Z :=
  let lo := (v / unit * unit)%Z in
  let hi := (lo + unit)%Z in
  match (round lo =? v)%Z, (round hi =? v)%Z with
  | true, true =>
      Some (if (v - lo <? hi - v)%Z then lo
            else if (hi - v <? v - lo)%Z then hi
            else if Z.even (v / unit) then lo else hi)
  | true, false => Some lo
  | false, true => Some hi
  | false, false => None
  end.

(** The number of fewest significant digits that is read back as [v]: one
    digit is tried first, then two, and so on. *)
Fixpoint shortest (fuel : nat) (v unit : Z) : Z :=
  match fuel with
  | O => v
  | S fuel' =>
      match candidate v unit with
      | Some c => c
      | None => shortest fuel' v (unit / 10)
      end
  end.

Fixpoint strip_zeros (s : string) : string :=
  match s with
  | EmptyString => ""
  | String c s' =>
      match strip_zeros s' with
      | EmptyString => if Ascii.eqb c "0" then "" else String c ""
      | t => String c t
      end
  end.

(** The exponent form of a number [a >= 10^21]: the first digit, the other
    significant digits after a point if there are any, and the exponent. *)
Definition exponential (a : Z) : string :=
  let n := digits a in
  let c := shortest n a (10 ^ Z.of_nat (n - 1)) in
  match strip_zeros (decimal c) with
  | String d rest =>
      (String d match rest with
                | EmptyString => ""
                | _ => "." ++ rest
                end
       ++ "e+" ++ decimal (Z.of_nat (digits c - 1)))%string
  | EmptyString => ""
  end.

(** [String(z)], which is also the property key [z] stands for: the decimal
    digits below 10^21, the exponent form from there on. *)
Definition toString (z : Z) : string :=
  if (Z.abs z <? 10 ^ 21)%Z then decimal z
  else if (z <? 0)%Z then ("-" ++ exponential (- z))%string
  else exponential z.

Definition is_digit (c : ascii) : bool :=
  let n := nat_of_ascii c in ((48 <=? n) && (n <=? 57))%nat.

Fixpoint digit_prefix (s : string) : string :=
  match s with
  | EmptyString => ""
  | String c s' => if is_digit c then String c (digit_prefix s') else ""
  end.

(** The integer the leading decimal digits of [s] spell; [None] when there
    are none. *)
Definition decimal_value (s : string) : option Z :=
  match digit_prefix s with
  | EmptyString => None
  | ds => option_map Z.of_uint (DecimalString.NilEmpty.uint_of_string ds)
  end.

Definition hex_digit (c : ascii) : option Z :=
  let n := Z.of_nat (nat_of_ascii c) in
  if ((48 <=? n) && (n <=? 57))%Z then Some (n - 48)%Z
  else if ((97 <=? n) && (n <=? 102))%Z then Some (n - 87)%Z
  else if ((65 <=? n) && (n <=? 70))%Z then Some (n - 55)%Z
  else None.

Fixpoint hex_value (acc : option Z) (s : string) : option Z :=
  match s with
  | EmptyString => acc
  | String c s' =>
      match hex_digit c with
      | Some d =>
          hex_value (Some (16 * match acc with Some a => a | None => 0 end + d)%Z) s'
      | None => acc
      end
  end.

Definition magnitude (body : string) : option Z :=
  match body with
  | String c (String x rest) =>
      if (Ascii.eqb c "0" && (Ascii.eqb x "x" || Ascii.eqb x "X"))%bool
      then hex_value None rest
      else decimal_value body
  | _ => decimal_value body
  end.

(** [parseInt(s)]: leading white space is skipped, then a sign, then the
    digits are read up to the first code unit that is none (in base 16 after
    [0x]); [None] is [NaN], there being no digit.  (Past the twentieth
    significant digit an engine may read zeros; a printed number has at most
    seventeen.) *)
Definition parseInt (s : string) : option Z :=
  let t := JsString.trimStart s in
  let signed :=
    match t with
    | String c r =>
        if Ascii.eqb c "-" then (true, r)
        else if Ascii.eqb c "+" then (false, r)
        else (false, t)
    | EmptyString => (false, t)
    end in
  option_map (fun v => round (if fst signed then (- v)%Z else v))
    (magnitude (snd signed)).

End JsNumber.

(** ** JavaScript objects used as maps *)

Module JsObject.

Section Obj.

Context {K V : Type}.

(** Equality of property keys. *)
Variable key_eqb : K -> K -> bool.

(** [array_index k = Some n] when the property key [k] is the canonical
    decimal form of an integer [0 <= n <= 2^32 - 2]: such keys are enumerated
    first and in ascending order, all others in the order of their creation. *)
Variable array_index : K -> option N.

(** An object is the list of its own properties in creation order. *)
Definition t : Type := list (K * V).

Definition empty : t := [].

(** [o[k]]; [None] stands for [undefined]. *)
Fixpoint get (o : t) (k : K) : option V :=
  match o with
  | [] => None
  | (k', v) :: o' => if key_eqb k' k then Some v else get o' k
  end.

(** [o[k] = v]: an existing property keeps its place, a new one goes last. *)
Fixpoint set (o : t) (k : K) (v : V) : t :=
  match o with
  | [] => [(k, v)]
  | (k', v') :: o' =>
      if key_eqb k' k then (k', v) :: o' else (k', v') :: set o' k v
  end.

Fixpoint insert_index (n : N) (e : K * V) (acc : list (N * (K * V)))
  : list (N * (K * V)) :=
  match acc with
  | [] => [(n, e)]
  | (m, e') :: acc' =>
      if (n <=? m)%N then (n, e) :: acc else (m, e') :: insert_index n e acc'
  end.

Fixpoint index_entries (o : t) : list (N * (K * V)) :=
  match o with
  | [] => []
  | e :: o' =>
      match array_index (fst e) with
      | Some n => insert_index n e (index_entries o')
      | None => index_entries o'
      end
  end.

Definition is_named (e : K * V) : bool :=
  match array_index (fst e) with
  | Some _ => false
  | None => true
  end.

(** [Object.entries(o)]: the own properties in enumeration order. *)
Definition entries (o : t) : list (K * V) :=
  map snd (index_entries o) ++ filter is_named o.

(** [{...o}]: a fresh object that receives the properties of [o] in
    enumeration order. *)
Definition spread (o : t) : t := entries o.

Definition keys (o : t) : list K := map fst o.

(** The properties with key [k], in order. *)
Definition sel (k : K) (l : t) : t :=
  filter (fun e => key_eqb (fst e) k) l.

(** Every entry of the index table carries the index of its key. *)
Definition tagged (acc : list (N * (K * V))) : Prop :=
  Forall (fun p => array_index (fst (snd p)) = Some (fst p)) acc.

End Obj.

(** Keys that are numbers ([Record<number, string>]): the key of the number
    [z] is [String(z)], which is an array index when [z] is an integer from 0
    to 2^32 - 2. *)
Definition number_index (z : Z) : option N :=
  if ((0 <=? z) && (z <=? 4294967294))%Z then Some (Z.to_N z) else None.

Definition digit_of (c : ascii) : option N :=
  let n := nat_of_ascii c in
  if ((48 <=? n) && (n <=? 57))%nat then Some (N.of_nat (n - 48)) else None.

Fixpoint digits_value (acc : N) (s : string) : option N :=
  match s with
  | EmptyString => Some acc
  | String c s' =>
      match digit_of c with
      | Some d => digits_value (10 * acc + d)%N s'
      | None => None
      end
  end.

(** Keys that are strings ([Record<string, string>]). *)
Definition string_index (s : string) : option N :=
  match s with
  | EmptyString => None
  | String c s' =>
      match digit_of c with
      | None => None
      | Some d =>
          if (d =? 0)%N
          then match s' with EmptyString => Some 0%N | String _ _ => None end
          else
            match digits_value d s' with
            | Some n => if (n <=? 4294967294)%N then Some n else None
            | None => None
            end
      end
  end.

End JsObject.

(** ** Results of calls that may throw; promises by what they settle to *)

(** The errors of the program: [ApiKeyMissing] is [Error("API Key missing")],
    [InvalidResponseStructure] is [Error("Invalid response structure")],
    [IdMismatch i] is [Error(`Question ID ${i} mismatch`)], [TypeError] is the
    engine's error on reading a property of [undefined] or [null] or calling
    what is no function, [RemoteFailure] is a rejection of the remote call. *)
Inductive JsError : Type :=
| ApiKeyMissing
| InvalidResponseStructure
| IdMismatch (i : Z)
| TypeError
| RemoteFailure (reason : string).

Inductive Completion (A : Type) : Type :=
| Return (a : A)
| Throw (e : JsError).

Arguments Return {A} a.
Arguments Throw {A} e.

Definition bind {A B : Type} (c : Completion A) (k : A -> Completion B)
  : Completion B :=
  match c with
  | Return a => k a
  | Throw e => Throw e
  end.

Notation "x <- c ;; k" := (bind c (fun x => k))
  (at level 61, c at next level, right associativity).

(** [Array.prototype.map] with a callback that may throw: elements are visited
    in order and the first throw ends the call. *)
Fixpoint map_throwing {A B : Type} (f : A -> Completion B) (l : list A)
  : Completion (list B) :=
  match l with
  | [] => Return []
  | a :: l' =>
      b <- f a ;;
      bs <- map_throwing f l' ;;
      Return (b :: bs)
  end.

(** ** The random source *)

Module Random.

(** The values [Math.random()] is going to return, each as the numerator [k]
    of [k / 2^53] (taken modulo [2^53], so every draw lies in [0, 1)). *)
Definition Tape : Type := nat -> N.

Definition two53 : N := 9007199254740992.

Definition numerator (t : Tape) : N := (t O mod two53)%N.

Definition advance (t : Tape) : Tape := fun n => t (S n).

(** [Math.floor(Math.random() * k)] for a positive integer [k]: a number in
    [0 .. k - 1].  (The machine rounds the product, never up to [k]; the
    embedding takes the floor of the exact product.) *)
Definition floor_times (t : Tape) (k : nat) : nat :=
  N.to_nat (numerator t * N.of_nat k / two53).

(** The sign of [Math.random() - 0.5]: [Lt] negative, [Eq] zero, [Gt]
    positive. *)
Definition minus_half (t : Tape) : comparison :=
  (numerator t ?= 4503599627370496)%N.

End Random.

(** ** The engine's sort under a comparison function that draws *)

(** [array.sort(() => Math.random() - 0.5)] sorts with a comparison function
    that is not consistent, and then the order [Array.prototype.sort] leaves
    is for the engine to choose; so is the number of comparisons, each of
    which takes one draw.  The embedding of the component takes this sort as
    given: a function from the array and the tape to the sorted array and the
    tape that is left. *)

Module Engine.

Definition RandomSort : Type :=
  list string -> Random.Tape -> list string * Random.Tape.

(** What every engine does: it returns the elements it was given. *)
Definition permutes (sort : RandomSort) : Prop :=
  forall items r, Permutation items (fst (sort items r)).

(** One engine: V8, on an array of fewer than 64 elements.  It takes the
    longest run at the front (ascending, or strictly descending and then
    reversed), and inserts the remaining elements one by one at the place a
    binary search finds.  (Longer arrays are cut into several such runs,
    which are merged; the sample sessions below sort three elements.) *)

(** [comparefn(a, b) < 0] *)
Definition negative (r : Random.Tape) : bool :=
  match Random.minus_half r with
  | Lt => true
  | _ => false
  end.

(** The elements of [rest] that continue the run, each compared with its
    predecessor; the comparison that ends the run is made, too. *)
Fixpoint count_run (descending : bool) (rest : list string) (r : Random.Tape)
  : nat * Random.Tape :=
  match rest with
  | [] => (O, r)
  | _ :: rest' =>
      if Bool.eqb (negative r) descending
      then let (n, r') := count_run descending rest' (Random.advance r) in
           (S n, r')
      else (O, Random.advance r)
  end.

(** The binary search for the place of the pivot in [left .. right). *)
Fixpoint search (fuel left right : nat) (r : Random.Tape) : nat * Random.Tape :=
  match fuel with
  | O => (left, r)
  | S fuel' =>
      if (left <? right)%nat
      then
        let mid := left + (right - left) / 2 in
        if negative r then search fuel' left mid (Random.advance r)
        else search fuel' (mid + 1) right (Random.advance r)
      else (left, r)
  end.

Fixpoint binary_insertion (sorted rest : list string) (r : Random.Tape)
  : list string * Random.Tape :=
  match rest with
  | [] => (sorted, r)
  | pivot :: rest' =>
      let (left, r') := search (S (List.length sorted)) 0 (List.length sorted) r in
      binary_insertion (firstn left sorted ++ pivot :: skipn left sorted) rest' r'
  end.

Definition v8 : RandomSort :=
  fun items r =>
    match items with
    | _ :: _ :: rest =>
        let descending := negative r in
        let (n, r') := count_run descending rest (Random.advance r) in
        let run := firstn (2 + n) items in
        binary_insertion (if descending then rev run else run)
          (skipn (2 + n) items) r'
    | _ => (items, r)
    end.

End Engine.

(** ** The data model *)

Module Types.

(** The declarations of [types.ts], which the sources import and which is
    not among them, follow section 3 and section 6 of the specification and
    the two response schemas of [geminiService.ts]; an optional field is an
    [option].  An integer identity is a [Z]; the program keeps it in a
    JavaScript number, which prints and reads back in decimal the integers
    that [Spec.plain_id] admits. *)

(** Modelled from the spec: the enumeration [QuestionType] of [types.ts], the
    closed set of six type tags (section 3). *)
Inductive QuestionType : Type :=
| MULTIPLE_CHOICE
| TRUE_FALSE
| FILL_IN_BLANK
| SHORT_ANSWER
| MATCHING
| SEQUENCING.

Definition QuestionType_eqb (a b : QuestionType) : bool :=
  match a, b with
  | MULTIPLE_CHOICE, MULTIPLE_CHOICE
  | TRUE_FALSE, TRUE_FALSE
  | FILL_IN_BLANK, FILL_IN_BLANK
  | SHORT_ANSWER, SHORT_ANSWER
  | MATCHING, MATCHING
  | SEQUENCING, SEQUENCING => true
  | _, _ => false
  end.

(** Modelled from the spec: one pair of [matchingPairs], [{left, right}]
    (section 6; [questionSchema]). *)
Record MatchingPair : Type := { left : string; right : string }.

(** Modelled from the spec: [Question] of [types.ts] (section 3; section 6;
    [questionSchema], which requires [id], [type] and [text]). *)
Record Question : Type := {
  id : Z;
  type : QuestionType;
  text : string;
  options : option (list string);
  correctAnswer : option string;
  matchingPairs : option (list MatchingPair);
  sequencingItems : option (list string)
}.

(** Modelled from the spec: [UserAnswer] of [types.ts] (section 3;
    [{questionId, answer}] in section 6). *)
Record UserAnswer : Type := { questionId : Z; answer : string }.

(** Modelled from the spec: [GradedQuestion] of [types.ts] (section 3), a
    question with the matched answer and the grading outcome; the fields of
    the question, which [gradeQuiz] spreads into the object, are kept together
    in [question]. *)
Record GradedQuestion : Type := {
  question : Question;
  userAnswer : string;
  isCorrect : bool;
  score : Q;
  explanation : string;
  aiCorrection : string
}.

(** Modelled from the spec: [QuizResult] of [types.ts] (section 3). *)
Record QuizResult : Type := {
  totalScore : Q;
  maxScore : nat;
  gradedQuestions : list GradedQuestion;
  overallFeedback : string
}.

(** Modelled from the spec: the difficulty of a configuration (section 3). *)
Inductive Difficulty : Type := Easy | Medium | Hard.

(** Modelled from the spec: [UploadedFile] of [types.ts] (section 3), with the
    field names [handleFiles] fills in ([id] is [file_id] here). *)
Record UploadedFile : Type := {
  file_id : string;
  name : string;
  mimeType : string;
  base64 : string
}.

(** Modelled from the spec: [QuizConfig] of [types.ts] (section 3), with the
    field names [handleSubmit] fills in. *)
Record QuizConfig : Type := {
  documents : list UploadedFile;
  numQuestions : Z;
  selectedTypes : list QuestionType;
  autoDetect : bool;
  difficulty : Difficulty;
  customInstructions : string;
  timeLimit : Z
}.

End Types.

Import Types.

(** ** Parsed JSON *)

Module Json.

(** The values [JSON.parse] produces.  Properties of an object are listed in
    creation order. *)
#[local] Set Warnings "-register-all".
Inductive t : Type :=
| JNull
| JBool (b : bool)
| JNumber (n : Q)
| JString (s : string)
| JArray (elems : list t)
| JObject (props : list (string * t)).

(** A value in a condition; [None] is [undefined]. *)
Definition truthy (v : option t) : bool :=
  match v with
  | None => false
  | Some JNull => false
  | Some (JBool b) => b
  | Some (JNumber n) => negb (Qeq_bool n 0)
  | Some (JString s) => JsString.truthy s
  | Some (JArray _) => true
  | Some (JObject _) => true
  end.

(** [v.k] for a property name [k] that no built-in prototype defines (the
    program reads [questions], [type] and [options]): reading from [null]
    throws, an object answers from its own properties, any other value has no
    such property. *)
Definition field (v : t) (k : string) : Completion (option t) :=
  match v with
  | JNull => Throw TypeError
  | JObject props => Return (JsObject.get String.eqb props k)
  | _ => Return None
  end.

(** [{...q, k: v}] for an object [q]. *)
Definition with_field (props : list (string * t)) (k : string) (v : t) : t :=
  JObject (JsObject.set String.eqb
             (JsObject.spread JsObject.string_index props) k v).

End Json.

(** ** [services/geminiService.ts] *)

Module geminiService.

(** [l[i] = x] for an index inside the array, and
    [[l[i], l[j]] = [l[j], l[i]]]: both indices are inside the array wherever
    [shuffleArray] swaps. *)
Fixpoint set_nth {A : Type} (l : list A) (i : nat) (x : A) : list A :=
  match l, i with
  | [], _ => []
  | _ :: tl, O => x :: tl
  | h :: tl, S i' => h :: set_nth tl i' x
  end.

Definition swap {A : Type} (l : list A) (i j : nat) : list A :=
  match nth_error l i, nth_error l j with
  | Some a, Some b => set_nth (set_nth l i b) j a
  | _, _ => l
  end.

(** The loop of [shuffleArray], [i] running down to 1. *)
Fixpoint shuffle_loop {A : Type} (i : nat) (newArr : list A) (rnd : Random.Tape)
  : list A * Random.Tape :=
  match i with
  | O => (newArr, rnd)
  | S i' =>
      let j := Random.floor_times rnd (i + 1) in
      shuffle_loop i' (swap newArr i j) (Random.advance rnd)
  end.

Definition shuffleArray {A : Type} (array : list A) (rnd : Random.Tape)
  : list A * Random.Tape :=
  shuffle_loop (List.length array - 1) array rnd.

Definition has_key (apiKey : option string) : bool :=
  match apiKey with
  | Some k => JsString.truthy k
  | None => false
  end.

Section Generation.

(** The string values of the enumeration [QuestionType] are declared in
    [types.ts]; they are taken as given. *)
Variable QuestionType_value : QuestionType -> string.

(** The callback of [data.questions.map] in [generateQuiz]. *)
Definition process_question (q : Json.t) (rnd : Random.Tape)
  : Completion (Json.t * Random.Tape) :=
  ty <- Json.field q "type" ;;
  match q, ty with
  | Json.JObject props, Some (Json.JString s) =>
      if (s =? QuestionType_value MULTIPLE_CHOICE)%string
      then
        match JsObject.get String.eqb props "options" with
        | Some (Json.JArray opts) =>
            let (shuffled, rnd') := shuffleArray opts rnd in
            Return (Json.with_field props "options" (Json.JArray shuffled), rnd')
        | _ => Return (q, rnd)
        end
      else Return (q, rnd)
  | _, _ => Return (q, rnd)
  end.

Fixpoint process_questions (qs : list Json.t) (rnd : Random.Tape)
  : Completion (list Json.t * Random.Tape) :=
  match qs with
  | [] => Return ([], rnd)
  | q :: qs' =>
      r <- process_question q rnd ;;
      rs <- process_questions qs' (snd r) ;;
      Return (fst r :: fst rs, snd rs)
  end.

(** [generateQuiz] from the point where the response has arrived: [data] is
    [JSON.parse(response.text || "{}")]. *)
Definition normalize (data : Json.t) (rnd : Random.Tape)
  : Completion (list Json.t * Random.Tape) :=
  questions <- Json.field data "questions" ;;
  if negb (Json.truthy questions) then Throw InvalidResponseStructure
  else
    match questions with
    | Some (Json.JArray qs) => process_questions qs rnd
    | _ => Throw TypeError
    end.

(** [generateQuiz]: [remote] is what the awaited call to the generation
    service, followed by [JSON.parse], comes to (the assembly of the prompt is
    not part of the embedding); the [catch] logs and rethrows. *)
Definition generateQuiz (apiKey : option string) (remote : Completion Json.t)
  (rnd : Random.Tape) : Completion (list Json.t * Random.Tape) :=
  if negb (has_key apiKey) then Throw ApiKeyMissing
  else
    data <- remote ;;
    normalize data rnd.

End Generation.

(** The grading response, as [gradingSchema] declares it. *)
Record Graded : Type := {
  g_id : Z;
  g_isCorrect : bool;
  g_score : Q;
  g_explanation : string;
  g_aiCorrection : string
}.

Record GradingData : Type := {
  d_gradedQuestions : option (list Graded);
  d_overallFeedback : option string
}.

Definition opt_string (o : option string) : string :=
  match o with
  | Some s => s
  | None => ""
  end.

(** The callback of [data.gradedQuestions.map] in [gradeQuiz]. *)
Definition merge (originalQuestions : list Question)
  (userAnswers : list UserAnswer) (gq : Graded) : Completion GradedQuestion :=
  let original := find (fun q => (id q =? g_id gq)%Z) originalQuestions in
  let userAnswer :=
    JsString.or_else
      (opt_string
         (option_map answer
            (find (fun a => (questionId a =? g_id gq)%Z) userAnswers)))
      "" in
  match original with
  | None => Throw (IdMismatch (g_id gq))
  | Some o =>
      Return {| question := o;
                userAnswer := userAnswer;
                isCorrect := g_isCorrect gq;
                score := g_score gq;
                explanation := g_explanation gq;
                aiCorrection := g_aiCorrection gq |}
  end.

(** [gradeQuiz] from the point where the response has been parsed. *)
Definition aggregate (originalQuestions : list Question)
  (userAnswers : list UserAnswer) (data : GradingData) : Completion QuizResult :=
  records <- match d_gradedQuestions data with
             | Some l => Return l
             | None => Throw TypeError
             end ;;
  mergedGradedQuestions <- map_throwing (merge originalQuestions userAnswers) records ;;
  let totalScore :=
    fold_left (fun acc curr => Qplus acc (score curr)) mergedGradedQuestions 0%Q in
  Return {| totalScore := totalScore;
            maxScore := List.length originalQuestions;
            gradedQuestions := mergedGradedQuestions;
            overallFeedback :=
              JsString.or_else (opt_string (d_overallFeedback data))
                "Quiz completed." |}.

Definition gradeQuiz (apiKey : option string) (remote : Completion GradingData)
  (originalQuestions : list Question) (userAnswers : list UserAnswer)
  : Completion QuizResult :=
  if negb (has_key apiKey) then Throw ApiKeyMissing
  else
    data <- remote ;;
    aggregate originalQuestions userAnswers data.

(** [explainQuestion]: [remote] is what the awaited call to the model comes
    to, as the [text] of the response ([None] when it has none).  The four
    arguments of the function only feed the prompt.  There is no handler
    around the call. *)
Definition explainQuestion (apiKey : option string)
  (remote : Completion (option string)) : Completion string :=
  if negb (has_key apiKey) then Throw ApiKeyMissing
  else
    response_text <- remote ;;
    Return (JsString.or_else (opt_string response_text)
              "I couldn't generate an explanation at this time.").

End geminiService.

(** ** [UploadScreen.tsx] *)

Module UploadScreen.

(** The state of the component that [handleSubmit] reads and writes. *)
Record State : Type := {
  documents : list UploadedFile;
  numQuestions : Z;
  selectedTypes : list QuestionType;
  autoDetect : bool;
  difficulty : Difficulty;
  customInstructions : string;
  timeLimit : Z;
  error : string
}.

Definition setError (st : State) (msg : string) : State :=
  {| documents := documents st;
     numQuestions := numQuestions st;
     selectedTypes := selectedTypes st;
     autoDetect := autoDetect st;
     difficulty := difficulty st;
     customInstructions := customInstructions st;
     timeLimit := timeLimit st;
     error := msg |}.

(** [handleSubmit]: the state it leaves and the configuration it hands to
    [onStartQuiz], if it calls it.  The remote call is the continuation's
    business. *)
Definition handleSubmit (st : State) : State * option QuizConfig :=
  if (List.length (documents st) =? 0)%nat
  then (setError st "Please upload at least one lesson file.", None)
  else if negb (autoDetect st) && (List.length (selectedTypes st) =? 0)%nat
  then (setError st
          "Please select at least one question type or enable Auto-detect.",
        None)
  else
    (st,
     Some {| Types.documents := documents st;
             Types.numQuestions := numQuestions st;
             Types.selectedTypes := selectedTypes st;
             Types.autoDetect := autoDetect st;
             Types.difficulty := difficulty st;
             Types.customInstructions := JsString.trim (customInstructions st);
             Types.timeLimit := timeLimit st |}).

End UploadScreen.

(** ** [ResultScreen.tsx] *)

Module ResultScreen.

Record State : Type := {
  chatInput : string;
  chatResponse : option string;
  isChatLoading : bool
}.

Definition setChatResponse (st : State) (r : option string) : State :=
  {| chatInput := chatInput st;
     chatResponse := r;
     isChatLoading := isChatLoading st |}.

Definition setIsChatLoading (st : State) (b : bool) : State :=
  {| chatInput := chatInput st;
     chatResponse := chatResponse st;
     isChatLoading := b |}.

(** [try { body } catch (e) { handler }] *)
Definition try_catch {A : Type} (body : Completion A) (handler : JsError -> Completion A)
  : Completion A :=
  match body with
  | Return a => Return a
  | Throw e => handler e
  end.

(** [handleAskAI]: the state once the promise it returns has settled, or what
    it rejects with.  The handler of the [catch] clause does not throw, so the
    [finally] clause, which lowers the loading flag however the body ended,
    comes last. *)
Definition handleAskAI (apiKey : option string)
  (remote : Completion (option string)) (st : State) : Completion State :=
  if negb (JsString.truthy (JsString.trim (chatInput st))) then Return st
  else
    let st1 := setChatResponse (setIsChatLoading st true) None in
    st2 <- try_catch
             (resp <- geminiService.explainQuestion apiKey remote ;;
              Return (setChatResponse st1 (Some resp)))
             (fun _ =>
                Return (setChatResponse st1
                          (Some "Sorry, I couldn't connect to the AI tutor right now."))) ;;
    Return (setIsChatLoading st2 false).

End ResultScreen.

(** ** [QuizScreen.tsx] *)

(** The component is followed event by event.  An event is a click or an
    input of the user, or a firing of the interval; a step is the handler of
    the event, the render that follows and the effects whose dependencies
    changed in it.  All of this runs on one thread, one event after the
    other, each handler and effect reading the state of the last render. *)

Module QuizScreen.

Inductive Direction : Type := up | down.

(** The state of the component: its five [useState] cells, then what the
    embedding adds to follow the effects: whether the interval armed by the
    timer effect is still set, the tape [Math.random] reads from, and the
    answer lists handed to [onSubmit] so far (oldest first). *)
Record State : Type := {
  answers : list (Z * string);
  currentIdx : nat;
  timeLeft : Z;
  sequenceItems : list string;
  matchSelections : list (string * string);
  interval : bool;
  rnd : Random.Tape;
  submitted : list (list UserAnswer)
}.

Definition setAnswers (st : State) (v : list (Z * string)) : State :=
  {| answers := v; currentIdx := currentIdx st; timeLeft := timeLeft st;
     sequenceItems := sequenceItems st; matchSelections := matchSelections st;
     interval := interval st; rnd := rnd st; submitted := submitted st |}.

Definition setCurrentIdx (st : State) (v : nat) : State :=
  {| answers := answers st; currentIdx := v; timeLeft := timeLeft st;
     sequenceItems := sequenceItems st; matchSelections := matchSelections st;
     interval := interval st; rnd := rnd st; submitted := submitted st |}.

Definition setTimeLeft (st : State) (v : Z) (still_armed : bool) : State :=
  {| answers := answers st; currentIdx := currentIdx st; timeLeft := v;
     sequenceItems := sequenceItems st; matchSelections := matchSelections st;
     interval := still_armed; rnd := rnd st; submitted := submitted st |}.

Definition setSequenceItems (st : State) (v : list string) (r : Random.Tape) : State :=
  {| answers := answers st; currentIdx := currentIdx st; timeLeft := timeLeft st;
     sequenceItems := v; matchSelections := matchSelections st;
     interval := interval st; rnd := r; submitted := submitted st |}.

Definition setMatchSelections (st : State) (v : list (string * string)) : State :=
  {| answers := answers st; currentIdx := currentIdx st; timeLeft := timeLeft st;
     sequenceItems := sequenceItems st; matchSelections := v;
     interval := interval st; rnd := rnd st; submitted := submitted st |}.

Definition onSubmit (st : State) (v : list UserAnswer) : State :=
  {| answers := answers st; currentIdx := currentIdx st; timeLeft := timeLeft st;
     sequenceItems := sequenceItems st; matchSelections := matchSelections st;
     interval := interval st; rnd := rnd st; submitted := submitted st ++ [v] |}.

(** The two objects of the component. *)
Definition answers_get := @JsObject.get Z string Z.eqb.
Definition answers_set := @JsObject.set Z string Z.eqb.
Definition answers_entries := @JsObject.entries Z string JsObject.number_index.
Definition answers_spread := @JsObject.spread Z string JsObject.number_index.
Definition match_get := @JsObject.get string string String.eqb.
Definition match_set := @JsObject.set string string String.eqb.
Definition match_entries := @JsObject.entries string string JsObject.string_index.
Definition match_spread := @JsObject.spread string string JsObject.string_index.

(** [Array.prototype.sort()] without comparison function, on strings: the
    ascending order of their code units. *)
Fixpoint insert_sorted (x : string) (sorted : list string) : list string :=
  match sorted with
  | [] => [x]
  | y :: ys => if String.leb x y then x :: y :: ys else y :: insert_sorted x ys
  end.

Fixpoint sort (l : list string) : list string :=
  match l with
  | [] => []
  | x :: xs => insert_sorted x (sort xs)
  end.

(** Reading and writing an array of strings by index.  A slot that is
    [undefined] (read past the end, or left open by a write past the end) is
    kept as [""], which is what [join] and the render make of it. *)
Definition item_at (items : list string) (i : nat) : string := nth i items "".

Definition put_at (items : list string) (i : nat) (x : string) : list string :=
  if (i <? List.length items)%nat
  then geminiService.set_nth items i x
  else items ++ repeat "" (i - List.length items) ++ [x].

(** [moveItem], as a function of the working list. *)
Definition moveItem (sequenceItems : list string) (index : nat)
  (direction : Direction) : list string :=
  let newItems := sequenceItems in
  match direction with
  | up =>
      if (0 <? index)%nat
      then
        let a := item_at newItems (index - 1) in
        let b := item_at newItems index in
        put_at (put_at newItems index a) (index - 1) b
      else newItems
  | down =>
      if (Z.of_nat index <? Z.of_nat (List.length newItems) - 1)%Z
      then
        let a := item_at newItems (index + 1) in
        let b := item_at newItems index in
        put_at (put_at newItems index a) (index + 1) b
      else newItems
  end.

(** The serialization of the matching selections. *)
Definition encode_matching (sel : list (string * string)) : string :=
  JsString.join ", "
    (map (fun e : string * string => (fst e ++ " -> " ++ snd e)%string)
       (match_entries sel)).

(** [rightOptions] of the MATCHING case of [renderInput]. *)
Definition rightOptions (q : Question) : list string :=
  match matchingPairs q with
  | Some pairs => sort (map right pairs)
  | None => []
  end.

(** One row of the MATCHING case: the left item, the value shown in its
    [select], and the options the [select] lists after the placeholder. *)
Record MatchingRow : Type := {
  row_left : string;
  row_value : string;
  row_options : list string
}.

Definition matching_rows (q : Question) (sel : list (string * string))
  : list MatchingRow :=
  match matchingPairs q with
  | Some pairs =>
      map (fun pair =>
             {| row_left := left pair;
                row_value :=
                  JsString.or_else
                    (geminiService.opt_string (match_get sel (left pair))) "";
                row_options := rightOptions q |})
          pairs
  | None => []
  end.

Definition handleAnswer (q : Question) (st : State) (val : string) : State :=
  setAnswers st (answers_set (answers_spread (answers st)) (id q) val).

Definition saveComplexAnswer (q : Question) (st : State) : State :=
  match type q with
  | SEQUENCING => handleAnswer q st (JsString.join " || " (sequenceItems st))
  | MATCHING => handleAnswer q st (encode_matching (matchSelections st))
  | _ => st
  end.

Section Props.

(** [items => [...items].sort(() => Math.random() - 0.5)], as the engine
    does it. *)
Variable sort_random : Engine.RandomSort.

(** The effect that initializes the local state when the question changes. *)
Definition init_effect (q : Question) (st : State) : State :=
  let st1 :=
    match type q, sequencingItems q with
    | SEQUENCING, Some items =>
        let (shuffled, r) := sort_random items (rnd st) in
        setSequenceItems st shuffled r
    | _, _ => st
    end in
  match type q with
  | MATCHING => setMatchSelections st1 []
  | _ => st1
  end.

Inductive Event : Type :=
| Answer (val : string)
| MoveItem (index : nat) (direction : Direction)
| MatchSelect (leftItem rightItem : string)
| Next
| Previous
| Tick.

Variable questions : list Question.
Variable timeLimit : Z.

Definition currentQuestion (st : State) : option Question :=
  nth_error questions (currentIdx st).

Definition isLastQuestion (st : State) : bool :=
  (Z.of_nat (currentIdx st) =? Z.of_nat (List.length questions) - 1)%Z.

(** [parseInt(id)] for a key [id] of the answer map, which is [String(k)]
    for the number [k] the entry was written under.  Such a key starts with a
    digit, or with a minus sign and a digit, so that the result is never
    [NaN]. *)
Definition parseInt_key (k : Z) : Z :=
  match JsNumber.parseInt (JsNumber.toString k) with
  | Some i => i
  | None => k
  end.

(** [getFormattedAnswers], with [q] the current question. *)
Definition getFormattedAnswers (q : Question) (st : State) : list UserAnswer :=
  let currentAns :=
    match type q with
    | SEQUENCING => JsString.join " || " (sequenceItems st)
    | MATCHING => encode_matching (matchSelections st)
    | _ =>
        JsString.or_else
          (geminiService.opt_string (answers_get (answers st) (id q))) ""
    end in
  let finalAnswersMap :=
    answers_set (answers_spread (answers st)) (id q) currentAns in
  let formattedAnswers :=
    map (fun e => {| questionId := parseInt_key (fst e); answer := snd e |})
        (answers_entries finalAnswersMap) in
  fold_left
    (fun acc q' =>
       if existsb (fun a => (questionId a =? id q')%Z) acc then acc
       else acc ++ [{| questionId := id q'; answer := "" |}])
    questions formattedAnswers.

(** The effect that watches for the end of the countdown. *)
Definition watch_effect (st : State) : option State :=
  if ((timeLimit >? 0)%Z && (timeLeft st =? 0)%Z)%bool
  then
    match currentQuestion st with
    | Some q => Some (onSubmit st (getFormattedAnswers q st))
    | None => None
    end
  else Some st.

(** The first render and the effects that follow it.  [None]: the component
    throws, there being no current question to read. *)
Definition mount (r : Random.Tape) : option State :=
  let st0 :=
    {| answers := []; currentIdx := 0;
       timeLeft := JsNumber.round (timeLimit * 60);
       sequenceItems := []; matchSelections := [];
       interval := (0 <? timeLimit)%Z; rnd := r; submitted := [] |} in
  match currentQuestion st0 with
  | Some q => watch_effect (init_effect q st0)
  | None => None
  end.

(** A change of [currentIdx] to [i], the render and the initialization effect
    that follow. *)
Definition go_to (st : State) (i : nat) : option State :=
  if (i =? currentIdx st)%nat then Some st
  else
    let st' := setCurrentIdx st i in
    match currentQuestion st' with
    | Some q => Some (init_effect q st')
    | None => None
    end.

Definition handleNext (st : State) : option State :=
  match currentQuestion st with
  | None => None
  | Some q =>
      let st1 :=
        if (QuestionType_eqb (type q) SEQUENCING
            || QuestionType_eqb (type q) MATCHING)%bool
        then saveComplexAnswer q st else st in
      if isLastQuestion st
      then Some (onSubmit st1 (getFormattedAnswers q st))
      else go_to st1 (currentIdx st + 1)
  end.

(** One firing of the interval: the updater of [setTimeLeft], then, the value
    having changed, the effect that watches it. *)
Definition tick (st : State) : option State :=
  let prev := timeLeft st in
  let st' :=
    if (prev <=? 1)%Z then setTimeLeft st 0 false
    else setTimeLeft st (JsNumber.round (prev - 1)) (interval st) in
  if (timeLeft st' =? prev)%Z then Some st' else watch_effect st'.

Definition mem (x : string) (l : list string) : bool := existsb (String.eqb x) l.

(** What the rendered page lets the user (and the timer) do. *)
Definition enabled (st : State) (ev : Event) : bool :=
  match currentQuestion st with
  | None => false
  | Some q =>
      match ev with
      | Answer val =>
          match type q with
          | MULTIPLE_CHOICE =>
              match options q with
              | Some opts => mem val opts
              | None => false
              end
          | TRUE_FALSE => mem val ["True"; "False"]
          | SEQUENCING | MATCHING => false
          | FILL_IN_BLANK | SHORT_ANSWER => true
          end
      | MoveItem index direction =>
          QuestionType_eqb (type q) SEQUENCING
          && (index <? List.length (sequenceItems st))%nat
          && match direction with
             | up => negb (index =? 0)%nat
             | down =>
                 negb (Z.of_nat index
                       =? Z.of_nat (List.length (sequenceItems st)) - 1)%Z
             end
      | MatchSelect leftItem rightItem =>
          QuestionType_eqb (type q) MATCHING
          && match matchingPairs q with
             | Some pairs => mem leftItem (map left pairs)
             | None => false
             end
          && mem rightItem ("" :: rightOptions q)
      | Next => true
      | Previous => negb (currentIdx st =? 0)%nat
      | Tick => interval st
      end
  end.

Definition handle (st : State) (ev : Event) : option State :=
  match currentQuestion st with
  | None => None
  | Some q =>
      match ev with
      | Answer val => Some (handleAnswer q st val)
      | MoveItem index direction =>
          Some (setSequenceItems st
                  (moveItem (sequenceItems st) index direction) (rnd st))
      | MatchSelect leftItem rightItem =>
          Some (setMatchSelections st
                  (match_set (match_spread (matchSelections st))
                     leftItem rightItem))
      | Next => handleNext st
      | Previous => go_to st (Nat.max 0 (currentIdx st - 1))
      | Tick => tick st
      end
  end.

Definition step (st : State) (ev : Event) : option State :=
  if enabled st ev then handle st ev else None.

Fixpoint run (st : State) (evs : list Event) : option State :=
  match evs with
  | [] => Some st
  | ev :: evs' =>
      match step st ev with
      | Some st' => run st' evs'
      | None => None
      end
  end.

(** The states the component can be in. *)
Inductive reachable : State -> Prop :=
| reachable_mount : forall r st, mount r = Some st -> reachable st
| reachable_step : forall st ev st',
    reachable st -> step st ev = Some st' -> reachable st'.

End Props.

End QuizScreen.

(** ** What the properties speak of *)

Module Spec.

(** The separator of the sequencing encoding. *)
Definition separator : string := " || ".

(** An item is safe for the encoding when the separator does not occur in the
    item followed by the separator's first three code units. *)
Definition safe_item (x : string) : bool :=
  negb (JsString.includes separator (x ++ " ||")).

Definition ids (questions : list Question) : list Z := map id questions.

Definition answered_ids (out : list UserAnswer) : list Z := map questionId out.

(** The loop that gives every question an entry, blank if need be. *)
Definition fill (acc : list UserAnswer) (qs : list Question) : list UserAnswer :=
  fold_left
    (fun acc q' =>
       if existsb (fun a => (questionId a =? id q')%Z) acc then acc
       else acc ++ [{| questionId := id q'; answer := "" |}])
    qs acc.

(** One answer per question identity: no identity is answered twice, and the
    identities answered are those of the questions. *)
Definition one_answer_per_identity (questions : list Question)
  (out : list UserAnswer) : Prop :=
  NoDup (answered_ids out)
  /\ forall i, In i (answered_ids out) <-> In i (ids questions).

(** The answer map of a state names questions only, each once, and the
    current index is inside the question list. *)
Definition answers_ok (questions : list Question) (st : QuizScreen.State) : Prop :=
  NoDup (JsObject.keys (QuizScreen.answers st))
  /\ incl (JsObject.keys (QuizScreen.answers st)) (ids questions)
  /\ QuizScreen.currentIdx st < List.length questions.

(** While a sequencing question with items is the current one, the working
    list is a permutation of its items. *)
Definition sequence_ok (questions : list Question) (st : QuizScreen.State) : Prop :=
  forall q items,
    QuizScreen.currentQuestion questions st = Some q ->
    type q = SEQUENCING ->
    sequencingItems q = Some items ->
    Permutation items (QuizScreen.sequenceItems st).

(** The answer the finalization gives for the current question. *)
Definition current_answer (q : Question) (st : QuizScreen.State) : string :=
  match type q with
  | SEQUENCING => JsString.join separator (QuizScreen.sequenceItems st)
  | MATCHING => QuizScreen.encode_matching (QuizScreen.matchSelections st)
  | _ =>
      JsString.or_else
        (geminiService.opt_string
           (QuizScreen.answers_get (QuizScreen.answers st) (id q))) ""
  end.

(** A graded question of the result comes from the response record [gq]: it
    carries a question of that identity from the original list and the
    record's grading. *)
Definition merged_from (originalQuestions : list Question)
  (gq : geminiService.Graded) (g : GradedQuestion) : Prop :=
  In (question g) originalQuestions
  /\ id (question g) = geminiService.g_id gq
  /\ isCorrect g = geminiService.g_isCorrect gq
  /\ score g = geminiService.g_score gq
  /\ explanation g = geminiService.g_explanation gq
  /\ aiCorrection g = geminiService.g_aiCorrection gq.

(** The order of code units on strings, as a relation. *)
Definition string_le (a b : string) : Prop := String.leb a b = true.

(** An identity that its key in the answer map is read back as: a binary64
    integer below 10^21 in absolute value, whose key is its decimal form. *)
Definition plain_id (k : Z) : bool :=
  ((Z.abs k <? 10 ^ 21) && (JsNumber.round k =? k))%Z.

Definition plain_ids (questions : list Question) : Prop :=
  forall q, In q questions -> plain_id (id q) = true.

End Spec.

(** ** More of [QuizScreen.tsx]: the display of the remaining time *)

Module QuizDisplay.

(** [String(n)] for an integer [n]. *)
Definition toString (n : Z) : string := JsNumber.toString n.

(** The filling of [padStart]: [need] code units taken from [fill], over and
    over. *)
Fixpoint cycle (fill rest : string) (need : nat) : string :=
  match need with
  | O => ""
  | S k =>
      match rest with
      | String c r => String c (cycle fill r k)
      | EmptyString =>
          match fill with
          | String c r => String c (cycle fill r k)
          | EmptyString => ""
          end
      end
  end.

(** [String.prototype.padStart(targetLength, padString)] *)
Definition padStart (s : string) (targetLength : nat) (padString : string)
  : string :=
  if (targetLength <=? String.length s)%nat then s
  else (cycle padString padString (targetLength - String.length s) ++ s)%string.

(** [formatTime]; [%] is the remainder with the sign of the dividend, which
    is exact. *)
Definition formatTime (seconds : Z) : string :=
  let mins := JsNumber.floor_div seconds 60 in
  let secs := Z.rem seconds 60 in
  (toString mins ++ ":" ++ padStart (toString secs) 2 "0")%string.

End QuizDisplay.

(** ** More of [UploadScreen.tsx]: the files and the settings *)

Module UploadEvents.

(** A file as the browser hands it over: its name, media type and size in
    bytes, and what [readFileAsBase64] is going to settle to for it. *)
Record File : Type := {
  f_name : string;
  f_type : string;
  f_size : Z;
  f_read : Completion string
}.

Definition validTypes : list string :=
  ["application/pdf"; "image/jpeg"; "image/png"; "image/webp"].

Definition includes (x : string) (l : list string) : bool :=
  existsb (String.eqb x) l.

(** The handler of [reader.onload] in [readFileAsBase64]: the part of the
    data URL after its first comma ([None]: [undefined], there being no
    comma). *)
Definition base64_of_result (res : string) : option string :=
  nth_error (JsString.split "," res) 1.

(** The identifiers of the accepted files.  The program draws each as
    [Math.random().toString(36).substr(2, 9)]; the embedding takes them as
    given, one per accepted file. *)
Definition IdSupply : Type := nat -> string.

Definition next_ids (ids : IdSupply) : IdSupply := fun n => ids (S n).

(** The loop of [handleFiles]: the documents collected so far, the error
    message last set, and the identifiers left. *)
Fixpoint files_loop (files : list File) (newDocs : list UploadedFile)
  (error : string) (ids : IdSupply)
  : list UploadedFile * string * IdSupply :=
  match files with
  | [] => (newDocs, error, ids)
  | file :: rest =>
      if negb (includes (f_type file) validTypes)
      then files_loop rest newDocs
             ("Skipped invalid file: " ++ f_name file
              ++ ". Only PDF/Images allowed.")%string ids
      else if (f_size file >? 10 * 1024 * 1024)%Z
      then files_loop rest newDocs
             ("Skipped large file: " ++ f_name file ++ ". Max 10MB.")%string ids
      else
        match f_read file with
        | Return b64 =>
            files_loop rest
              (newDocs ++ [{| file_id := ids O; name := f_name file;
                              mimeType := f_type file; base64 := b64 |}])
              error (next_ids ids)
        | Throw _ => files_loop rest newDocs "Error reading file." ids
        end
  end.

Definition with_documents (st : UploadScreen.State) (docs : list UploadedFile)
  (err : string) : UploadScreen.State :=
  {| UploadScreen.documents := docs;
     UploadScreen.numQuestions := UploadScreen.numQuestions st;
     UploadScreen.selectedTypes := UploadScreen.selectedTypes st;
     UploadScreen.autoDetect := UploadScreen.autoDetect st;
     UploadScreen.difficulty := UploadScreen.difficulty st;
     UploadScreen.customInstructions := UploadScreen.customInstructions st;
     UploadScreen.timeLimit := UploadScreen.timeLimit st;
     UploadScreen.error := err |}.

(** [handleFiles], taken as one step: between its first and its last update
    of the state it only reads the files.  (The flag [isProcessing], raised
    for the duration, is not part of the embedded state.) *)
Definition handleFiles (st : UploadScreen.State) (files : list File)
  (ids : IdSupply) : UploadScreen.State * IdSupply :=
  match files_loop files [] "" ids with
  | (newDocs, err, ids') =>
      (with_documents st (UploadScreen.documents st ++ newDocs) err, ids')
  end.

Definition removeDoc (st : UploadScreen.State) (id : string)
  : UploadScreen.State :=
  with_documents st
    (filter (fun d => negb (file_id d =? id)%string) (UploadScreen.documents st))
    (UploadScreen.error st).

Definition with_types (st : UploadScreen.State) (types : list QuestionType)
  (auto : bool) : UploadScreen.State :=
  {| UploadScreen.documents := UploadScreen.documents st;
     UploadScreen.numQuestions := UploadScreen.numQuestions st;
     UploadScreen.selectedTypes := types;
     UploadScreen.autoDetect := auto;
     UploadScreen.difficulty := UploadScreen.difficulty st;
     UploadScreen.customInstructions := UploadScreen.customInstructions st;
     UploadScreen.timeLimit := UploadScreen.timeLimit st;
     UploadScreen.error := UploadScreen.error st |}.

Definition selected (t : QuestionType) (types : list QuestionType) : bool :=
  existsb (QuestionType_eqb t) types.

Definition toggleType (st : UploadScreen.State) (t : QuestionType)
  : UploadScreen.State :=
  let types := UploadScreen.selectedTypes st in
  with_types st
    (if selected t types
     then filter (fun t' => negb (QuestionType_eqb t' t)) types
     else types ++ [t])
    false.

(** The button that switches between automatic and manual selection. *)
Definition toggleAutoDetect (st : UploadScreen.State) : UploadScreen.State :=
  with_types st [] (negb (UploadScreen.autoDetect st)).

Definition with_settings (st : UploadScreen.State) (n : Z) (d : Difficulty)
  (instructions : string) (limit : Z) : UploadScreen.State :=
  {| UploadScreen.documents := UploadScreen.documents st;
     UploadScreen.numQuestions := n;
     UploadScreen.selectedTypes := UploadScreen.selectedTypes st;
     UploadScreen.autoDetect := UploadScreen.autoDetect st;
     UploadScreen.difficulty := d;
     UploadScreen.customInstructions := instructions;
     UploadScreen.timeLimit := limit;
     UploadScreen.error := UploadScreen.error st |}.

(** The input of the time limit: [val] is [parseInt(e.target.value)], [None]
    when it is [NaN]. *)
Definition changeTimeLimit (st : UploadScreen.State) (val : option Z)
  : UploadScreen.State :=
  with_settings st (UploadScreen.numQuestions st) (UploadScreen.difficulty st)
    (UploadScreen.customInstructions st)
    match val with
    | None => 0%Z
    | Some v => Z.max 0 v
    end.

Inductive Event : Type :=
| Files (files : list File)
| RemoveDoc (id : string)
| ToggleType (t : QuestionType)
| ToggleAutoDetect
| NumQuestions (n : Z)
| TimeLimit (val : option Z)
| ChooseDifficulty (d : Difficulty)
| Instructions (s : string)
| Submit.

(** The state of the first render. *)
Definition initial : UploadScreen.State :=
  {| UploadScreen.documents := [];
     UploadScreen.numQuestions := 5;
     UploadScreen.selectedTypes := [];
     UploadScreen.autoDetect := true;
     UploadScreen.difficulty := Medium;
     UploadScreen.customInstructions := "";
     UploadScreen.timeLimit := 0;
     UploadScreen.error := "" |}.

(** What the page lets the user do: a document is removed by its own button,
    the types are clickable in manual selection only, the slider of the
    question count runs from 1 to 100. *)
Definition enabled (st : UploadScreen.State) (ev : Event) : bool :=
  match ev with
  | RemoveDoc id =>
      existsb (fun d => (file_id d =? id)%string) (UploadScreen.documents st)
  | ToggleType _ => negb (UploadScreen.autoDetect st)
  | NumQuestions n => ((1 <=? n) && (n <=? 100))%Z
  | _ => true
  end.

Definition handle (st : UploadScreen.State) (ev : Event) (ids : IdSupply)
  : UploadScreen.State * IdSupply :=
  match ev with
  | Files files => handleFiles st files ids
  | RemoveDoc id => (removeDoc st id, ids)
  | ToggleType t => (toggleType st t, ids)
  | ToggleAutoDetect => (toggleAutoDetect st, ids)
  | NumQuestions n =>
      (with_settings st n (UploadScreen.difficulty st)
         (UploadScreen.customInstructions st) (UploadScreen.timeLimit st), ids)
  | TimeLimit val => (changeTimeLimit st val, ids)
  | ChooseDifficulty d =>
      (with_settings st (UploadScreen.numQuestions st) d
         (UploadScreen.customInstructions st) (UploadScreen.timeLimit st), ids)
  | Instructions s =>
      (with_settings st (UploadScreen.numQuestions st)
         (UploadScreen.difficulty st) s (UploadScreen.timeLimit st), ids)
  | Submit => (fst (UploadScreen.handleSubmit st), ids)
  end.

(** The states the upload page can be in. *)
Inductive reachable : UploadScreen.State -> Prop :=
| reachable_initial : reachable initial
| reachable_step : forall st ev ids,
    reachable st -> enabled st ev = true ->
    reachable (fst (handle st ev ids)).

End UploadEvents.

(** ** More of [services/geminiService.ts]: the generation request *)

Module geminiRequest.

Definition dquote : string := String (Ascii.ascii_of_nat 34) "".

Definition Difficulty_value (d : Difficulty) : string :=
  match d with
  | Easy => "Easy"
  | Medium => "Medium"
  | Hard => "Hard"
  end.

Definition focus (d : Difficulty) : string :=
  match d with
  | Easy => " Focus on basic recall, definitions, and simple concepts."
  | Medium => " Focus on understanding, application, and connecting concepts."
  | Hard => " Focus on deep analysis, complex problem solving, and nuances."
  end.

(** [customInstructions && customInstructions.trim()] *)
Definition given (customInstructions : option string) : bool :=
  match customInstructions with
  | Some c => JsString.truthy c && JsString.truthy (JsString.trim c)
  | None => false
  end.

Definition critical (c : string) : string :=
  ("

CRITICAL INSTRUCTIONS: The user has provided specific requirements for the question style, format, or content focus: "
   ++ dquote ++ c ++ dquote ++ ".
    You MUST shape the questions exactly according to these instructions. For example, if asked to use vocabulary in context, do not ask for definitions. If asked for a specific topic, ignore unrelated content.")%string.

Definition closing : string :=
  "
  Instructions for specific types:
  - MATCHING: Provide 'matchingPairs' with left and right items (e.g., Term and Definition).
  - SEQUENCING: Provide 'sequencingItems' in the CORRECT chronological or logical order.
  - SHORT_ANSWER: Can include 'Correct the underline' or 'Rewrite' tasks.
  
  Output JSON.".

Section Prompt.

Variable QuestionType_value : QuestionType -> string.

Definition whitelist (types : list QuestionType) : string :=
  (" STRICTLY use only these question types: "
   ++ JsString.join ", " (map QuestionType_value types) ++ ".")%string.

(** The prompt [generateQuiz] assembles. *)
Definition prompt (numQuestions : Z) (types : list QuestionType)
  (autoDetect : bool) (difficulty : Difficulty)
  (customInstructions : option string) : string :=
  let p0 :=
    ("Create a quiz with exactly " ++ QuizDisplay.toString numQuestions
     ++ " questions based on the attached lesson materials.")%string in
  let p1 :=
    (p0 ++ "
Target Difficulty Level: " ++ Difficulty_value difficulty ++ ".")%string in
  let p2 := (p1 ++ focus difficulty)%string in
  let p3 :=
    if given customInstructions
    then (p2 ++ critical (geminiService.opt_string customInstructions))%string
    else p2 in
  let p4 :=
    if autoDetect
    then (p3 ++ " Choose a mix of question types (Multiple Choice, True/False, Fill in Blank, Short Answer, Matching, Sequencing) that best suits the content.")%string
    else (p3 ++ whitelist types)%string in
  (p4 ++ closing)%string.

(** The parts of the request: one per document, in order, then the
    prompt. *)
Inductive Part : Type :=
| inlineData (mimeType data : string)
| text (t : string).

Definition parts (documents : list UploadedFile) (numQuestions : Z)
  (types : list QuestionType) (autoDetect : bool) (difficulty : Difficulty)
  (customInstructions : option string) : list Part :=
  map (fun doc => inlineData (mimeType doc) (base64 doc)) documents
  ++ [text (prompt numQuestions types autoDetect difficulty customInstructions)].

End Prompt.

End geminiRequest.

(** ** What the further properties of the session speak of *)

Module SessionSpec.

(** The left items of a matching question and the values its selects offer
    (the placeholder has the value [""]). *)
Definition lefts (q : Question) : list string :=
  match matchingPairs q with
  | Some pairs => map left pairs
  | None => []
  end.

Definition choices (q : Question) : list string :=
  "" :: QuizScreen.rightOptions q.

(** While a matching question is the current one, the selections name left
    items of the question only, each once, with offered values. *)
Definition matching_ok (questions : list Question) (st : QuizScreen.State)
  : Prop :=
  forall q,
    QuizScreen.currentQuestion questions st = Some q ->
    type q = MATCHING ->
    NoDup (JsObject.keys (QuizScreen.matchSelections st))
    /\ forall l r, In (l, r) (QuizScreen.matchSelections st) ->
                   In l (lefts q) /\ In r (choices q).

(** The countdown of a timed session: the remaining time is within its
    bounds, the interval is set exactly while time remains, and time is up
    only after a submission. *)
Definition timer_ok (timeLimit : Z) (st : QuizScreen.State) : Prop :=
  (0 <= QuizScreen.timeLeft st <= timeLimit * 60)%Z
  /\ (QuizScreen.interval st = true <-> (0 < QuizScreen.timeLeft st)%Z)
  /\ (QuizScreen.timeLeft st = 0%Z -> QuizScreen.submitted st <> []).

(** An untimed session has no interval and its time cell never moves. *)
Definition untimed_ok (timeLimit : Z) (st : QuizScreen.State) : Prop :=
  QuizScreen.interval st = false
  /\ QuizScreen.timeLeft st = JsNumber.round (timeLimit * 60).

End SessionSpec.

(** ** Reading a displayed time back *)

Module DisplaySpec.

(** The integer a decimal string denotes. *)
Definition parse (s : string) : option Z :=
  option_map Z.of_int (DecimalString.NilZero.int_of_string s).

(** The seconds a display of the form [m:ss] stands for. *)
Definition parseTime (s : string) : option Z :=
  match JsString.split ":" s with
  | [m; sec] =>
      match parse m, parse sec with
      | Some a, Some b => Some (60 * a + b)%Z
      | _, _ => None
      end
  | _ => None
  end.

(** The seconds field of [formatTime] for [secs]: two code units, no colon,
    denoting [secs]. *)
Definition seconds_field_ok (secs : nat) : bool :=
  let f := QuizDisplay.padStart (QuizDisplay.toString (Z.of_nat secs)) 2 "0" in
  (String.length f =? 2)%nat
  && negb (JsString.includes ":" f)
  && match parse f with
     | Some v => (v =? Z.of_nat secs)%Z
     | None => false
     end.

End DisplaySpec.

(** ** What the further properties of the service speak of *)

Module ResponseSpec.

(** A question comes back from the normalizer as it was, or as the same
    object with its option list permuted. *)
Definition same_but_options (q q' : Json.t) : Prop :=
  q' = q
  \/ exists props props' opts opts',
       q = Json.JObject props
       /\ q' = Json.JObject props'
       /\ JsObject.get String.eqb props "options" = Some (Json.JArray opts)
       /\ JsObject.get String.eqb props' "options" = Some (Json.JArray opts')
       /\ Permutation opts opts'
       /\ forall k, k <> "options" ->
                    JsObject.get String.eqb props' k
                    = JsObject.get String.eqb props k.

(** The sum of the scores of a grading response. *)
Definition sum_scores (records : list geminiService.Graded) : Q :=
  fold_right Qplus 0%Q (map geminiService.g_score records).

(** A graded question carries the answer the list [out] holds for the
    identity of its record: there is one, and the graded question has it. *)
Definition carries_answer (out : list UserAnswer) (gq : geminiService.Graded)
  (g : GradedQuestion) : Prop :=
  (exists a, In a out /\ questionId a = geminiService.g_id gq)
  /\ forall a, In a out -> questionId a = geminiService.g_id gq ->
                userAnswer g = answer a.

(** A score the grading schema asks for: 0, 0.5 or 1. *)
Definition schema_score (x : Q) : Prop :=
  Qeq x 0%Q \/ Qeq x (1 # 2)%Q \/ Qeq x 1%Q.

End ResponseSpec.

(** ** What the properties of the upload page speak of *)

Module UploadSpec.

(** A file the loop of [handleFiles] turns into a document: its type is an
    allowed one, it is not over the size limit, and it can be read. *)
Definition accepted (f : UploadEvents.File) : bool :=
  UploadEvents.includes (UploadEvents.f_type f) UploadEvents.validTypes
  && (UploadEvents.f_size f <=? 10 * 1024 * 1024)%Z
  && match UploadEvents.f_read f with
     | Return _ => true
     | Throw _ => false
     end.

(** The message for a file that is not accepted. *)
Definition rejection (f : UploadEvents.File) : string :=
  if negb (UploadEvents.includes (UploadEvents.f_type f) UploadEvents.validTypes)
  then ("Skipped invalid file: " ++ UploadEvents.f_name f
        ++ ". Only PDF/Images allowed.")%string
  else if (UploadEvents.f_size f >? 10 * 1024 * 1024)%Z
  then ("Skipped large file: " ++ UploadEvents.f_name f ++ ". Max 10MB.")%string
  else "Error reading file.".

(** The documents of a list of readable files, with identifiers drawn in
    order. *)
Fixpoint docs_of (fs : list UploadEvents.File) (ids : UploadEvents.IdSupply)
  : list UploadedFile :=
  match fs with
  | [] => []
  | f :: rest =>
      {| file_id := ids O;
         name := UploadEvents.f_name f;
         mimeType := UploadEvents.f_type f;
         base64 := match UploadEvents.f_read f with
                   | Return b64 => b64
                   | Throw _ => ""
                   end |}
      :: docs_of rest (UploadEvents.next_ids ids)
  end.

(** The settings of the page are coherent. *)
Definition settings_ok (st : UploadScreen.State) : Prop :=
  (UploadScreen.autoDetect st = true -> UploadScreen.selectedTypes st = [])
  /\ NoDup (UploadScreen.selectedTypes st)
  /\ (0 <= UploadScreen.timeLimit st)%Z
  /\ (1 <= UploadScreen.numQuestions st <= 100)%Z
  /\ Forall (fun d => In (mimeType d) UploadEvents.validTypes)
       (UploadScreen.documents st).

(** The same of a configuration handed to [onStartQuiz], which moreover has a
    document and, in manual selection, a type. *)
Definition config_ok (cfg : QuizConfig) : Prop :=
  Types.documents cfg <> []
  /\ (Types.autoDetect cfg = true -> Types.selectedTypes cfg = [])
  /\ (Types.autoDetect cfg = false -> Types.selectedTypes cfg <> [])
  /\ NoDup (Types.selectedTypes cfg)
  /\ (0 <= Types.timeLimit cfg)%Z
  /\ (1 <= Types.numQuestions cfg <= 100)%Z
  /\ Forall (fun d => In (mimeType d) UploadEvents.validTypes)
       (Types.documents cfg).

End UploadSpec.

(** ** Tapes with chosen draws *)

Module Draws.

(** The tape that gives the draws of [draws], in order, and then those of
    [t]. *)
Fixpoint tape_of (draws : list N) (t : Random.Tape) : Random.Tape :=
  match draws with
  | [] => t
  | d :: rest =>
      fun n => match n with
               | O => d
               | S m => tape_of rest t m
               end
  end.

(** A numerator for which [Math.floor(Math.random() * k)] is [j]: the least
    one, [j * 2^53 / k] rounded up. *)
Definition draw_for (j k : nat) : N :=
  ((N.of_nat j * Random.two53 + N.of_nat k - 1) / N.of_nat k)%N.

End Draws.

(** ** Sample data *)

Definition sample_file : UploadedFile :=
  {| file_id := "k3x9"; name := "lesson.pdf";
     mimeType := "application/pdf"; base64 := "JVBERi0=" |}.

Definition sample_upload (docs : list UploadedFile) (types : list QuestionType)
  (auto : bool) : UploadScreen.State :=
  {| UploadScreen.documents := docs;
     UploadScreen.numQuestions := 5;
     UploadScreen.selectedTypes := types;
     UploadScreen.autoDetect := auto;
     UploadScreen.difficulty := Medium;
     UploadScreen.customInstructions := " use the vocabulary in context ";
     UploadScreen.timeLimit := 0;
     UploadScreen.error := "" |}.

Definition asking : ResultScreen.State :=
  {| ResultScreen.chatInput := "Why is my answer wrong?";
     ResultScreen.chatResponse := None;
     ResultScreen.isChatLoading := false |}.

Definition sample_tags (t : QuestionType) : string :=
  match t with
  | MULTIPLE_CHOICE => "multiple_choice"
  | TRUE_FALSE => "true_false"
  | FILL_IN_BLANK => "fill_in_blank"
  | SHORT_ANSWER => "short_answer"
  | MATCHING => "matching"
  | SEQUENCING => "sequencing"
  end.

Definition sample_mcq : list (string * Json.t) :=
  [("id", Json.JNumber 1%Q);
   ("type", Json.JString "multiple_choice");
   ("text", Json.JString "Which planet is the largest?");
   ("options",
    Json.JArray [Json.JString "Mars"; Json.JString "Jupiter"; Json.JString "Venus"]);
   ("correctAnswer", Json.JString "Jupiter")].

Definition sample_true_false : list (string * Json.t) :=
  [("id", Json.JNumber 2%Q);
   ("type", Json.JString "true_false");
   ("text", Json.JString "Jupiter is a planet.");
   ("correctAnswer", Json.JString "True")].

Definition zero_tape : Random.Tape := fun _ => 0%N.

Definition capital : Question :=
  {| id := 1; type := SHORT_ANSWER; text := "Name the capital of France.";
     options := None; correctAnswer := Some "Paris";
     matchingPairs := None; sequencingItems := None |}.

Definition graded (i : Z) : geminiService.Graded :=
  {| geminiService.g_id := i;
     geminiService.g_isCorrect := true;
     geminiService.g_score := 1%Q;
     geminiService.g_explanation := "Paris is the capital of France.";
     geminiService.g_aiCorrection := "Paris" |}.

Definition grading (i : Z) : geminiService.GradingData :=
  {| geminiService.d_gradedQuestions := Some [graded i];
     geminiService.d_overallFeedback := Some "Well done." |}.

Definition continents : Question :=
  {| id := 4; type := MATCHING; text := "Match each city with its continent.";
     options := None; correctAnswer := None;
     matchingPairs :=
       Some [ {| left := "Paris"; right := "Europe" |};
              {| left := "Cairo"; right := "Africa" |};
              {| left := "Berlin"; right := "Europe" |} ];
     sequencingItems := None |}.

Definition brewing : Question :=
  {| id := 3; type := SEQUENCING; text := "Put the steps of making tea in order.";
     options := None; correctAnswer := None; matchingPairs := None;
     sequencingItems := Some ["boil"; "steep"; "pour"] |}.

Definition quiz : list Question := [brewing; capital].

(** Two questions that the generation service gave the same identity. *)
Definition twin_a : Question :=
  {| id := 1; type := SHORT_ANSWER; text := "Name the capital of France.";
     options := None; correctAnswer := Some "Paris";
     matchingPairs := None; sequencingItems := None |}.

Definition twin_b : Question :=
  {| id := 1; type := TRUE_FALSE; text := "Paris is in Europe.";
     options := None; correctAnswer := Some "True";
     matchingPairs := None; sequencingItems := None |}.

Definition twins : list Question := [twin_a; twin_b].

(** A sequencing question that came without items, after one that has
    some. *)
Definition bare : Question :=
  {| id := 5; type := SEQUENCING; text := "Put the events in order.";
     options := None; correctAnswer := None; matchingPairs := None;
     sequencingItems := None |}.

Definition unlisted : list Question := [brewing; bare].

(** A question whose identity is printed in exponent form. *)
Definition far : Question :=
  {| id := 10 ^ 21; type := SHORT_ANSWER; text := "Name the capital of France.";
     options := None; correctAnswer := Some "Paris";
     matchingPairs := None; sequencingItems := None |}.

(** The first question of [quiz] with its items reordered by the user. *)
Definition reordering : QuizScreen.State :=
  {| QuizScreen.answers := []; QuizScreen.currentIdx := 0;
     QuizScreen.timeLeft := 0; QuizScreen.sequenceItems := ["b"; "a"; "c"];
     QuizScreen.matchSelections := []; QuizScreen.interval := false;
     QuizScreen.rnd := zero_tape; QuizScreen.submitted := [] |}.

Definition blank : QuizScreen.State :=
  {| QuizScreen.answers := []; QuizScreen.currentIdx := 0;
     QuizScreen.timeLeft := 0; QuizScreen.sequenceItems := [];
     QuizScreen.matchSelections := []; QuizScreen.interval := false;
     QuizScreen.rnd := zero_tape; QuizScreen.submitted := [] |}.

(** The state of a session on [questions] once mounted, and after the events
    [evs]. *)
Definition started (questions : list Question) (timeLimit : Z) : QuizScreen.State :=
  match QuizScreen.mount Engine.v8 questions timeLimit zero_tape with
  | Some st => st
  | None => blank
  end.

Definition after (questions : list Question) (timeLimit : Z)
  (evs : list QuizScreen.Event) : QuizScreen.State :=
  match QuizScreen.run Engine.v8 questions timeLimit (started questions timeLimit) evs with
  | Some st => st
  | None => blank
  end.

(** A text of two no-break spaces (code unit 160) around a space. *)
Definition no_break_spaces : string :=
  String (Ascii.ascii_of_nat 160)
    (String " " (String (Ascii.ascii_of_nat 160) EmptyString)).

(** Files dropped on the upload page. *)
Definition lesson : UploadEvents.File :=
  {| UploadEvents.f_name := "lesson.pdf";
     UploadEvents.f_type := "application/pdf";
     UploadEvents.f_size := 2048;
     UploadEvents.f_read := Return "JVBERi0=" |}.

Definition notes : UploadEvents.File :=
  {| UploadEvents.f_name := "notes.txt";
     UploadEvents.f_type := "text/plain";
     UploadEvents.f_size := 120;
     UploadEvents.f_read := Return "aGVsbG8=" |}.

Definition sample_ids : UploadEvents.IdSupply := fun _ => "k3x9".

(** A quiz that opens with a matching question. *)
Definition atlas : list Question := [continents; capital].

(** * Properties *)

(** ** Strings: [join] and [split] *)

Section SplitJoin.

Lemma append_assoc_char (cur : string) (a : ascii) (x : string) :
  ((cur ++ String a "") ++ x = cur ++ String a x)%string.
Proof.
  induction cur as [|c cur IH]; simpl; [reflexivity|].
  now rewrite IH.
Qed.

Lemma append_empty_r (s : string) : (s ++ "")%string = s.
Proof.
  induction s as [|c s IH]; simpl; [reflexivity|].
  now rewrite IH.
Qed.

Lemma append_assoc (a b c : string) :
  ((a ++ b) ++ c = a ++ (b ++ c))%string.
Proof.
  induction a as [|x a IH]; simpl; [reflexivity|].
  now rewrite IH.
Qed.

Lemma length_append (a b : string) :
  String.length (a ++ b) = String.length a + String.length b.
Proof.
  induction a as [|x a IH]; simpl; [reflexivity|].
  now rewrite IH.
Qed.

Lemma prefix_empty (s : string) : prefix "" s = true.
Proof. now destruct s. Qed.

Lemma prefix_cons (c d : ascii) (p s : string) :
  prefix (String c p) (String d s)
  = if Ascii.eqb c d then prefix p s else false.
Proof.
  simpl. destruct (ascii_dec c d) as [->|Hne].
  - now rewrite Ascii.eqb_refl.
  - apply Ascii.eqb_neq in Hne. now rewrite Hne.
Qed.

(** A pattern no longer than [a] is a prefix of [a ++ b] exactly when it is
    one of [a]. *)
Lemma prefix_app_long (p a b : string) :
  String.length p <= String.length a ->
  prefix p (a ++ b) = prefix p a.
Proof.
  revert a; induction p as [|c p IH]; intros a Hlen.
  - now rewrite !prefix_empty.
  - destruct a as [|d a]; simpl in Hlen; [lia|].
    simpl. destruct (ascii_dec c d); [|reflexivity].
    apply IH. lia.
Qed.

Lemma prefix_app_true (p a b : string) :
  prefix p a = true -> prefix p (a ++ b) = true.
Proof.
  revert a; induction p as [|c p IH]; intros a H.
  - apply prefix_empty.
  - destruct a as [|d a]; simpl in H; [discriminate|].
    simpl. destruct (ascii_dec c d); [|discriminate].
    now apply IH.
Qed.

Lemma prefix_refl_app (p b : string) : prefix p (p ++ b) = true.
Proof.
  induction p as [|c p IH]; simpl.
  - apply prefix_empty.
  - destruct (ascii_dec c c); [assumption|congruence].
Qed.

Lemma includes_cons (pat : string) (a : ascii) (s : string) :
  JsString.includes pat (String a s) = false ->
  prefix pat (String a s) = false /\ JsString.includes pat s = false.
Proof.
  cbn [JsString.includes]. intros H.
  now apply orb_false_iff in H.
Qed.

Lemma includes_app_false (c : ascii) (p a b : string) :
  JsString.includes (String c p) (a ++ b) = false ->
  JsString.includes (String c p) a = false.
Proof.
  induction a as [|x a IH]; intros H.
  - reflexivity.
  - simpl append in H. apply includes_cons in H as [Hp Hi].
    cbn [JsString.includes]. rewrite (IH Hi), orb_false_r.
    destruct (prefix (String c p) (String x a)) eqn:E; [|reflexivity].
    apply (prefix_app_true _ _ b) in E. simpl append in E. congruence.
Qed.

(** Passing over the rest of a matched separator. *)
Lemma split_from_skip (sep u cur rest : string) :
  JsString.split_from sep (String.length u) cur (u ++ rest)
  = JsString.split_from sep 0 cur rest.
Proof.
  induction u as [|a u IH]; simpl.
  - now destruct rest.
  - apply IH.
Qed.

(** A string without occurrence of the separator is one piece. *)
Lemma split_from_no_match (c : ascii) (p cur s : string) :
  JsString.includes (String c p) s = false ->
  JsString.split_from (String c p) 0 cur s = [(cur ++ s)%string].
Proof.
  revert cur; induction s as [|a s IH]; intros cur H.
  - simpl. now rewrite append_empty_r.
  - apply includes_cons in H as [Hp Hi].
    cbn [JsString.split_from]. rewrite Hp.
    rewrite (IH _ Hi). now rewrite append_assoc_char.
Qed.

(** An item followed by the separator: when the separator [init ++ l] does
    not occur in the item followed by [init], the first occurrence found is the
    one that follows the item. *)
Lemma split_from_item (init : string) (l : ascii) (x cur rest : string) :
  let sep := (init ++ String l "")%string in
  JsString.includes sep (x ++ init) = false ->
  JsString.split_from sep 0 cur (x ++ sep ++ rest)
  = (cur ++ x)%string :: JsString.split_from sep 0 "" rest.
Proof.
  intros sep. revert cur.
  assert (Hlen : String.length sep = S (String.length init)).
  { unfold sep. rewrite length_append. simpl. lia. }
  induction x as [|a x IH]; intros cur H.
  - simpl append. rewrite append_empty_r.
    destruct sep as [|c sep'] eqn:Esep; [discriminate|].
    simpl append. cbn [JsString.split_from].
    pose proof (prefix_refl_app (String c sep') rest) as Hp.
    simpl append in Hp. rewrite Hp. f_equal.
    simpl in Hlen. injection Hlen as Hlen.
    replace (String.length (String c sep') - 1) with (String.length sep')
      by (simpl; lia).
    apply split_from_skip.
  - simpl append in H. apply includes_cons in H as [Hp Hi].
    simpl append. cbn [JsString.split_from].
    assert (Hno : prefix sep (String a (x ++ sep ++ rest)) = false).
    { replace (String a (x ++ sep ++ rest))
        with ((String a (x ++ init)) ++ (String l "" ++ rest))%string.
      - rewrite prefix_app_long; [exact Hp|].
        simpl. rewrite length_append. lia.
      - simpl. f_equal. unfold sep.
        now rewrite !append_assoc. }
    rewrite Hno. rewrite (IH _ Hi). now rewrite append_assoc_char.
Qed.

Lemma split_join_safe (items : list string) :
  items <> [] ->
  Forall (fun x => Spec.safe_item x = true) items ->
  JsString.split Spec.separator (JsString.join Spec.separator items) = items.
Proof.
  intros Hne Hall. unfold JsString.split, Spec.separator.
  change (JsString.split_from " || " 0 "" (JsString.join " || " items) = items).
  induction items as [|x rest IH]; [congruence|].
  inversion Hall as [|? ? Hx Hrest]; subst.
  unfold Spec.safe_item in Hx. apply negb_true_iff in Hx.
  destruct rest as [|y rest'].
  - simpl JsString.join.
    rewrite (split_from_no_match " " "|| " "" x); [reflexivity|].
    exact (includes_app_false _ _ _ _ Hx).
  - change (JsString.join " || " (x :: y :: rest'))
      with (x ++ " || " ++ JsString.join " || " (y :: rest'))%string.
    pose proof (split_from_item " ||" " " x ""
                  (JsString.join " || " (y :: rest')) Hx) as E.
    cbv zeta in E. change (" ||" ++ String " " "")%string with " || " in E.
    rewrite E. simpl append. f_equal. apply IH; [discriminate|assumption].
Qed.

(** An item that neither contains the separator nor ends with [" ||"] is
    safe. *)
Lemma safe_item_intro (x : string) :
  JsString.includes Spec.separator x = false ->
  JsString.endsWith x " ||" = false ->
  Spec.safe_item x = true.
Proof.
  unfold Spec.safe_item, Spec.separator. intros Hin Hend. apply negb_true_iff.
  induction x as [|a x IH].
  - reflexivity.
  - apply includes_cons in Hin as [Hp Hi].
    cbn [JsString.endsWith] in Hend. apply orb_false_iff in Hend as [Heq Hend].
    simpl append. cbn [JsString.includes].
    rewrite (IH Hi Hend), orb_false_r.
    destruct x as [|b [|c [|d x4]]].
    + simpl append. rewrite prefix_cons.
      destruct (Ascii.eqb " " a); reflexivity.
    + simpl append. rewrite !prefix_cons.
      destruct (Ascii.eqb " " a); [|reflexivity].
      destruct (Ascii.eqb "|" b); reflexivity.
    + simpl append. rewrite !prefix_cons.
      destruct (Ascii.eqb " " a) eqn:Ea; [|reflexivity].
      destruct (Ascii.eqb "|" b) eqn:Eb; [|reflexivity].
      destruct (Ascii.eqb "|" c) eqn:Ec; [|reflexivity].
      apply Ascii.eqb_eq in Ea, Eb, Ec. subst a b c. discriminate Heq.
    + etransitivity; [|exact Hp].
      change (String a (String b (String c (String d x4)) ++ " ||"))
        with ((String a (String b (String c (String d x4)))) ++ " ||")%string.
      apply prefix_app_long. simpl. lia.
Qed.

End SplitJoin.

(** ** Objects: lookup, update and enumeration *)

Section ObjectFacts.

Context {K V : Type}.
Variable key_eqb : K -> K -> bool.
Hypothesis key_eqb_eq : forall a b, key_eqb a b = true <-> a = b.

Abbreviation get := (JsObject.get key_eqb).
Abbreviation set := (JsObject.set key_eqb).

Lemma key_eqb_refl (k : K) : key_eqb k k = true.
Proof. now apply key_eqb_eq. Qed.

Lemma key_eqb_neq (a b : K) : a <> b -> key_eqb a b = false.
Proof.
  intros Hne. destruct (key_eqb a b) eqn:E; [|reflexivity].
  apply key_eqb_eq in E. contradiction.
Qed.

Lemma get_set_same (o : list (K * V)) (k : K) (v : V) :
  get (set o k v) k = Some v.
Proof.
  induction o as [|[k' v'] o IH]; simpl.
  - now rewrite key_eqb_refl.
  - destruct (key_eqb k' k) eqn:E; simpl; rewrite E; [reflexivity|exact IH].
Qed.

Lemma get_set_other (o : list (K * V)) (k k' : K) (v : V) :
  k' <> k -> get (set o k v) k' = get o k'.
Proof.
  intros Hne. induction o as [|[a v'] o IH]; simpl.
  - rewrite key_eqb_neq; [reflexivity|congruence].
  - destruct (key_eqb a k) eqn:E; simpl.
    + apply key_eqb_eq in E. subst a.
      rewrite key_eqb_neq; [reflexivity|congruence].
    + now rewrite IH.
Qed.

Lemma keys_set (o : list (K * V)) (k : K) (v : V) :
  JsObject.keys (set o k v)
  = if existsb (fun a => key_eqb a k) (JsObject.keys o)
    then JsObject.keys o else JsObject.keys o ++ [k].
Proof.
  unfold JsObject.keys.
  induction o as [|[a v'] o IH]; simpl; [reflexivity|].
  destruct (key_eqb a k) eqn:E; simpl; [reflexivity|].
  rewrite IH. now destruct (existsb _ _).
Qed.

Lemma existsb_key (k : K) (l : list K) :
  existsb (fun a => key_eqb a k) l = true <-> In k l.
Proof.
  rewrite existsb_exists. split.
  - intros [a [Ha E]]. apply key_eqb_eq in E. now subst.
  - intros H. exists k. split; [assumption|apply key_eqb_refl].
Qed.

Lemma In_keys_set (o : list (K * V)) (k k' : K) (v : V) :
  In k' (JsObject.keys (set o k v)) <-> k' = k \/ In k' (JsObject.keys o).
Proof.
  rewrite keys_set.
  destruct (existsb _ _) eqn:E.
  - apply existsb_key in E. split; [auto|]. intros [->|H]; assumption.
  - rewrite in_app_iff. simpl. intuition.
Qed.

Lemma NoDup_keys_set (o : list (K * V)) (k : K) (v : V) :
  NoDup (JsObject.keys o) -> NoDup (JsObject.keys (set o k v)).
Proof.
  intros Hnd. rewrite keys_set.
  destruct (existsb _ _) eqn:E; [assumption|].
  apply NoDup_app; [assumption|repeat constructor; intros []|].
  intros x Hx [<-|[]].
  apply existsb_key in Hx. congruence.
Qed.

Lemma get_not_key (o : list (K * V)) (k : K) :
  ~ In k (JsObject.keys o) -> get o k = None.
Proof.
  unfold JsObject.keys. induction o as [|[a v] o IH]; simpl; [reflexivity|].
  intros H. rewrite key_eqb_neq by (intros ->; auto). apply IH. auto.
Qed.

Lemma In_get (o : list (K * V)) (k : K) (v : V) :
  NoDup (JsObject.keys o) -> In (k, v) o -> get o k = Some v.
Proof.
  unfold JsObject.keys. induction o as [|[a w] o IH]; simpl; [tauto|].
  intros Hnd [E|Hin].
  - injection E as -> ->. now rewrite key_eqb_refl.
  - inversion Hnd as [|? ? Hna Hnd']; subst.
    rewrite key_eqb_neq; [now apply IH|].
    intros ->. apply Hna. now apply (in_map fst) in Hin.
Qed.

End ObjectFacts.

Section EnumerationFacts.

Context {K V : Type}.
Variable key_eqb : K -> K -> bool.
Variable array_index : K -> option N.
Hypothesis key_eqb_eq : forall a b, key_eqb a b = true <-> a = b.

Abbreviation get := (JsObject.get key_eqb).
Abbreviation entries := (JsObject.entries array_index).
Abbreviation sel := (JsObject.sel key_eqb).
Abbreviation tagged := (JsObject.tagged array_index).

Lemma get_sel (o : list (K * V)) (k : K) :
  get o k = option_map snd (hd_error (sel k o)).
Proof.
  induction o as [|[a v] o IH]; simpl; [reflexivity|].
  destruct (key_eqb a k); [reflexivity|exact IH].
Qed.

Lemma sel_cons (k : K) (e : K * V) (l : list (K * V)) :
  sel k (e :: l) = sel k [e] ++ sel k l.
Proof. unfold JsObject.sel. simpl. now destruct (key_eqb (fst e) k). Qed.

Lemma tagged_insert (n : N) (e : K * V) (acc : list (N * (K * V))) :
  array_index (fst e) = Some n -> tagged acc ->
  tagged (JsObject.insert_index n e acc).
Proof.
  intros He Hacc. induction Hacc as [|[m e'] acc Hm Hacc IH]; simpl.
  - repeat constructor. exact He.
  - destruct (n <=? m)%N; repeat constructor; assumption.
Qed.

Lemma tagged_index_entries (o : list (K * V)) :
  tagged (JsObject.index_entries array_index o).
Proof.
  induction o as [|e o IH]; simpl; [constructor|].
  destruct (array_index (fst e)) eqn:E; [|exact IH].
  now apply tagged_insert.
Qed.

(** Insertion keeps the properties of one key in their order. *)
Lemma sel_insert (k : K) (n : N) (e : K * V) (acc : list (N * (K * V))) :
  array_index (fst e) = Some n -> tagged acc ->
  sel k (map snd (JsObject.insert_index n e acc))
  = sel k [e] ++ sel k (map snd acc).
Proof.
  intros He Hacc. induction Hacc as [|[m e'] acc Hm Hacc IH].
  - unfold JsObject.sel. simpl. now rewrite app_nil_r.
  - simpl JsObject.insert_index.
    destruct (n <=? m)%N eqn:Hnm; [apply sel_cons|].
    apply N.leb_gt in Hnm. simpl in Hm. simpl map.
    rewrite (sel_cons k e' (map snd acc)), (sel_cons k e'), IH.
    unfold JsObject.sel. simpl filter.
    destruct (key_eqb (fst e') k) eqn:E1; [|reflexivity].
    destruct (key_eqb (fst e) k) eqn:E2; [|reflexivity].
    apply key_eqb_eq in E1, E2. rewrite <- E2 in E1. rewrite E1 in Hm.
    rewrite He in Hm. injection Hm as ->. lia.
Qed.

Lemma sel_index_entries (k : K) (o : list (K * V)) :
  sel k (map snd (JsObject.index_entries array_index o))
  = match array_index k with Some _ => sel k o | None => [] end.
Proof.
  induction o as [|e o IH]; simpl.
  - now destruct (array_index k).
  - destruct (array_index (fst e)) eqn:E.
    + rewrite (sel_insert k n e _ E (tagged_index_entries o)), IH.
      unfold JsObject.sel at 1. cbn [filter].
      destruct (key_eqb (fst e) k) eqn:Ek.
      * apply key_eqb_eq in Ek. rewrite <- Ek, E. reflexivity.
      * now destruct (array_index k).
    + rewrite IH. destruct (key_eqb (fst e) k) eqn:Ek.
      * apply key_eqb_eq in Ek. rewrite <- Ek, E. reflexivity.
      * reflexivity.
Qed.

Lemma sel_named (k : K) (o : list (K * V)) :
  sel k (filter (JsObject.is_named array_index) o)
  = match array_index k with Some _ => [] | None => sel k o end.
Proof.
  induction o as [|e o IH]; simpl.
  - now destruct (array_index k).
  - unfold JsObject.is_named at 1.
    destruct (array_index (fst e)) eqn:E; simpl.
    + rewrite IH. destruct (key_eqb (fst e) k) eqn:Ek; [|reflexivity].
      apply key_eqb_eq in Ek. rewrite <- Ek, E. reflexivity.
    + rewrite IH. destruct (key_eqb (fst e) k) eqn:Ek.
      * apply key_eqb_eq in Ek. rewrite <- Ek, E. reflexivity.
      * reflexivity.
Qed.

(** Enumeration does not change what a key holds. *)
Lemma get_entries (o : list (K * V)) (k : K) :
  get (entries o) k = get o k.
Proof.
  rewrite !get_sel. f_equal. f_equal.
  unfold JsObject.entries, sel. rewrite filter_app.
  fold (sel k (map snd (JsObject.index_entries array_index o))).
  fold (sel k (filter (JsObject.is_named array_index) o)).
  rewrite sel_index_entries, sel_named.
  destruct (array_index k); [apply app_nil_r|reflexivity].
Qed.

Lemma insert_index_perm (n : N) (e : K * V) (acc : list (N * (K * V))) :
  Permutation (JsObject.insert_index n e acc) ((n, e) :: acc).
Proof.
  induction acc as [|[m e'] acc IH]; simpl; [reflexivity|].
  destruct (n <=? m)%N; [reflexivity|].
  rewrite IH. apply perm_swap.
Qed.

(** Enumeration lists every property once. *)
Lemma entries_perm (o : list (K * V)) : Permutation (entries o) o.
Proof.
  unfold JsObject.entries.
  induction o as [|e o IH]; simpl; [reflexivity|].
  unfold JsObject.is_named at 1.
  destruct (array_index (fst e)) eqn:E.
  - rewrite insert_index_perm. simpl. now constructor.
  - rewrite <- Permutation_middle. now constructor.
Qed.

Lemma keys_entries_perm (o : list (K * V)) :
  Permutation (JsObject.keys (entries o)) (JsObject.keys o).
Proof. apply Permutation_map, entries_perm. Qed.

End EnumerationFacts.

(** ** Numbers: rounding, keys and the quotient by 60 *)

Section NumberFacts.

Lemma round_small (z : Z) : (Z.abs z < 2 ^ 53)%Z -> JsNumber.round z = z.
Proof.
  intros Hz. unfold JsNumber.round.
  assert (H : (Z.log2 (Z.abs z) - 52 <= 0)%Z).
  { destruct (Z.eq_dec (Z.abs z) 0) as [E|Hne]; [rewrite E; simpl; lia|].
    assert (Z.log2 (Z.abs z) < 53)%Z by (apply Z.log2_lt_pow2; lia). lia. }
  apply Z.leb_le in H. now rewrite H.
Qed.

Lemma digit_not_space (c : ascii) :
  JsNumber.is_digit c = true ->
  JsString.is_space c = false
  /\ Ascii.eqb c "-" = false /\ Ascii.eqb c "+" = false
  /\ Ascii.eqb c "x" = false /\ Ascii.eqb c "X" = false.
Proof.
  destruct c as [[] [] [] [] [] [] [] []]; vm_compute; intros H;
    try discriminate; repeat split.
Qed.

Lemma digits_first (d : Decimal.uint) :
  d <> Decimal.Nil ->
  exists c rest,
    DecimalString.NilEmpty.string_of_uint d = String c rest
    /\ JsNumber.is_digit c = true
    /\ match rest with
       | String x _ => JsNumber.is_digit x = true
       | EmptyString => True
       end.
Proof.
  intros Hd.
  destruct d as [|u|u|u|u|u|u|u|u|u|u]; [congruence|..];
    (eexists; eexists; split; [reflexivity|]; split; [reflexivity|];
     destruct u; simpl; auto).
Qed.

Lemma digit_prefix_digits (d : Decimal.uint) :
  JsNumber.digit_prefix (DecimalString.NilEmpty.string_of_uint d)
  = DecimalString.NilEmpty.string_of_uint d.
Proof.
  induction d; simpl DecimalString.NilEmpty.string_of_uint;
    [reflexivity|..];
    (cbn [JsNumber.digit_prefix];
     match goal with
     | |- (if JsNumber.is_digit ?c then _ else _) = _ =>
         change (JsNumber.is_digit c) with true
     end; cbv iota; now f_equal).
Qed.

(** The digits of a number are read as the number. *)
Lemma magnitude_digits (d : Decimal.uint) :
  d <> Decimal.Nil ->
  JsNumber.magnitude (DecimalString.NilEmpty.string_of_uint d)
  = Some (Z.of_uint d).
Proof.
  intros Hd.
  assert (Hv : JsNumber.decimal_value (DecimalString.NilEmpty.string_of_uint d)
               = Some (Z.of_uint d)).
  { unfold JsNumber.decimal_value. rewrite digit_prefix_digits.
    destruct (digits_first d Hd) as [c [rest [E _]]].
    rewrite E. rewrite <- E. now rewrite DecimalString.NilEmpty.usu. }
  destruct (digits_first d Hd) as [c [rest [E [Hc Hx]]]].
  rewrite E in *. unfold JsNumber.magnitude.
  destruct rest as [|x rest]; [exact Hv|].
  destruct (digit_not_space x Hx) as [_ [_ [_ [E1 E2]]]].
  rewrite E1, E2, andb_false_r. exact Hv.
Qed.

Lemma parseInt_decimal (z : Z) :
  JsNumber.parseInt (JsNumber.decimal z) = Some (JsNumber.round z).
Proof.
  unfold JsNumber.decimal.
  destruct z as [|p|p]; [reflexivity|..]; simpl Z.to_int;
    pose proof (DecimalPos.Unsigned.to_uint_nonnil p) as Hp;
    pose proof (DecimalZ.of_to (Zpos p)) as Hof; simpl in Hof.
  - simpl DecimalString.NilZero.string_of_int.
    assert (E : DecimalString.NilZero.string_of_uint (Pos.to_uint p)
                = DecimalString.NilEmpty.string_of_uint (Pos.to_uint p))
      by (destruct (Pos.to_uint p); [congruence|reflexivity..]).
    rewrite E.
    pose proof (magnitude_digits _ Hp) as Hm.
    destruct (digits_first _ Hp) as [c [rest [Es [Hc _]]]].
    rewrite Es in *.
    destruct (digit_not_space c Hc) as [Hs [Hminus [Hplus _]]].
    unfold JsNumber.parseInt. cbn [JsString.trimStart]. rewrite Hs.
    rewrite Hminus, Hplus. cbn [fst snd]. rewrite Hm. simpl option_map.
    now rewrite Hof.
  - simpl DecimalString.NilZero.string_of_int.
    assert (E : DecimalString.NilZero.string_of_uint (Pos.to_uint p)
                = DecimalString.NilEmpty.string_of_uint (Pos.to_uint p))
      by (destruct (Pos.to_uint p); [congruence|reflexivity..]).
    rewrite E.
    pose proof (magnitude_digits _ Hp) as Hm.
    unfold JsNumber.parseInt. cbn [JsString.trimStart].
    change (JsString.is_space "-") with false. cbv iota.
    change (Ascii.eqb "-" "-") with true. cbv iota. cbn [fst snd].
    rewrite Hm. simpl option_map. now rewrite Hof.
Qed.

Lemma candidate_positive (v unit c : Z) :
  (0 < v)%Z -> (0 <= unit)%Z ->
  JsNumber.candidate v unit = Some c -> (0 < c)%Z.
Proof.
  intros Hv Hu. unfold JsNumber.candidate.
  set (lo := (v / unit * unit)%Z). set (hi := (lo + unit)%Z).
  assert (Hlo : (0 <= lo)%Z).
  { unfold lo. destruct (Z.eq_dec unit 0) as [->|Hne]; [rewrite Z.mul_0_r; lia|].
    apply Z.mul_nonneg_nonneg; [apply Z.div_pos; lia|lia]. }
  assert (Hnz : forall x, (0 <= x)%Z -> (JsNumber.round x =? v)%Z = true -> (0 < x)%Z).
  { intros x Hx E. apply Z.eqb_eq in E.
    destruct (Z.eq_dec x 0) as [->|Hne]; [|lia].
    change (JsNumber.round 0) with 0%Z in E. lia. }
  destruct (JsNumber.round lo =? v)%Z eqn:E1, (JsNumber.round hi =? v)%Z eqn:E2;
    try discriminate.
  - intros [= <-].
    pose proof (Hnz lo Hlo E1). pose proof (Hnz hi ltac:(unfold hi; lia) E2).
    destruct (_ <? _)%Z; [assumption|].
    destruct (_ <? _)%Z; [assumption|].
    destruct (Z.even _); assumption.
  - intros [= <-]. now apply Hnz.
  - intros [= <-]. apply Hnz; [unfold hi; lia|assumption].
Qed.

Lemma shortest_positive (fuel : nat) (v unit : Z) :
  (0 < v)%Z -> (0 <= unit)%Z -> (0 < JsNumber.shortest fuel v unit)%Z.
Proof.
  intros Hv. revert unit. induction fuel as [|fuel IH]; intros unit Hu; simpl;
    [assumption|].
  destruct (JsNumber.candidate v unit) as [c|] eqn:E.
  - now apply (candidate_positive v unit).
  - apply IH. apply Z.div_pos; lia.
Qed.

Lemma strip_zeros_first (c : ascii) (s : string) :
  JsNumber.strip_zeros (String c s) <> "" ->
  exists t, JsNumber.strip_zeros (String c s) = String c t.
Proof.
  cbn [JsNumber.strip_zeros].
  destruct (JsNumber.strip_zeros s) as [|x t].
  - destruct (Ascii.eqb c "0"); [congruence|eauto].
  - eauto.
Qed.

Lemma strip_zeros_digits (d : Decimal.uint) :
  JsNumber.strip_zeros (DecimalString.NilEmpty.string_of_uint d) = "" ->
  Pos.of_uint d = 0%N.
Proof.
  induction d; simpl DecimalString.NilEmpty.string_of_uint;
    cbn [JsNumber.strip_zeros]; try reflexivity;
    destruct (JsNumber.strip_zeros _) eqn:E; try discriminate;
    try (match goal with
         | |- (if Ascii.eqb ?c "0" then _ else _) = _ -> _ =>
             change (Ascii.eqb c "0") with false; discriminate
         end).
  change (Ascii.eqb "0" "0") with true. intros _. simpl. now apply IHd.
Qed.

Lemma uint_of_digits (s : string) :
  exists d,
    DecimalString.NilEmpty.uint_of_string (JsNumber.digit_prefix s) = Some d.
Proof.
  induction s as [|c s [d IH]]; [now exists Decimal.Nil|].
  cbn [JsNumber.digit_prefix].
  destruct (JsNumber.is_digit c) eqn:Hc; [|now exists Decimal.Nil].
  cbn [DecimalString.NilEmpty.uint_of_string]. rewrite IH.
  destruct c as [[] [] [] [] [] [] [] []]; try discriminate; simpl; eauto.
Qed.

(** A number in exponent form is read as its first digit. *)
Lemma parseInt_first_digit (c x : ascii) (tail : string) (negative : bool) :
  JsNumber.is_digit c = true ->
  Ascii.eqb x "x" = false -> Ascii.eqb x "X" = false ->
  exists i,
    JsNumber.parseInt
      (if negative then String "-" (String c (String x tail))
       else String c (String x tail))
    = Some i.
Proof.
  intros Hc H1 H2.
  destruct (digit_not_space c Hc) as [Hs [Hminus [Hplus _]]].
  assert (Hm : exists v, JsNumber.magnitude (String c (String x tail)) = Some v).
  { unfold JsNumber.magnitude. rewrite H1, H2, andb_false_r.
    unfold JsNumber.decimal_value. cbn [JsNumber.digit_prefix]. rewrite Hc.
    destruct (uint_of_digits (String c (String x tail))) as [d Hd].
    cbn [JsNumber.digit_prefix] in Hd. rewrite Hc in Hd. rewrite Hd.
    simpl. eauto. }
  destruct Hm as [v Hm]. unfold JsNumber.parseInt.
  destruct negative; cbn [JsString.trimStart].
  - change (JsString.is_space "-") with false. cbv iota.
    change (Ascii.eqb "-" "-") with true. cbv iota. cbn [fst snd].
    rewrite Hm. simpl. eauto.
  - rewrite Hs, Hminus, Hplus. cbn [fst snd]. rewrite Hm. simpl. eauto.
Qed.

Lemma exponential_form (a : Z) :
  (0 < a)%Z ->
  exists c x tail,
    JsNumber.exponential a = String c (String x tail)
    /\ JsNumber.is_digit c = true
    /\ Ascii.eqb x "x" = false /\ Ascii.eqb x "X" = false.
Proof.
  intros Ha. unfold JsNumber.exponential.
  set (v := JsNumber.shortest _ a _).
  assert (Hv : (0 < v)%Z)
    by (apply shortest_positive; [assumption|apply Z.pow_nonneg; lia]).
  unfold JsNumber.decimal at 1.
  destruct v as [|p|p]; try lia. simpl Z.to_int.
  simpl DecimalString.NilZero.string_of_int.
  pose proof (DecimalPos.Unsigned.to_uint_nonnil p) as Hp.
  pose proof (DecimalPos.Unsigned.of_to p) as Hof.
  assert (E : DecimalString.NilZero.string_of_uint (Pos.to_uint p)
              = DecimalString.NilEmpty.string_of_uint (Pos.to_uint p))
    by (destruct (Pos.to_uint p); [congruence|reflexivity..]).
  rewrite E.
  destruct (digits_first _ Hp) as [c [rest [Es [Hc _]]]].
  assert (Hne : JsNumber.strip_zeros
                  (DecimalString.NilEmpty.string_of_uint (Pos.to_uint p)) <> "").
  { intros Hz. apply strip_zeros_digits in Hz. congruence. }
  rewrite Es in *. destruct (strip_zeros_first c rest Hne) as [t Et].
  rewrite Et.
  destruct t as [|y t]; simpl; eexists; eexists; eexists;
    (split; [reflexivity|]); (split; [exact Hc|]); split; reflexivity.
Qed.

(** The key of a number is never read as [NaN]. *)
Lemma parseInt_key_defined (k : Z) :
  JsNumber.parseInt (JsNumber.toString k) = Some (QuizScreen.parseInt_key k).
Proof.
  assert (H : exists i, JsNumber.parseInt (JsNumber.toString k) = Some i).
  { unfold JsNumber.toString.
    destruct (Z.abs k <? 10 ^ 21)%Z eqn:Hlt;
      [rewrite parseInt_decimal; eauto|].
    apply Z.ltb_ge in Hlt.
    assert (Hbig : (0 < 10 ^ 21)%Z) by reflexivity.
    destruct (Z.ltb_spec k 0) as [Hneg|Hpos].
    - destruct (exponential_form (- k) ltac:(lia)) as [c [x [tail [E [Hc [H1 H2]]]]]].
      rewrite E.
      exact (parseInt_first_digit c x tail true Hc H1 H2).
    - destruct (exponential_form k ltac:(lia)) as [c [x [tail [E [Hc [H1 H2]]]]]].
      rewrite E.
      exact (parseInt_first_digit c x tail false Hc H1 H2). }
  destruct H as [i Hi]. unfold QuizScreen.parseInt_key. now rewrite Hi.
Qed.

(** The key of a plain identity is read back as the identity. *)
Lemma parseInt_key_plain (k : Z) :
  Spec.plain_id k = true -> QuizScreen.parseInt_key k = k.
Proof.
  unfold Spec.plain_id. intros H. apply andb_prop in H as [Hlt Hr].
  apply Z.eqb_eq in Hr.
  unfold QuizScreen.parseInt_key, JsNumber.toString. rewrite Hlt.
  now rewrite parseInt_decimal, Hr.
Qed.

Lemma plain_id_small (k : Z) :
  (Z.abs k < 2 ^ 53)%Z -> Spec.plain_id k = true.
Proof.
  intros H. unfold Spec.plain_id. rewrite (round_small k H), Z.eqb_refl.
  rewrite andb_true_r. apply Z.ltb_lt.
  eapply Z.lt_trans; [exact H|]. reflexivity.
Qed.

(** Below 2^53 the quotient by 60 is rounded so little that its integer part
    is the exact one. *)
Lemma nearest_bounds (n d : Z) :
  (0 < d)%Z -> (0 <= n)%Z ->
  (JsNumber.nearest n d = n / d
   \/ (JsNumber.nearest n d = n / d + 1 /\ d <= 2 * (n mod d)))%Z.
Proof.
  intros Hd Hn. unfold JsNumber.nearest.
  destruct (d <? 2 * (n mod d))%Z eqn:E1; cbn [orb andb].
  - right. apply Z.ltb_lt in E1. split; [reflexivity|lia].
  - destruct (2 * (n mod d) =? d)%Z eqn:E2; cbn [orb andb]; [|now left].
    destruct (Z.odd (n / d)); [|now left].
    right. apply Z.eqb_eq in E2. split; [reflexivity|lia].
Qed.

Lemma floor_div_60 (s : Z) :
  (0 <= s < 2 ^ 53)%Z -> JsNumber.floor_div s 60 = (s / 60)%Z.
Proof.
  intros Hs. unfold JsNumber.floor_div.
  replace (0 <=? s)%Z with true by (symmetry; apply Z.leb_le; lia).
  unfold JsNumber.quotient.
  pose proof (Z.div_mod s 60 ltac:(lia)) as Hdm.
  pose proof (Z.mod_pos_bound s 60 ltac:(lia)) as Hmod.
  set (q0 := (s / 60)%Z) in *. set (r0 := (s mod 60)%Z) in *.
  destruct (Z.eqb_spec q0 0) as [E0|Hq0].
  - destruct (Z.eqb_spec s 0) as [->|Hs0]; [reflexivity|].
    set (k := (Z.log2_up ((60 + s - 1) / s) + 52)%Z).
    assert (Hk : (52 <= k)%Z) by (unfold k; pose proof (Z.log2_up_nonneg ((60 + s - 1) / s)); lia).
    assert (Hp : (2 ^ 52 <= 2 ^ k)%Z) by (apply Z.pow_le_mono_r; lia).
    assert (Hpk : (0 < 2 ^ k)%Z) by lia.
    set (P := (2 ^ k)%Z) in *.
    assert (Hs59 : (s <= 59)%Z) by lia.
    pose proof (Z.div_mod (s * P) 60 ltac:(lia)) as Hdm2.
    pose proof (Z.mod_pos_bound (s * P) 60 ltac:(lia)) as Hmod2.
    destruct (nearest_bounds (s * P) 60 ltac:(lia) ltac:(nia)) as [E|[E Hup]];
      rewrite E, E0.
    + apply Z.div_small. split; [apply Z.div_pos; nia|].
      apply Z.div_lt_upper_bound; nia.
    + apply Z.div_small. split; [pose proof (Z.div_pos (s * P) 60); nia|].
      assert (s * P / 60 + 1 < P)%Z; [|lia].
      assert (60 * (s * P / 60) <= 59 * P - 30)%Z by nia.
      assert (P >= 64)%Z by (change (2 ^ 52)%Z with 4503599627370496%Z in Hp; lia).
      lia.
  - assert (Hq0pos : (0 < q0)%Z).
    { assert (0 <= q0)%Z by (apply Z.div_pos; lia). lia. }
    assert (Hq0lt : (q0 < 2 ^ 48)%Z).
    { apply Z.div_lt_upper_bound; [lia|].
      change (2 ^ 53)%Z with 9007199254740992%Z in Hs.
      change (2 ^ 48)%Z with 281474976710656%Z. lia. }
    assert (Hlog : (Z.log2 q0 < 48)%Z) by (apply Z.log2_lt_pow2; lia).
    pose proof (Z.log2_nonneg q0) as Hlog0.
    set (e := (Z.log2 q0 - 52)%Z).
    assert (He : (e <= -5)%Z) by (unfold e; lia).
    replace (0 <=? e)%Z with false by (symmetry; apply Z.leb_gt; lia).
    assert (Hk : (5 <= - e)%Z) by lia.
    assert (Hp : (2 ^ 5 <= 2 ^ (- e))%Z) by (apply Z.pow_le_mono_r; lia).
    change (2 ^ 5)%Z with 32%Z in Hp.
    set (P := (2 ^ (- e))%Z) in *.
    pose proof (Z.div_mod (s * P) 60 ltac:(lia)) as Hdm2.
    pose proof (Z.mod_pos_bound (s * P) 60 ltac:(lia)) as Hmod2.
    set (q := (s * P / 60)%Z) in *. set (r := ((s * P) mod 60)%Z) in *.
    assert (HsP : (s * P = 60 * (q0 * P) + r0 * P)%Z) by nia.
    assert (Hr0P : (0 <= r0 * P <= 59 * P)%Z) by nia.
    symmetry. apply Z.div_unique_pos with (r := (JsNumber.nearest (s * P) 60 - q0 * P)%Z).
    + destruct (nearest_bounds (s * P) 60 ltac:(lia) ltac:(nia)) as [E|[E Hup]];
        rewrite E; fold q; [|fold r in Hup]; lia.
    + lia.
Qed.

End NumberFacts.

(** ** Arrays: writes by index, swaps, the shuffle and the sorts *)

Section ArrayFacts.

Context {A : Type}.

Lemma length_set_nth (l : list A) (i : nat) (x : A) :
  List.length (geminiService.set_nth l i x) = List.length l.
Proof.
  revert i; induction l as [|h l IH]; intros [|i]; simpl; auto.
Qed.

Lemma nth_error_set_nth (l : list A) (i n : nat) (x : A) :
  i < List.length l ->
  nth_error (geminiService.set_nth l i x) n
  = if (n =? i)%nat then Some x else nth_error l n.
Proof.
  revert i n; induction l as [|h l IH]; intros i n Hi; simpl in Hi; [lia|].
  destruct i as [|i], n as [|n]; simpl; try reflexivity.
  apply IH. lia.
Qed.

(** The exchange of two positions inside a list is a permutation of it. *)
Lemma swap_perm (l : list A) (i j : nat) :
  Permutation l (geminiService.swap l i j).
Proof.
  unfold geminiService.swap.
  destruct (nth_error l i) as [a|] eqn:Ei; [|reflexivity].
  destruct (nth_error l j) as [b|] eqn:Ej; [|reflexivity].
  assert (Hi : i < List.length l) by (apply nth_error_Some; congruence).
  assert (Hj : j < List.length l) by (apply nth_error_Some; congruence).
  apply Permutation_nth_error. split.
  - now rewrite !length_set_nth.
  - exists (fun n => if (n =? j)%nat then i else if (n =? i)%nat then j else n).
    split.
    + intros x y.
      destruct (Nat.eqb_spec x j), (Nat.eqb_spec x i),
        (Nat.eqb_spec y j), (Nat.eqb_spec y i); lia.
    + intros n.
      rewrite nth_error_set_nth by (now rewrite length_set_nth).
      destruct (Nat.eqb_spec n j) as [->|Hnj]; [now rewrite Ei|].
      rewrite nth_error_set_nth by assumption.
      destruct (Nat.eqb_spec n i) as [->|Hni]; [now rewrite Ej|reflexivity].
Qed.

(** The index drawn for position [i] lies in [0 .. i]. *)
Lemma floor_times_lt (t : Random.Tape) (k : nat) :
  0 < k -> Random.floor_times t k < k.
Proof.
  intros Hk. unfold Random.floor_times.
  assert (Hn : (Random.numerator t < Random.two53)%N).
  { unfold Random.numerator. apply N.mod_lt. discriminate. }
  assert (H : (Random.numerator t * N.of_nat k / Random.two53 < N.of_nat k)%N).
  { apply N.Div0.div_lt_upper_bound. nia. }
  lia.
Qed.

Lemma shuffle_loop_perm (i : nat) (l : list A) (r : Random.Tape) :
  Permutation l (fst (geminiService.shuffle_loop i l r)).
Proof.
  revert l r; induction i as [|i IH]; intros l r; simpl; [reflexivity|].
  etransitivity; [apply (swap_perm l (S i))|apply IH].
Qed.

(** [shuffleArray] returns a permutation of its argument, whatever the
    draws. *)
Lemma shuffleArray_perm (l : list A) (r : Random.Tape) :
  Permutation l (fst (geminiService.shuffleArray l r)).
Proof. apply shuffle_loop_perm. Qed.

End ArrayFacts.

Section SequencingFacts.

(** V8's sort returns a permutation, whatever the draws. *)
Lemma binary_insertion_perm (rest sorted : list string) (r : Random.Tape) :
  Permutation (sorted ++ rest) (fst (Engine.binary_insertion sorted rest r)).
Proof.
  revert sorted r. induction rest as [|pivot rest IH]; intros sorted r.
  - simpl. now rewrite app_nil_r.
  - cbn [Engine.binary_insertion].
    destruct (Engine.search _ 0 _ r) as [left r'].
    etransitivity; [|apply IH].
    apply Permutation_trans with (pivot :: sorted ++ rest);
      [symmetry; apply Permutation_middle|].
    rewrite app_comm_cons. apply Permutation_app_tail.
    rewrite <- (firstn_skipn left sorted) at 1. apply Permutation_middle.
Qed.

Lemma v8_permutes : Engine.permutes Engine.v8.
Proof.
  intros items r. unfold Engine.v8.
  destruct items as [|a [|b rest]]; try reflexivity.
  destruct (Engine.count_run _ rest _) as [n r'].
  set (items := a :: b :: rest).
  etransitivity; [|apply binary_insertion_perm].
  rewrite <- (firstn_skipn (2 + n) items) at 1.
  apply Permutation_app_tail.
  destruct (Engine.negative r); [apply Permutation_rev|reflexivity].
Qed.

Lemma put_at_inside (items : list string) (i : nat) (x : string) :
  i < List.length items ->
  QuizScreen.put_at items i x = geminiService.set_nth items i x.
Proof.
  intros Hi. unfold QuizScreen.put_at.
  apply Nat.ltb_lt in Hi. now rewrite Hi.
Qed.

Lemma item_at_inside (items : list string) (i : nat) :
  i < List.length items ->
  nth_error items i = Some (QuizScreen.item_at items i).
Proof. intros Hi. now apply nth_error_nth'. Qed.

(** Inside the list, [moveItem] exchanges the item with its neighbour, or
    leaves the list alone at the boundary. *)
Lemma moveItem_inside (items : list string) (index : nat)
  (direction : QuizScreen.Direction) :
  index < List.length items ->
  QuizScreen.moveItem items index direction
  = match direction with
    | QuizScreen.up =>
        if (index =? 0)%nat then items
        else geminiService.swap items index (index - 1)
    | QuizScreen.down =>
        if (index =? List.length items - 1)%nat then items
        else geminiService.swap items index (index + 1)
    end.
Proof.
  intros Hi. unfold QuizScreen.moveItem, geminiService.swap.
  destruct direction.
  - destruct (Nat.eqb_spec index 0) as [->|Hne]; [reflexivity|].
    replace (0 <? index)%nat with true by (symmetry; apply Nat.ltb_lt; lia).
    rewrite (item_at_inside items index Hi).
    rewrite (item_at_inside items (index - 1)) by lia.
    rewrite (put_at_inside items index) by assumption.
    rewrite put_at_inside by (rewrite length_set_nth; lia).
    reflexivity.
  - destruct (Nat.eqb_spec index (List.length items - 1)) as [E|Hne].
    + replace (Z.of_nat index <? Z.of_nat (List.length items) - 1)%Z with false
        by (symmetry; apply Z.ltb_ge; lia).
      reflexivity.
    + replace (Z.of_nat index <? Z.of_nat (List.length items) - 1)%Z with true
        by (symmetry; apply Z.ltb_lt; lia).
      rewrite (item_at_inside items index Hi).
      rewrite (item_at_inside items (index + 1)) by lia.
      rewrite (put_at_inside items index) by assumption.
      rewrite put_at_inside by (rewrite length_set_nth; lia).
      reflexivity.
Qed.

Lemma moveItem_perm (items : list string) (index : nat)
  (direction : QuizScreen.Direction) :
  index < List.length items ->
  Permutation items (QuizScreen.moveItem items index direction).
Proof.
  intros Hi. rewrite moveItem_inside by assumption.
  destruct direction.
  - destruct (index =? 0)%nat; [reflexivity|apply swap_perm].
  - destruct (index =? _)%nat; [reflexivity|apply swap_perm].
Qed.

End SequencingFacts.

(** ** The session: finalization *)

Section FinalizationFacts.

Variable questions : list Question.

Abbreviation fill := Spec.fill.

Lemma existsb_answered (acc : list UserAnswer) (i : Z) :
  existsb (fun a => (questionId a =? i)%Z) acc = true
  <-> In i (Spec.answered_ids acc).
Proof.
  unfold Spec.answered_ids. rewrite existsb_exists, in_map_iff. split.
  - intros [a [Ha E]]. apply Z.eqb_eq in E. now exists a.
  - intros [a [E Ha]]. exists a. split; [assumption|now apply Z.eqb_eq].
Qed.

Lemma fill_ids (qs : list Question) (acc : list UserAnswer) (i : Z) :
  In i (Spec.answered_ids (fill acc qs))
  <-> In i (Spec.answered_ids acc) \/ In i (Spec.ids qs).
Proof.
  revert acc; induction qs as [|q' qs IH]; intros acc; simpl.
  - tauto.
  - unfold Spec.fill in *. simpl. rewrite IH.
    destruct (existsb _ acc) eqn:E.
    + apply existsb_answered in E. split; [tauto|].
      intros [H|[<-|H]]; auto.
    + unfold Spec.answered_ids. rewrite map_app, in_app_iff. simpl. tauto.
Qed.

Lemma fill_NoDup (qs : list Question) (acc : list UserAnswer) :
  NoDup (Spec.answered_ids acc) -> NoDup (Spec.answered_ids (fill acc qs)).
Proof.
  revert acc; induction qs as [|q' qs IH]; intros acc Hnd; simpl; [assumption|].
  unfold Spec.fill in *. simpl. apply IH.
  destruct (existsb _ acc) eqn:E; [assumption|].
  unfold Spec.answered_ids. rewrite map_app. simpl.
  apply NoDup_app; [assumption|repeat constructor; intros []|].
  intros x Hx [<-|[]].
  apply existsb_answered in Hx. congruence.
Qed.

(** An entry of the result was there before the loop, or is blank and new. *)
Lemma fill_In (qs : list Question) (acc : list UserAnswer) (a : UserAnswer) :
  In a (fill acc qs) ->
  In a acc \/ (answer a = "" /\ ~ In (questionId a) (Spec.answered_ids acc)).
Proof.
  revert acc; induction qs as [|q' qs IH]; intros acc H; simpl in H; [auto|].
  unfold Spec.fill in *. simpl in H. apply IH in H.
  destruct (existsb _ acc) eqn:E; [assumption|].
  assert (Hno : ~ In (id q') (Spec.answered_ids acc)).
  { intros Hin. apply existsb_answered in Hin. congruence. }
  unfold Spec.answered_ids in *. rewrite map_app, in_app_iff in H. simpl in H.
  rewrite in_app_iff in H. simpl in H.
  destruct H as [[H|[<-|[]]]|[Hb Hn]]; simpl; auto.
  right. split; [assumption|]. intros Hin. apply Hn. auto.
Qed.

Lemma answered_ids_entries (o : list (Z * string)) :
  Spec.answered_ids
    (map (fun e => {| questionId := fst e; answer := snd e |}) o)
  = JsObject.keys o.
Proof.
  unfold Spec.answered_ids, JsObject.keys. rewrite map_map. reflexivity.
Qed.

Lemma currentQuestion_In (st : QuizScreen.State) (q : Question) :
  QuizScreen.currentQuestion questions st = Some q -> In q questions.
Proof. apply nth_error_In. Qed.

(** The key set of the map the finalization builds. *)
Lemma final_keys (q : Question) (st : QuizScreen.State) (v : string) :
  let final :=
    QuizScreen.answers_entries
      (QuizScreen.answers_set
         (QuizScreen.answers_spread (QuizScreen.answers st)) (id q) v) in
  NoDup (JsObject.keys (QuizScreen.answers st)) ->
  NoDup (JsObject.keys final)
  /\ forall i, In i (JsObject.keys final)
               <-> i = id q \/ In i (JsObject.keys (QuizScreen.answers st)).
Proof.
  intros final Hnd. unfold final, QuizScreen.answers_entries,
    QuizScreen.answers_set, QuizScreen.answers_spread, JsObject.spread.
  split.
  - eapply Permutation_NoDup;
      [symmetry; apply keys_entries_perm|].
    apply (NoDup_keys_set Z.eqb Z.eqb_eq).
    eapply Permutation_NoDup; [symmetry; apply keys_entries_perm|assumption].
  - intros i. split.
    + intros H. eapply Permutation_in in H; [|apply keys_entries_perm].
      apply (In_keys_set Z.eqb Z.eqb_eq) in H. destruct H as [H|H]; [auto|].
      right. eapply Permutation_in; [apply keys_entries_perm|exact H].
    + intros H. eapply Permutation_in; [symmetry; apply keys_entries_perm|].
      apply (In_keys_set Z.eqb Z.eqb_eq). destruct H as [H|H]; [auto|].
      right. eapply Permutation_in; [symmetry; apply keys_entries_perm|exact H].
Qed.

Lemma final_keys_In (q : Question) (st : QuizScreen.State) (v : string) (i : Z) :
  In i (JsObject.keys
          (QuizScreen.answers_entries
             (QuizScreen.answers_set
                (QuizScreen.answers_spread (QuizScreen.answers st)) (id q) v))) ->
  i = id q \/ In i (JsObject.keys (QuizScreen.answers st)).
Proof.
  unfold QuizScreen.answers_entries, QuizScreen.answers_set,
    QuizScreen.answers_spread, JsObject.spread.
  intros H. eapply Permutation_in in H; [|apply keys_entries_perm].
  apply (In_keys_set Z.eqb Z.eqb_eq) in H. destruct H as [H|H]; [auto|].
  right. eapply Permutation_in; [apply keys_entries_perm|exact H].
Qed.

(** With plain identities every key of the final map is read back as the
    identity it was written under, and finalization is the fill of the
    entries of that map. *)
Lemma getFormattedAnswers_fill (q : Question) (st : QuizScreen.State) :
  Spec.plain_ids questions ->
  incl (JsObject.keys (QuizScreen.answers st)) (Spec.ids questions) ->
  In q questions ->
  QuizScreen.getFormattedAnswers questions q st
  = fill (map (fun e => {| questionId := fst e; answer := snd e |})
            (QuizScreen.answers_entries
               (QuizScreen.answers_set
                  (QuizScreen.answers_spread (QuizScreen.answers st))
                  (id q) (Spec.current_answer q st))))
      questions.
Proof.
  intros Hplain Hincl Hq.
  assert (E : QuizScreen.getFormattedAnswers questions q st
              = fill (map (fun e => {| questionId := QuizScreen.parseInt_key (fst e);
                                       answer := snd e |})
                        (QuizScreen.answers_entries
                           (QuizScreen.answers_set
                              (QuizScreen.answers_spread (QuizScreen.answers st))
                              (id q) (Spec.current_answer q st))))
                  questions).
  { unfold QuizScreen.getFormattedAnswers, Spec.fill, Spec.current_answer,
      Spec.separator. now destruct (type q). }
  rewrite E. f_equal. apply map_ext_in. intros [k v] Hin. simpl. f_equal.
  apply parseInt_key_plain.
  assert (Hk : In k (JsObject.keys
                       (QuizScreen.answers_entries
                          (QuizScreen.answers_set
                             (QuizScreen.answers_spread (QuizScreen.answers st))
                             (id q) (Spec.current_answer q st)))))
    by (unfold JsObject.keys; apply in_map_iff; now exists (k, v)).
  apply final_keys_In in Hk. destruct Hk as [->|Hk]; [now apply Hplain|].
  apply Hincl in Hk. unfold Spec.ids in Hk.
  apply in_map_iff in Hk as [q' [<- Hq']]. now apply Hplain.
Qed.

(** Finalization gives one answer per question identity. *)
Lemma getFormattedAnswers_identities (q : Question) (st : QuizScreen.State) :
  Spec.plain_ids questions ->
  NoDup (JsObject.keys (QuizScreen.answers st)) ->
  incl (JsObject.keys (QuizScreen.answers st)) (Spec.ids questions) ->
  In q questions ->
  Spec.one_answer_per_identity questions
    (QuizScreen.getFormattedAnswers questions q st).
Proof.
  intros Hplain Hnd Hincl Hq. rewrite getFormattedAnswers_fill by assumption.
  destruct (final_keys q st (Spec.current_answer q st) Hnd) as [Hnd' Hkeys].
  split.
  - apply fill_NoDup. now rewrite answered_ids_entries.
  - intros i. rewrite fill_ids, answered_ids_entries, Hkeys. split.
    + intros [[->|H]|H]; [|auto|assumption].
      unfold Spec.ids. now apply in_map.
    + auto.
Qed.

(** What finalization answers for each identity: the encoded state of the
    current question, and for any other question what the answer map holds,
    [""] when it holds nothing. *)
Lemma getFormattedAnswers_answer (q : Question) (st : QuizScreen.State)
  (a : UserAnswer) :
  Spec.plain_ids questions ->
  incl (JsObject.keys (QuizScreen.answers st)) (Spec.ids questions) ->
  In q questions ->
  NoDup (JsObject.keys (QuizScreen.answers st)) ->
  In a (QuizScreen.getFormattedAnswers questions q st) ->
  answer a
  = if (questionId a =? id q)%Z then Spec.current_answer q st
    else geminiService.opt_string
           (QuizScreen.answers_get (QuizScreen.answers st) (questionId a)).
Proof.
  intros Hplain Hincl Hq Hnd Hin.
  rewrite getFormattedAnswers_fill in Hin by assumption.
  destruct (final_keys q st (Spec.current_answer q st) Hnd) as [Hnd' Hkeys].
  apply fill_In in Hin. rewrite answered_ids_entries in Hin.
  destruct Hin as [Hin|[Hblank Hnew]].
  - apply in_map_iff in Hin as [[k v] [<- Hin]]. simpl.
    apply (In_get Z.eqb Z.eqb_eq) in Hin; [|exact Hnd'].
    unfold QuizScreen.answers_entries in Hin.
    rewrite (get_entries Z.eqb JsObject.number_index Z.eqb_eq) in Hin.
    unfold QuizScreen.answers_set, QuizScreen.answers_spread, JsObject.spread in Hin.
    destruct (Z.eqb_spec k (id q)) as [->|Hne].
    + rewrite (get_set_same Z.eqb Z.eqb_eq) in Hin. congruence.
    + rewrite (get_set_other Z.eqb Z.eqb_eq) in Hin by assumption.
      rewrite (get_entries Z.eqb JsObject.number_index Z.eqb_eq) in Hin.
      unfold QuizScreen.answers_get. now rewrite Hin.
  - rewrite Hblank. rewrite Hkeys in Hnew.
    destruct (Z.eqb_spec (questionId a) (id q)) as [E|Hne]; [tauto|].
    unfold QuizScreen.answers_get.
    rewrite (get_not_key Z.eqb Z.eqb_eq); [reflexivity|tauto].
Qed.

(** With pairwise distinct identities, one answer per identity is as many
    answers as questions. *)
Lemma one_answer_per_identity_length (out : list UserAnswer) :
  NoDup (Spec.ids questions) ->
  Spec.one_answer_per_identity questions out ->
  List.length out = List.length questions.
Proof.
  intros Hq [Hnd Hiff].
  assert (P : Permutation (Spec.answered_ids out) (Spec.ids questions))
    by (apply NoDup_Permutation; assumption).
  apply Permutation_length in P.
  unfold Spec.answered_ids, Spec.ids in P. now rewrite !length_map in P.
Qed.

End FinalizationFacts.

(** ** The session: what every reachable state satisfies *)

Section SessionFacts.

Variable sort_random : Engine.RandomSort.
Variable questions : list Question.
Variable timeLimit : Z.

Abbreviation currentQuestion := (QuizScreen.currentQuestion questions).


(** *** The answer map and the index, whatever the engine and the
    identities *)

Abbreviation answers_ok := (Spec.answers_ok questions).

Lemma answers_ok_ext (st st' : QuizScreen.State) :
  QuizScreen.answers st' = QuizScreen.answers st ->
  QuizScreen.currentIdx st' = QuizScreen.currentIdx st ->
  answers_ok st -> answers_ok st'.
Proof.
  intros Ea Ei. unfold Spec.answers_ok. now rewrite Ea, Ei.
Qed.

Lemma answers_ok_set_answer (st : QuizScreen.State) (q : Question) (v : string) :
  In q questions -> answers_ok st -> answers_ok (QuizScreen.handleAnswer q st v).
Proof.
  intros Hq [Hnd [Hincl Hidx]].
  unfold Spec.answers_ok, QuizScreen.handleAnswer. simpl.
  unfold QuizScreen.answers_set, QuizScreen.answers_spread, JsObject.spread.
  assert (Hnd' : NoDup (JsObject.keys
                          (JsObject.entries JsObject.number_index
                             (QuizScreen.answers st)))).
  { eapply Permutation_NoDup; [symmetry; apply keys_entries_perm|assumption]. }
  split; [|split; [|assumption]].
  - now apply (NoDup_keys_set Z.eqb Z.eqb_eq).
  - intros i Hi. apply (In_keys_set Z.eqb Z.eqb_eq) in Hi.
    destruct Hi as [->|Hi].
    + unfold Spec.ids. now apply in_map.
    + apply Hincl. eapply Permutation_in; [apply keys_entries_perm|exact Hi].
Qed.

Lemma answers_ok_saveComplexAnswer (st : QuizScreen.State) (q : Question) :
  In q questions -> answers_ok st -> answers_ok (QuizScreen.saveComplexAnswer q st).
Proof.
  intros Hq Hok. unfold QuizScreen.saveComplexAnswer.
  destruct (type q); try assumption; now apply answers_ok_set_answer.
Qed.

(** The initialization effect leaves the answer map, the index and the
    submissions alone. *)
Lemma init_effect_frame (q : Question) (st : QuizScreen.State) :
  QuizScreen.answers (QuizScreen.init_effect sort_random q st) = QuizScreen.answers st
  /\ QuizScreen.currentIdx (QuizScreen.init_effect sort_random q st) = QuizScreen.currentIdx st
  /\ QuizScreen.submitted (QuizScreen.init_effect sort_random q st) = QuizScreen.submitted st
  /\ QuizScreen.timeLeft (QuizScreen.init_effect sort_random q st) = QuizScreen.timeLeft st
  /\ QuizScreen.interval (QuizScreen.init_effect sort_random q st) = QuizScreen.interval st.
Proof.
  unfold QuizScreen.init_effect.
  destruct (type q), (sequencingItems q) as [items|];
    try destruct (sort_random items (QuizScreen.rnd st));
    simpl; auto.
Qed.

Lemma answers_ok_go_to (st st' : QuizScreen.State) (i : nat) :
  answers_ok st -> QuizScreen.go_to sort_random questions st i = Some st' ->
  answers_ok st'.
Proof.
  intros Hok. unfold QuizScreen.go_to.
  destruct (i =? QuizScreen.currentIdx st)%nat; [now intros [= <-]|].
  destruct (QuizScreen.currentQuestion questions (QuizScreen.setCurrentIdx st i))
    as [q|] eqn:Hq; [|discriminate].
  intros [= <-]. destruct Hok as [Hnd [Hincl Hidx]].
  destruct (init_effect_frame q (QuizScreen.setCurrentIdx st i)) as [Ea [Ei _]].
  unfold Spec.answers_ok. rewrite Ea, Ei.
  split; [assumption|split; [assumption|]].
  simpl. apply nth_error_Some. unfold QuizScreen.currentQuestion in Hq.
  simpl in Hq. congruence.
Qed.

Lemma answers_ok_watch_effect (st st' : QuizScreen.State) :
  answers_ok st -> QuizScreen.watch_effect questions timeLimit st = Some st' ->
  answers_ok st'.
Proof.
  intros Hok. unfold QuizScreen.watch_effect.
  destruct (_ && _)%bool; [|now intros [= <-]].
  destruct (QuizScreen.currentQuestion questions st) as [q|]; [|discriminate].
  now intros [= <-].
Qed.

Lemma answers_ok_mount (r : Random.Tape) (st : QuizScreen.State) :
  QuizScreen.mount sort_random questions timeLimit r = Some st -> answers_ok st.
Proof.
  unfold QuizScreen.mount.
  match goal with
  | |- context [QuizScreen.currentQuestion questions ?s] => set (st0 := s)
  end.
  destruct (QuizScreen.currentQuestion questions st0) as [q|] eqn:Hq;
    [|discriminate].
  intros H. apply answers_ok_watch_effect in H; [assumption|].
  destruct (init_effect_frame q st0) as [Ea [Ei _]].
  unfold Spec.answers_ok. rewrite Ea, Ei.
  split; [constructor|split; [intros i []|]].
  apply nth_error_Some. unfold QuizScreen.currentQuestion in Hq. congruence.
Qed.

Lemma answers_ok_tick (st st' : QuizScreen.State) :
  answers_ok st -> QuizScreen.tick questions timeLimit st = Some st' ->
  answers_ok st'.
Proof.
  intros Hok. unfold QuizScreen.tick.
  set (s := if (QuizScreen.timeLeft st <=? 1)%Z
            then QuizScreen.setTimeLeft st 0 false
            else QuizScreen.setTimeLeft st
                   (JsNumber.round (QuizScreen.timeLeft st - 1))
                   (QuizScreen.interval st)).
  assert (Hs : answers_ok s).
  { apply (answers_ok_ext st); [..|assumption];
      unfold s; destruct (_ <=? _)%Z; reflexivity. }
  destruct (_ =? _)%Z; [now intros [= <-]|].
  now apply answers_ok_watch_effect.
Qed.

Lemma enabled_current (st : QuizScreen.State) (ev : QuizScreen.Event) :
  QuizScreen.enabled questions st ev = true ->
  exists q, currentQuestion st = Some q.
Proof.
  unfold QuizScreen.enabled.
  destruct (QuizScreen.currentQuestion questions st) as [q|]; [eauto|discriminate].
Qed.

Lemma answers_ok_step (st st' : QuizScreen.State) (ev : QuizScreen.Event) :
  answers_ok st ->
  QuizScreen.step sort_random questions timeLimit st ev = Some st' ->
  answers_ok st'.
Proof.
  intros Hok. unfold QuizScreen.step.
  destruct (QuizScreen.enabled questions st ev); [|discriminate].
  unfold QuizScreen.handle.
  destruct (QuizScreen.currentQuestion questions st) as [q|] eqn:Hq;
    [|discriminate].
  pose proof (currentQuestion_In questions st q Hq) as Hin.
  destruct ev as [val|index direction|l r| | |].
  - intros [= <-]. now apply answers_ok_set_answer.
  - intros [= <-]. now apply (answers_ok_ext st).
  - intros [= <-]. now apply (answers_ok_ext st).
  - unfold QuizScreen.handleNext. rewrite Hq.
    assert (H1 : answers_ok
                   (if (QuestionType_eqb (type q) SEQUENCING
                        || QuestionType_eqb (type q) MATCHING)%bool
                    then QuizScreen.saveComplexAnswer q st else st)).
    { destruct (_ || _)%bool; [now apply answers_ok_saveComplexAnswer|assumption]. }
    destruct (QuizScreen.isLastQuestion questions st).
    + now intros [= <-].
    + now apply answers_ok_go_to.
  - now apply answers_ok_go_to.
  - now apply answers_ok_tick.
Qed.

(** The answer map of a reachable state names questions only, each once, and
    its index is inside the question list. *)
Lemma reachable_answers_ok (st : QuizScreen.State) :
  QuizScreen.reachable sort_random questions timeLimit st -> answers_ok st.
Proof.
  induction 1 as [r st Hm|st ev st' _ IH Hstep].
  - now apply (answers_ok_mount r).
  - now apply (answers_ok_step st st' ev).
Qed.

(** A reachable state has a current question. *)
Lemma reachable_current (st : QuizScreen.State) :
  QuizScreen.reachable sort_random questions timeLimit st ->
  exists q, currentQuestion st = Some q.
Proof.
  intros H. apply reachable_answers_ok in H as [_ [_ Hidx]].
  unfold QuizScreen.currentQuestion.
  destruct (nth_error questions (QuizScreen.currentIdx st)) as [q|] eqn:E;
    [eauto|].
  apply nth_error_None in E. lia.
Qed.

(** *** The working list and the submissions, for an engine that returns
    what it was given and plain identities *)

(** With plain identities, the finalization of a state whose answer map is
    in order gives one answer per identity. *)
Lemma finalization_identities (st : QuizScreen.State) (q : Question) :
  Spec.plain_ids questions ->
  answers_ok st -> currentQuestion st = Some q ->
  Spec.one_answer_per_identity questions
    (QuizScreen.getFormattedAnswers questions q st).
Proof.
  intros Hplain [Hnd [Hincl Hidx]] Hq.
  apply getFormattedAnswers_identities; try assumption.
  now apply (currentQuestion_In questions st).
Qed.

(** *** The working list, for an engine that returns what it was given *)

Hypothesis sorts : Engine.permutes sort_random.

Abbreviation sequence_ok := (Spec.sequence_ok questions).

Lemma sequence_ok_ext (st st' : QuizScreen.State) :
  QuizScreen.currentIdx st' = QuizScreen.currentIdx st ->
  QuizScreen.sequenceItems st' = QuizScreen.sequenceItems st ->
  sequence_ok st -> sequence_ok st'.
Proof.
  intros Ei Es Hseq q items.
  unfold QuizScreen.currentQuestion. rewrite Ei, Es. apply Hseq.
Qed.

(** The initialization effect leaves a permutation of the items in the
    working list of a sequencing question. *)
Lemma init_effect_sequence (q : Question) (st : QuizScreen.State)
  (items : list string) :
  type q = SEQUENCING -> sequencingItems q = Some items ->
  Permutation items
    (QuizScreen.sequenceItems (QuizScreen.init_effect sort_random q st)).
Proof.
  intros Ht Hi. unfold QuizScreen.init_effect. rewrite Ht, Hi.
  pose proof (sorts items (QuizScreen.rnd st)) as P.
  destruct (sort_random items (QuizScreen.rnd st)) as [shuffled r].
  exact P.
Qed.

Lemma sequence_ok_init_effect (q : Question) (st : QuizScreen.State) :
  currentQuestion st = Some q ->
  sequence_ok (QuizScreen.init_effect sort_random q st).
Proof.
  intros Hq q' items Hq' Ht Hi.
  destruct (init_effect_frame q st) as [_ [Ei _]].
  unfold QuizScreen.currentQuestion in *. rewrite Ei, Hq in Hq'.
  injection Hq' as <-. now apply init_effect_sequence.
Qed.

Lemma sequence_ok_go_to (st st' : QuizScreen.State) (i : nat) :
  sequence_ok st -> QuizScreen.go_to sort_random questions st i = Some st' ->
  sequence_ok st'.
Proof.
  intros Hseq. unfold QuizScreen.go_to.
  destruct (i =? QuizScreen.currentIdx st)%nat; [now intros [= <-]|].
  destruct (QuizScreen.currentQuestion questions (QuizScreen.setCurrentIdx st i))
    as [q|] eqn:Hq; [|discriminate].
  intros [= <-]. now apply sequence_ok_init_effect.
Qed.

Lemma sequence_ok_watch_effect (st st' : QuizScreen.State) :
  sequence_ok st -> QuizScreen.watch_effect questions timeLimit st = Some st' ->
  sequence_ok st'.
Proof.
  intros Hseq. unfold QuizScreen.watch_effect.
  destruct (_ && _)%bool; [|now intros [= <-]].
  destruct (QuizScreen.currentQuestion questions st) as [q|]; [|discriminate].
  now intros [= <-].
Qed.

Lemma sequence_ok_mount (r : Random.Tape) (st : QuizScreen.State) :
  QuizScreen.mount sort_random questions timeLimit r = Some st -> sequence_ok st.
Proof.
  unfold QuizScreen.mount.
  match goal with
  | |- context [QuizScreen.currentQuestion questions ?s] => set (st0 := s)
  end.
  destruct (QuizScreen.currentQuestion questions st0) as [q|] eqn:Hq;
    [|discriminate].
  intros H. apply sequence_ok_watch_effect in H; [assumption|].
  now apply sequence_ok_init_effect.
Qed.

Lemma sequence_ok_step (st st' : QuizScreen.State) (ev : QuizScreen.Event) :
  sequence_ok st ->
  QuizScreen.step sort_random questions timeLimit st ev = Some st' ->
  sequence_ok st'.
Proof.
  intros Hseq. unfold QuizScreen.step.
  destruct (QuizScreen.enabled questions st ev) eqn:Hen; [|discriminate].
  unfold QuizScreen.handle, QuizScreen.enabled in *.
  destruct (QuizScreen.currentQuestion questions st) as [q|] eqn:Hq;
    [|discriminate].
  destruct ev as [val|index direction|l r| | |].
  - intros [= <-]. now apply (sequence_ok_ext st).
  - intros [= <-].
    apply andb_true_iff in Hen as [Hen _].
    apply andb_true_iff in Hen as [Ht Hi].
    apply Nat.ltb_lt in Hi.
    intros q' items Hq' Ht' Hitems. simpl.
    etransitivity; [apply (Hseq q' items Hq' Ht' Hitems)|].
    now apply moveItem_perm.
  - intros [= <-]. now apply (sequence_ok_ext st).
  - unfold QuizScreen.handleNext. rewrite Hq.
    assert (H1 : sequence_ok
                   (if (QuestionType_eqb (type q) SEQUENCING
                        || QuestionType_eqb (type q) MATCHING)%bool
                    then QuizScreen.saveComplexAnswer q st else st)).
    { destruct (_ || _)%bool; [|assumption].
      apply (sequence_ok_ext st); [| |assumption];
        unfold QuizScreen.saveComplexAnswer; now destruct (type q). }
    destruct (QuizScreen.isLastQuestion questions st).
    + now intros [= <-].
    + now apply sequence_ok_go_to.
  - now apply sequence_ok_go_to.
  - unfold QuizScreen.tick.
    set (s := if (QuizScreen.timeLeft st <=? 1)%Z
              then QuizScreen.setTimeLeft st 0 false
              else QuizScreen.setTimeLeft st
                     (JsNumber.round (QuizScreen.timeLeft st - 1))
                     (QuizScreen.interval st)).
    assert (Hs : sequence_ok s).
    { apply (sequence_ok_ext st); [..|assumption];
        unfold s; destruct (_ <=? _)%Z; reflexivity. }
    destruct (_ =? _)%Z; [now intros [= <-]|].
    now apply sequence_ok_watch_effect.
Qed.

(** While a sequencing question with items is the current one of a reachable
    state, the working list is a permutation of its items. *)
Lemma reachable_sequence_ok (st : QuizScreen.State) :
  QuizScreen.reachable sort_random questions timeLimit st -> sequence_ok st.
Proof.
  induction 1 as [r st Hm|st ev st' _ IH Hstep].
  - now apply (sequence_ok_mount r).
  - now apply (sequence_ok_step st st' ev).
Qed.

End SessionFacts.

(** ** The session: the countdown *)

Section TimerFacts.

Variable sort_random : Engine.RandomSort.
Variable questions : list Question.
Variable timeLimit : Z.
Hypothesis timed : (0 < timeLimit)%Z.

Lemma run_app (st : QuizScreen.State) (evs evs' : list QuizScreen.Event) :
  QuizScreen.run sort_random questions timeLimit st (evs ++ evs')
  = match QuizScreen.run sort_random questions timeLimit st evs with
    | Some st' => QuizScreen.run sort_random questions timeLimit st' evs'
    | None => None
    end.
Proof.
  revert st; induction evs as [|ev evs IH]; intros st; simpl; [reflexivity|].
  destruct (QuizScreen.step sort_random questions timeLimit st ev); [apply IH|reflexivity].
Qed.

(** A firing of the interval with more than a second left takes a second
    off and nothing else. *)
Lemma step_tick_early (st : QuizScreen.State) (q : Question) :
  QuizScreen.currentQuestion questions st = Some q ->
  QuizScreen.interval st = true ->
  (1 < QuizScreen.timeLeft st < 2 ^ 53)%Z ->
  QuizScreen.step sort_random questions timeLimit st QuizScreen.Tick
  = Some (QuizScreen.setTimeLeft st (QuizScreen.timeLeft st - 1) true).
Proof.
  intros Hq Hi Ht.
  unfold QuizScreen.step, QuizScreen.enabled, QuizScreen.handle, QuizScreen.tick.
  rewrite Hq, Hi. rewrite round_small by lia.
  replace (QuizScreen.timeLeft st <=? 1)%Z with false
    by (symmetry; apply Z.leb_gt; lia).
  simpl QuizScreen.timeLeft.
  replace (QuizScreen.timeLeft st - 1 =? QuizScreen.timeLeft st)%Z with false
    by (symmetry; apply Z.eqb_neq; lia).
  unfold QuizScreen.watch_effect. simpl QuizScreen.timeLeft.
  replace (QuizScreen.timeLeft st - 1 =? 0)%Z with false
    by (symmetry; apply Z.eqb_neq; lia).
  now rewrite andb_false_r.
Qed.

(** The firing with one second left stops the interval and finalizes. *)
Lemma step_tick_last (st : QuizScreen.State) (q : Question) :
  QuizScreen.currentQuestion questions st = Some q ->
  QuizScreen.interval st = true ->
  QuizScreen.timeLeft st = 1%Z ->
  QuizScreen.step sort_random questions timeLimit st QuizScreen.Tick
  = Some (QuizScreen.onSubmit (QuizScreen.setTimeLeft st 0 false)
            (QuizScreen.getFormattedAnswers questions q st)).
Proof.
  intros Hq Hi Ht.
  unfold QuizScreen.step, QuizScreen.enabled, QuizScreen.handle, QuizScreen.tick.
  rewrite Hq, Hi, Ht. simpl.
  unfold QuizScreen.watch_effect. simpl QuizScreen.timeLeft.
  replace (timeLimit >? 0)%Z with true by (symmetry; apply Z.gtb_lt; lia).
  simpl. unfold QuizScreen.currentQuestion in *. simpl. rewrite Hq.
  reflexivity.
Qed.

Lemma run_ticks_early (k : nat) (st : QuizScreen.State) (q : Question) :
  QuizScreen.currentQuestion questions st = Some q ->
  QuizScreen.interval st = true ->
  (Z.of_nat k < QuizScreen.timeLeft st < 2 ^ 53)%Z ->
  QuizScreen.run sort_random questions timeLimit st (repeat QuizScreen.Tick k)
  = Some (QuizScreen.setTimeLeft st (QuizScreen.timeLeft st - Z.of_nat k) true).
Proof.
  revert st; induction k as [|k IH]; intros st Hq Hi Ht.
  - simpl. f_equal. destruct st; simpl in *. subst.
    now rewrite Z.sub_0_r.
  - cbn [repeat QuizScreen.run].
    rewrite (step_tick_early st q Hq Hi) by lia.
    rewrite IH; [|exact Hq|reflexivity|simpl; lia].
    f_equal. unfold QuizScreen.setTimeLeft. simpl. f_equal. lia.
Qed.

(** Once the interval is cleared the timer does not fire. *)
Lemma tick_disabled (st : QuizScreen.State) :
  QuizScreen.interval st = false ->
  QuizScreen.enabled questions st QuizScreen.Tick = false.
Proof.
  intros Hi. unfold QuizScreen.enabled.
  now destruct (QuizScreen.currentQuestion questions st).
Qed.

(** The countdown from [t] seconds, nothing else happening: no submission
    before the [t]-th firing, one at the [t]-th, and no firing after it. *)
Lemma countdown (st : QuizScreen.State) (q : Question) (t : nat) :
  QuizScreen.currentQuestion questions st = Some q ->
  QuizScreen.interval st = true ->
  QuizScreen.timeLeft st = Z.of_nat (S t) ->
  (Z.of_nat (S t) < 2 ^ 53)%Z ->
  (forall n, n <= t ->
     QuizScreen.run sort_random questions timeLimit st (repeat QuizScreen.Tick n)
     = Some (QuizScreen.setTimeLeft st (Z.of_nat (S t) - Z.of_nat n) true))
  /\ QuizScreen.run sort_random questions timeLimit st (repeat QuizScreen.Tick (S t))
     = Some (QuizScreen.onSubmit (QuizScreen.setTimeLeft st 0 false)
               (QuizScreen.getFormattedAnswers questions q st))
  /\ (forall n, S t < n ->
        QuizScreen.run sort_random questions timeLimit st (repeat QuizScreen.Tick n) = None).
Proof.
  intros Hq Hi Ht Hbound.
  assert (Hearly : forall n, n <= t ->
     QuizScreen.run sort_random questions timeLimit st (repeat QuizScreen.Tick n)
     = Some (QuizScreen.setTimeLeft st (Z.of_nat (S t) - Z.of_nat n) true)).
  { intros n Hn. rewrite <- Ht. apply (run_ticks_early n st q Hq Hi). lia. }
  assert (Hlast :
     QuizScreen.run sort_random questions timeLimit st (repeat QuizScreen.Tick (S t))
     = Some (QuizScreen.onSubmit (QuizScreen.setTimeLeft st 0 false)
               (QuizScreen.getFormattedAnswers questions q st))).
  { replace (S t) with (t + 1) at 1 by lia.
    rewrite repeat_app, run_app, (Hearly t (le_n t)). simpl repeat.
    cbn [QuizScreen.run].
    rewrite (step_tick_last _ q); [reflexivity|exact Hq|reflexivity|].
    unfold QuizScreen.setTimeLeft. cbn [QuizScreen.timeLeft]. lia. }
  split; [exact Hearly|split; [exact Hlast|]].
  intros n Hn. replace n with (S t + S (n - S t - 1)) by lia.
  rewrite repeat_app, run_app, Hlast. cbn [repeat QuizScreen.run].
  unfold QuizScreen.step. now rewrite tick_disabled.
Qed.

End TimerFacts.

(** ** Configuration: [handleSubmit] *)

Section SubmissionFacts.

(** Claim C5.  A configuration without document, or with auto-detect off and
    no question type selected, is rejected: [handleSubmit] records an error
    message and does not call [onStartQuiz], so nothing is requested from the
    generation service.  A configuration with at least one document and
    auto-detect on or some type selected goes through: [onStartQuiz] receives
    the configuration, with the instructions trimmed. *)
Theorem C5_handleSubmit_validation (st : UploadScreen.State) :
  (UploadScreen.documents st = []
   \/ (UploadScreen.autoDetect st = false /\ UploadScreen.selectedTypes st = []) ->
   snd (UploadScreen.handleSubmit st) = None
   /\ UploadScreen.error (fst (UploadScreen.handleSubmit st)) <> "")
  /\ (UploadScreen.documents st <> [] ->
      UploadScreen.autoDetect st = true \/ UploadScreen.selectedTypes st <> [] ->
      fst (UploadScreen.handleSubmit st) = st
      /\ snd (UploadScreen.handleSubmit st)
         = Some {| Types.documents := UploadScreen.documents st;
                   Types.numQuestions := UploadScreen.numQuestions st;
                   Types.selectedTypes := UploadScreen.selectedTypes st;
                   Types.autoDetect := UploadScreen.autoDetect st;
                   Types.difficulty := UploadScreen.difficulty st;
                   Types.customInstructions :=
                     JsString.trim (UploadScreen.customInstructions st);
                   Types.timeLimit := UploadScreen.timeLimit st |}).
Proof.
  unfold UploadScreen.handleSubmit. split.
  - intros [Hd|[Ha Ht]].
    + rewrite Hd. simpl. split; [reflexivity|discriminate].
    + rewrite Ha, Ht. simpl.
      destruct (List.length (UploadScreen.documents st) =? 0)%nat;
        simpl; split; try reflexivity; discriminate.
  - intros Hd Hsel.
    destruct (UploadScreen.documents st) as [|d ds] eqn:Ed; [congruence|].
    simpl. destruct Hsel as [Ha|Ht].
    + rewrite Ha. simpl. now rewrite <- Ed.
    + destruct (UploadScreen.selectedTypes st) as [|t ts] eqn:Et; [congruence|].
      simpl. rewrite andb_false_r. now rewrite <- Ed, <- Et.
Qed.

Lemma C5_handleSubmit_validation_witness :
  snd (UploadScreen.handleSubmit (sample_upload [] [] true)) = None
  /\ snd (UploadScreen.handleSubmit (sample_upload [sample_file] [] false)) = None
  /\ option_map Types.customInstructions
       (snd (UploadScreen.handleSubmit (sample_upload [sample_file] [MATCHING] false)))
     = Some "use the vocabulary in context".
Proof.
  split; [|split].
  - apply (C5_handleSubmit_validation (sample_upload [] [] true)).
    left. reflexivity.
  - apply (C5_handleSubmit_validation (sample_upload [sample_file] [] false)).
    right. split; reflexivity.
  - destruct (C5_handleSubmit_validation
                (sample_upload [sample_file] [MATCHING] false)) as [_ H].
    destruct H as [_ H]; [discriminate|right; discriminate|].
    rewrite H. reflexivity.
Defined.

End SubmissionFacts.

(** ** The tutor query *)

Section TutorFacts.

(** Claim C9, as the code has it.  A remote failure (and a missing key, too)
    leaves [explainQuestion] through its caller [handleAskAI], which catches
    it: a query that is not blank always ends with the loading flag down and,
    when [explainQuestion] threw, with the apology as the chat response.
    [handleAskAI] itself never throws. *)
Theorem C9_handleAskAI_fallback (apiKey : option string)
  (remote : Completion (option string)) (st : ResultScreen.State) :
  (exists st', ResultScreen.handleAskAI apiKey remote st = Return st')
  /\ (JsString.truthy (JsString.trim (ResultScreen.chatInput st)) = true ->
      forall e, geminiService.explainQuestion apiKey remote = Throw e ->
      ResultScreen.handleAskAI apiKey remote st
      = Return {| ResultScreen.chatInput := ResultScreen.chatInput st;
                  ResultScreen.chatResponse :=
                    Some "Sorry, I couldn't connect to the AI tutor right now.";
                  ResultScreen.isChatLoading := false |})
  /\ (forall e, remote = Throw e ->
      exists e', geminiService.explainQuestion apiKey remote = Throw e').
Proof.
  unfold ResultScreen.handleAskAI. split; [|split].
  - destruct (JsString.truthy _); simpl; [|eauto].
    destruct (geminiService.explainQuestion apiKey remote); simpl; eauto.
  - intros Hq e He. rewrite Hq, He. reflexivity.
  - intros e ->. unfold geminiService.explainQuestion.
    destruct (geminiService.has_key apiKey); simpl; eauto.
Qed.

Lemma C9_handleAskAI_fallback_witness :
  ResultScreen.handleAskAI (Some "key") (Throw (RemoteFailure "offline")) asking
  = Return {| ResultScreen.chatInput := "Why is my answer wrong?";
              ResultScreen.chatResponse :=
                Some "Sorry, I couldn't connect to the AI tutor right now.";
              ResultScreen.isChatLoading := false |}
  /\ exists e,
       geminiService.explainQuestion (Some "key") (Throw (RemoteFailure "offline"))
       = Throw e.
Proof.
  destruct (C9_handleAskAI_fallback (Some "key")
              (Throw (RemoteFailure "offline")) asking) as [_ [H H']].
  split.
  - apply (H eq_refl (RemoteFailure "offline")). reflexivity.
  - apply (H' (RemoteFailure "offline")). reflexivity.
Defined.

(** Claim C9 as stated fails: on a remote failure [explainQuestion] returns no
    string to its caller, it rethrows. *)
Lemma C9_explainQuestion_propagates :
  geminiService.explainQuestion (Some "key") (Throw (RemoteFailure "offline"))
  = Throw (RemoteFailure "offline")
  /\ forall s,
       geminiService.explainQuestion (Some "key") (Throw (RemoteFailure "offline"))
       <> Return s.
Proof. split; [reflexivity|discriminate]. Qed.

End TutorFacts.

(** ** The generation response *)

Section GenerationFacts.

Variable QuestionType_value : QuestionType -> string.

Abbreviation process_question := (geminiService.process_question QuestionType_value).
Abbreviation normalize := (geminiService.normalize QuestionType_value).
Abbreviation generateQuiz := (geminiService.generateQuiz QuestionType_value).
Abbreviation jget := (JsObject.get String.eqb).

Lemma with_field_get_same (props : list (string * Json.t)) (k : string)
  (v : Json.t) :
  exists props', Json.with_field props k v = Json.JObject props'
                 /\ jget props' k = Some v
                 /\ forall k', k' <> k -> jget props' k' = jget props k'.
Proof.
  unfold Json.with_field, JsObject.spread. eexists. split; [reflexivity|split].
  - apply (get_set_same String.eqb String.eqb_eq).
  - intros k' Hne.
    rewrite (get_set_other String.eqb String.eqb_eq) by assumption.
    apply (get_entries String.eqb JsObject.string_index String.eqb_eq).
Qed.

(** Claim C7.  Normalizing a question never fails unless the element is
    [null].  A multiple-choice question with an option list comes back as the
    same object with its option list permuted: every other field, the
    canonical correct answer among them, holds what it held, and no field is
    added or lost.  Any other question comes back as it was, and takes no
    draw. *)
Theorem C7_normalization_permutes_options_only (q : Json.t) (rnd : Random.Tape) :
  q <> Json.JNull ->
  exists q' rnd',
    process_question q rnd = Return (q', rnd')
    /\ (forall props opts,
          q = Json.JObject props ->
          jget props "type"
          = Some (Json.JString (QuestionType_value MULTIPLE_CHOICE)) ->
          jget props "options" = Some (Json.JArray opts) ->
          exists props' opts',
            q' = Json.JObject props'
            /\ jget props' "options" = Some (Json.JArray opts')
            /\ Permutation opts opts'
            /\ (forall k, k <> "options" -> jget props' k = jget props k)
            /\ jget props' "correctAnswer" = jget props "correctAnswer")
    /\ ((forall props opts,
           q = Json.JObject props ->
           jget props "type"
           = Some (Json.JString (QuestionType_value MULTIPLE_CHOICE)) ->
           jget props "options" <> Some (Json.JArray opts)) ->
        q' = q /\ rnd' = rnd).
Proof.
  intros Hnull. unfold geminiService.process_question.
  destruct q as [|b|n|s|elems|props]; try congruence; simpl Json.field;
    cbn [bind].
  1-4: eexists; eexists; split; [reflexivity|split;
         [intros ? ? [=]|intros _; split; reflexivity]].
  destruct (jget props "type") as [[| | |s| |]|] eqn:Et;
    try (eexists; eexists; split; [reflexivity|split;
           [intros ? ? [= <-]; congruence|intros _; split; reflexivity]]).
  destruct (String.eqb_spec s (QuestionType_value MULTIPLE_CHOICE)) as [->|Hs].
  - destruct (jget props "options") as [[| | | |opts|]|] eqn:Eo;
      try (eexists; eexists; split; [reflexivity|split;
             [intros ? ? [= <-]; congruence
             |intros _; split; reflexivity]]).
    pose proof (shuffleArray_perm opts rnd) as P.
    destruct (geminiService.shuffleArray opts rnd) as [shuffled rnd'].
    simpl in P.
    destruct (with_field_get_same props "options" (Json.JArray shuffled))
      as [props' [E [Hsame Hother]]].
    eexists; eexists; split; [reflexivity|split].
    + intros props0 opts0 [= <-] _ Ho.
      assert (opts0 = opts) by congruence. subst opts0.
      exists props', shuffled. repeat split; try assumption.
      apply Hother. discriminate.
    + intros H. exfalso. apply (H props opts eq_refl Et Eo).
  - eexists; eexists; split; [reflexivity|split].
    + intros props0 opts0 [= <-] Ht. congruence.
    + intros _. split; reflexivity.
Qed.

(** Claim C3, as the code has it.  With the key set and the response
    received, [generateQuiz] fails whenever the parsed response has no array
    under [questions], and returns no list: with "Invalid response structure"
    when what it reads there is falsy (the key is absent, or holds [null],
    [false], 0 or the empty string), and with the engine's [TypeError] when
    it is any other value that is no array, or when the response itself is
    [null].  An empty array is no failure: the empty question list is
    returned. *)
Theorem C3_generateQuiz_rejects_missing_array (apiKey : option string)
  (data : Json.t) (rnd : Random.Tape) :
  geminiService.has_key apiKey = true ->
  ((forall qs, Json.field data "questions" <> Return (Some (Json.JArray qs))) ->
   exists e, generateQuiz apiKey (Return data) rnd = Throw e)
  /\ (forall props, data = Json.JObject props ->
        jget props "questions" = None ->
        generateQuiz apiKey (Return data) rnd = Throw InvalidResponseStructure)
  /\ (forall props, data = Json.JObject props ->
        jget props "questions" = Some (Json.JArray []) ->
        generateQuiz apiKey (Return data) rnd = Return ([], rnd))
  /\ (forall questions,
        Json.field data "questions" = Return questions ->
        (forall qs, questions <> Some (Json.JArray qs)) ->
        generateQuiz apiKey (Return data) rnd
        = Throw (if Json.truthy questions then TypeError
                 else InvalidResponseStructure))
  /\ (data = Json.JNull ->
      generateQuiz apiKey (Return data) rnd = Throw TypeError).
Proof.
  intros Hkey. unfold geminiService.generateQuiz, geminiService.normalize.
  rewrite Hkey. cbn [negb bind]. split; [|split; [|split; [|split]]].
  - intros Hno. destruct data as [|b|n|s|elems|props]; simpl; eauto.
    destruct (JsObject.get String.eqb props "questions")
      as [[|b|n|s|elems|ps]|] eqn:E; simpl; eauto.
    + destruct b; simpl; eauto.
    + destruct (Qeq_bool n 0); simpl; eauto.
    + destruct (JsString.truthy s); simpl; eauto.
    + exfalso. apply (Hno elems). simpl. now rewrite E.
  - intros props -> E. simpl. now rewrite E.
  - intros props -> E. simpl. now rewrite E.
  - intros questions E Hno. rewrite E. cbn [bind].
    destruct (Json.truthy questions) eqn:Ht; [|reflexivity].
    cbn [negb].
    destruct questions as [[|b|n|s|elems|ps]|]; try reflexivity.
    exfalso. now apply (Hno elems).
  - intros ->. reflexivity.
Qed.

End GenerationFacts.

Lemma C3_generateQuiz_rejects_missing_array_witness :
  geminiService.generateQuiz sample_tags (Some "key")
    (Return (Json.JObject [])) zero_tape
  = Throw InvalidResponseStructure
  /\ geminiService.generateQuiz sample_tags (Some "key")
       (Return (Json.JObject [("questions", Json.JString "none")])) zero_tape
     = Throw TypeError
  /\ geminiService.generateQuiz sample_tags (Some "key")
       (Return (Json.JObject [("questions", Json.JString "")])) zero_tape
     = Throw InvalidResponseStructure.
Proof.
  split; [|split].
  - destruct (C3_generateQuiz_rejects_missing_array sample_tags (Some "key")
                (Json.JObject []) zero_tape eq_refl) as [_ [H _]].
    exact (H [] eq_refl eq_refl).
  - destruct (C3_generateQuiz_rejects_missing_array sample_tags (Some "key")
                (Json.JObject [("questions", Json.JString "none")])
                zero_tape eq_refl) as [_ [_ [_ [H _]]]].
    apply (H (Some (Json.JString "none")) eq_refl). intros qs. discriminate.
  - destruct (C3_generateQuiz_rejects_missing_array sample_tags (Some "key")
                (Json.JObject [("questions", Json.JString "")])
                zero_tape eq_refl) as [_ [_ [_ [H _]]]].
    apply (H (Some (Json.JString "")) eq_refl). intros qs. discriminate.
Defined.

(** Claim C3 as stated fails: a response with zero questions is not
    rejected, the caller receives the empty list. *)
Lemma C3_zero_questions_returned :
  geminiService.generateQuiz sample_tags (Some "key")
    (Return (Json.JObject [("questions", Json.JArray [])])) zero_tape
  = Return ([], zero_tape).
Proof. reflexivity. Qed.

Lemma C7_normalization_permutes_options_only_witness :
  (exists q' rnd' props' opts',
     geminiService.process_question sample_tags (Json.JObject sample_mcq) zero_tape
     = Return (q', rnd')
     /\ q' = Json.JObject props'
     /\ JsObject.get String.eqb props' "options" = Some (Json.JArray opts')
     /\ Permutation
          [Json.JString "Mars"; Json.JString "Jupiter"; Json.JString "Venus"] opts'
     /\ JsObject.get String.eqb props' "correctAnswer"
        = Some (Json.JString "Jupiter"))
  /\ geminiService.process_question sample_tags (Json.JObject sample_true_false)
       zero_tape
     = Return (Json.JObject sample_true_false, zero_tape).
Proof.
  split; [|destruct (C7_normalization_permutes_options_only sample_tags
                       (Json.JObject sample_true_false) zero_tape
                       ltac:(discriminate)) as [q' [rnd' [E [_ Hother]]]];
           destruct Hother as [-> ->]; [|exact E];
           intros props opts [= <-]; discriminate].
  destruct (C7_normalization_permutes_options_only sample_tags
              (Json.JObject sample_mcq) zero_tape ltac:(discriminate))
    as [q' [rnd' [E [Hmc _]]]].
  destruct (Hmc sample_mcq _ eq_refl eq_refl eq_refl)
    as [props' [opts' [Eq [Ho [P [_ Hc]]]]]].
  exists q', rnd', props', opts'. repeat split; assumption.
Defined.


(** ** The grading response *)

Section GradingFacts.

Variable originalQuestions : list Question.
Variable userAnswers : list UserAnswer.

Abbreviation merge := (geminiService.merge originalQuestions userAnswers).

Lemma merge_unknown (gq : geminiService.Graded) :
  (forall q, In q originalQuestions -> id q <> geminiService.g_id gq) ->
  merge gq = Throw (IdMismatch (geminiService.g_id gq)).
Proof.
  intros Hno. unfold geminiService.merge.
  destruct (find _ originalQuestions) as [o|] eqn:E; [|reflexivity].
  apply find_some in E as [Hin Heq]. apply Z.eqb_eq in Heq.
  now apply Hno in Hin.
Qed.

Lemma merge_known (gq : geminiService.Graded) :
  (exists q, In q originalQuestions /\ id q = geminiService.g_id gq) ->
  exists g, merge gq = Return g /\ Spec.merged_from originalQuestions gq g.
Proof.
  intros [q [Hin Heq]]. unfold geminiService.merge.
  destruct (find _ originalQuestions) as [o|] eqn:E.
  - apply find_some in E as [Ho Hid]. apply Z.eqb_eq in Hid.
    eexists. split; [reflexivity|]. repeat split; assumption.
  - apply (find_none _ _ E) in Hin. apply Z.eqb_neq in Hin. contradiction.
Qed.

Lemma merge_throws (gq : geminiService.Graded) (e : JsError) :
  merge gq = Throw e ->
  e = IdMismatch (geminiService.g_id gq)
  /\ forall q, In q originalQuestions -> id q <> geminiService.g_id gq.
Proof.
  unfold geminiService.merge.
  destruct (find _ originalQuestions) as [o|] eqn:E; [discriminate|].
  intros [= <-]. split; [reflexivity|].
  intros q Hin. apply (find_none _ _ E) in Hin. now apply Z.eqb_neq.
Qed.

(** The merge of a list of records stops at the first unknown identity. *)
Lemma map_merge_unknown (records : list geminiService.Graded) :
  (exists gq, In gq records
              /\ forall q, In q originalQuestions -> id q <> geminiService.g_id gq) ->
  exists gq, In gq records
             /\ (forall q, In q originalQuestions -> id q <> geminiService.g_id gq)
             /\ map_throwing merge records
                = Throw (IdMismatch (geminiService.g_id gq)).
Proof.
  induction records as [|r records IH]; intros [gq [Hin Hno]]; [destruct Hin|].
  cbn [map_throwing].
  destruct (merge r) as [g|e] eqn:Er.
  - destruct Hin as [<-|Hin]; [rewrite merge_unknown in Er by assumption; discriminate|].
    destruct IH as [gq' [Hin' [Hno' E']]]; [eauto|].
    exists gq'. split; [now right|split; [assumption|]].
    cbn [bind]. now rewrite E'.
  - apply merge_throws in Er as [-> Hr].
    exists r. split; [now left|split; [assumption|reflexivity]].
Qed.

Lemma map_merge_known (records : list geminiService.Graded) :
  (forall gq, In gq records ->
     exists q, In q originalQuestions /\ id q = geminiService.g_id gq) ->
  exists merged,
    map_throwing merge records = Return merged
    /\ Forall2 (Spec.merged_from originalQuestions) records merged.
Proof.
  induction records as [|r records IH]; intros Hall.
  - exists []. split; [reflexivity|constructor].
  - destruct (merge_known r (Hall r (or_introl eq_refl))) as [g [Eg Hg]].
    destruct IH as [merged [Em Hm]]; [intros gq Hin; apply Hall; now right|].
    exists (g :: merged). cbn [map_throwing]. rewrite Eg. cbn [bind].
    rewrite Em. split; [reflexivity|now constructor].
Qed.

(** Claim C4.  With the key set and a grading response received that carries
    a list of records: if some record's identity is that of no original
    question, [gradeQuiz] throws the mismatch error of such a record and
    returns no result, partial or other; if every record's identity is that
    of an original question, it returns a result that grades every record, in
    order, against a question of its identity, with the question count as
    maximum. *)
Theorem C4_gradeQuiz_identity_mismatch (apiKey : option string)
  (data : geminiService.GradingData) (records : list geminiService.Graded) :
  geminiService.has_key apiKey = true ->
  geminiService.d_gradedQuestions data = Some records ->
  ((exists gq, In gq records
               /\ forall q, In q originalQuestions -> id q <> geminiService.g_id gq) ->
   exists gq, In gq records
              /\ (forall q, In q originalQuestions -> id q <> geminiService.g_id gq)
              /\ geminiService.gradeQuiz apiKey (Return data)
                   originalQuestions userAnswers
                 = Throw (IdMismatch (geminiService.g_id gq)))
  /\ ((forall gq, In gq records ->
         exists q, In q originalQuestions /\ id q = geminiService.g_id gq) ->
      exists result,
        geminiService.gradeQuiz apiKey (Return data)
          originalQuestions userAnswers = Return result
        /\ maxScore result = List.length originalQuestions
        /\ Forall2 (Spec.merged_from originalQuestions) records
             (gradedQuestions result)).
Proof.
  intros Hkey Hrec. unfold geminiService.gradeQuiz, geminiService.aggregate.
  rewrite Hkey. cbn [negb bind]. rewrite Hrec. cbn [bind]. split.
  - intros H. destruct (map_merge_unknown records H) as [gq [Hin [Hno E]]].
    exists gq. rewrite E. auto.
  - intros H. destruct (map_merge_known records H) as [merged [E Hm]].
    rewrite E. eexists. split; [reflexivity|]. simpl. auto.
Qed.

End GradingFacts.

Lemma C4_gradeQuiz_identity_mismatch_witness :
  (exists gq,
     geminiService.gradeQuiz (Some "key") (Return (grading 7)) [capital]
       [{| questionId := 1; answer := "Paris" |}]
     = Throw (IdMismatch (geminiService.g_id gq)))
  /\ (exists result,
        geminiService.gradeQuiz (Some "key") (Return (grading 1)) [capital]
          [{| questionId := 1; answer := "Paris" |}]
        = Return result
        /\ maxScore result = 1).
Proof.
  split.
  - destruct (C4_gradeQuiz_identity_mismatch [capital]
                [{| questionId := 1; answer := "Paris" |}]
                (Some "key") (grading 7) [graded 7] eq_refl eq_refl) as [H _].
    destruct H as [gq [_ [_ E]]].
    + exists (graded 7). split; [now left|].
      intros q [<-|[]]. discriminate.
    + now exists gq.
  - destruct (C4_gradeQuiz_identity_mismatch [capital]
                [{| questionId := 1; answer := "Paris" |}]
                (Some "key") (grading 1) [graded 1] eq_refl eq_refl) as [_ H].
    destruct H as [result [E [Hmax _]]].
    + intros gq [<-|[]]. exists capital. split; [now left|reflexivity].
    + now exists result.
Defined.

(** ** The matching choices *)

Section MatchingFacts.

Lemma insert_sorted_perm (x : string) (l : list string) :
  Permutation (x :: l) (QuizScreen.insert_sorted x l).
Proof.
  induction l as [|y l IH]; simpl; [reflexivity|].
  destruct (String.leb x y); [reflexivity|].
  rewrite perm_swap. now constructor.
Qed.

Lemma sort_perm (l : list string) : Permutation l (QuizScreen.sort l).
Proof.
  induction l as [|x l IH]; simpl; [reflexivity|].
  etransitivity; [|apply insert_sorted_perm]. now constructor.
Qed.

Lemma insert_sorted_HdRel (a x : string) (l : list string) :
  Spec.string_le a x -> HdRel Spec.string_le a l ->
  HdRel Spec.string_le a (QuizScreen.insert_sorted x l).
Proof.
  intros Hax Hl. destruct l as [|y l]; simpl; [now constructor|].
  destruct (String.leb x y); constructor; [assumption|].
  now inversion Hl.
Qed.

Lemma insert_sorted_Sorted (x : string) (l : list string) :
  Sorted Spec.string_le l -> Sorted Spec.string_le (QuizScreen.insert_sorted x l).
Proof.
  induction 1 as [|y l Hs IH Hhd]; simpl; [repeat constructor|].
  destruct (String.leb x y) eqn:E.
  - constructor; [now constructor|now constructor].
  - constructor; [assumption|].
    apply insert_sorted_HdRel; [|assumption].
    destruct (String.leb_total x y) as [H|H]; [congruence|exact H].
Qed.

Lemma sort_Sorted (l : list string) : Sorted Spec.string_le (QuizScreen.sort l).
Proof.
  induction l as [|x l IH]; simpl; [constructor|].
  now apply insert_sorted_Sorted.
Qed.

(** Claim C8, as the code has it.  In a matching question every row lists the
    same choices, whatever its left item: the right items of all the pairs in
    ascending order, each as often as it occurs among the pairs. *)
Theorem C8_matching_choices (q : Question) (pairs : list MatchingPair)
  (sel : list (string * string)) :
  matchingPairs q = Some pairs ->
  map QuizScreen.row_left (QuizScreen.matching_rows q sel) = map left pairs
  /\ (forall row, In row (QuizScreen.matching_rows q sel) ->
        QuizScreen.row_options row = QuizScreen.rightOptions q)
  /\ Permutation (map right pairs) (QuizScreen.rightOptions q)
  /\ Sorted Spec.string_le (QuizScreen.rightOptions q).
Proof.
  intros Hp. unfold QuizScreen.matching_rows, QuizScreen.rightOptions.
  rewrite Hp. split; [|split; [|split]].
  - rewrite map_map. reflexivity.
  - intros row Hin. apply in_map_iff in Hin as [pair [<- _]]. reflexivity.
  - apply sort_perm.
  - apply sort_Sorted.
Qed.

End MatchingFacts.

Lemma C8_matching_choices_witness :
  Permutation ["Europe"; "Africa"; "Europe"] (QuizScreen.rightOptions continents)
  /\ Sorted Spec.string_le (QuizScreen.rightOptions continents).
Proof.
  destruct (C8_matching_choices continents _ [] eq_refl) as [_ [_ [P S]]].
  split; [exact P|exact S].
Defined.

(** Claim C8 as stated fails: a right item shared by two pairs is listed
    twice. *)
Lemma C8_choices_not_distinct :
  QuizScreen.rightOptions continents = ["Africa"; "Europe"; "Europe"]
  /\ ~ NoDup (QuizScreen.rightOptions continents).
Proof.
  split; [reflexivity|].
  intros H. change (NoDup ["Africa"; "Europe"; "Europe"]) in H.
  inversion H as [|? ? _ H1]; subst.
  inversion H1 as [|? ? Hin _]; subst.
  apply Hin. now left.
Qed.

(** ** The sequencing encoding *)

Section EncodingFacts.

Lemma saveComplexAnswer_sequencing (q : Question) (st : QuizScreen.State) :
  type q = SEQUENCING ->
  QuizScreen.answers_get
    (QuizScreen.answers (QuizScreen.saveComplexAnswer q st)) (id q)
  = Some (JsString.join Spec.separator (QuizScreen.sequenceItems st)).
Proof.
  intros Ht. unfold QuizScreen.saveComplexAnswer. rewrite Ht. simpl.
  apply (get_set_same Z.eqb Z.eqb_eq).
Qed.

(** Claim C6, as the code has it.  A sequencing answer is the working list
    joined in its order by [" || "], both when the question is left and at
    finalization; [["b"; "a"; "c"]] gives ["b || a || c"].  Splitting the
    encoding of a working list at [" || "] gives the list back when the list
    is not empty and no item contains [" || "] or ends with [" ||"]. *)
Theorem C6_sequencing_encoding (q : Question) (st : QuizScreen.State)
  (items : list string) :
  (type q = SEQUENCING ->
   QuizScreen.answers_get
     (QuizScreen.answers (QuizScreen.saveComplexAnswer q st)) (id q)
   = Some (JsString.join " || " (QuizScreen.sequenceItems st))
   /\ Spec.current_answer q st
      = JsString.join " || " (QuizScreen.sequenceItems st))
  /\ JsString.join " || " ["b"; "a"; "c"] = "b || a || c"
  /\ (items <> [] ->
      (forall x, In x items ->
         JsString.includes " || " x = false /\ JsString.endsWith x " ||" = false) ->
      JsString.split " || " (JsString.join " || " items) = items).
Proof.
  split; [|split; [reflexivity|]].
  - intros Ht. split; [now apply saveComplexAnswer_sequencing|].
    unfold Spec.current_answer. now rewrite Ht.
  - intros Hne Hall. apply split_join_safe; [assumption|].
    apply Forall_forall. intros x Hx.
    destruct (Hall x Hx) as [Hin Hend]. now apply safe_item_intro.
Qed.

End EncodingFacts.

Lemma C6_sequencing_encoding_witness :
  QuizScreen.answers_get
    (QuizScreen.answers (QuizScreen.saveComplexAnswer brewing reordering)) 3
  = Some "b || a || c"
  /\ JsString.split " || " (JsString.join " || " ["b"; "a"; "c"]) = ["b"; "a"; "c"].
Proof.
  destruct (C6_sequencing_encoding brewing reordering ["b"; "a"; "c"])
    as [Hcommit [_ Hback]].
  split.
  - exact (proj1 (Hcommit eq_refl)).
  - apply Hback; [discriminate|].
    intros x [<-|[<-|[<-|[]]]]; split; reflexivity.
Defined.

(** Claim C6 as stated fails: no item of [["a ||"; "b"]] contains the
    separator, and splitting its encoding gives another list; the empty
    working list does not come back either. *)
Lemma C6_roundtrip_fails :
  (forall x, In x ["a ||"; "b"] -> JsString.includes " || " x = false)
  /\ JsString.join " || " ["a ||"; "b"] = "a || || b"
  /\ JsString.split " || " (JsString.join " || " ["a ||"; "b"]) = ["a"; "|| b"]
  /\ JsString.split " || " (JsString.join " || " ["a ||"; "b"]) <> ["a ||"; "b"]
  /\ JsString.split " || " (JsString.join " || " []) = [""].
Proof.
  split; [|split; [reflexivity|split; [reflexivity|split; [discriminate|reflexivity]]]].
  intros x [<-|[<-|[]]]; reflexivity.
Qed.

Example join_bac :
  JsString.join " || " ["b"; "a"; "c"] = "b || a || c".
Proof. reflexivity. Qed.

Example split_bac :
  JsString.split " || " "b || a || c" = ["b"; "a"; "c"].
Proof. reflexivity. Qed.

Example split_trailing : JsString.split " || " "a || " = ["a"; ""].
Proof. reflexivity. Qed.

Example trim_both_ends : JsString.trim "  a b  " = "a b".
Proof. reflexivity. Qed.

Example matching_encoding :
  QuizScreen.encode_matching
    (QuizScreen.match_set
       (QuizScreen.match_spread
          (QuizScreen.match_set (QuizScreen.match_spread []) "Paris" "France"))
       "Berlin" "Germany")
  = "Paris -> France, Berlin -> Germany".
Proof. reflexivity. Qed.

Example entries_numeric_keys_first :
  QuizScreen.answers_entries [(7, "g"); (-1, "m"); (2, "b")]%Z
  = [(2, "b"); (7, "g"); (-1, "m")]%Z.
Proof. reflexivity. Qed.

(** ** Finalization, timeout and the working list: the claims *)

Section SessionClaims.

Variable sort_random : Engine.RandomSort.
Variable questions : list Question.
Variable timeLimit : Z.

Lemma go_to_frame (st st' : QuizScreen.State) (i : nat) :
  QuizScreen.go_to sort_random questions st i = Some st' ->
  QuizScreen.answers st' = QuizScreen.answers st
  /\ QuizScreen.submitted st' = QuizScreen.submitted st.
Proof.
  unfold QuizScreen.go_to.
  destruct (i =? QuizScreen.currentIdx st)%nat; [now intros [= <-]|].
  destruct (QuizScreen.currentQuestion questions _) as [q|]; [|discriminate].
  intros [= <-].
  destruct (init_effect_frame sort_random q (QuizScreen.setCurrentIdx st i))
    as [Ea [_ [Eo _]]].
  now rewrite Ea, Eo.
Qed.

(** A step hands nothing to [onSubmit], or the finalization of the state it
    starts from. *)
Lemma step_submitted (st st' : QuizScreen.State) (ev : QuizScreen.Event)
  (q : Question) :
  QuizScreen.currentQuestion questions st = Some q ->
  QuizScreen.step sort_random questions timeLimit st ev = Some st' ->
  QuizScreen.submitted st' = QuizScreen.submitted st
  \/ QuizScreen.submitted st'
     = QuizScreen.submitted st ++ [QuizScreen.getFormattedAnswers questions q st].
Proof.
  intros Hq. unfold QuizScreen.step.
  destruct (QuizScreen.enabled questions st ev); [|discriminate].
  unfold QuizScreen.handle. rewrite Hq.
  destruct ev as [val|index direction|l r| | |].
  - intros [= <-]. now left.
  - intros [= <-]. now left.
  - intros [= <-]. now left.
  - unfold QuizScreen.handleNext. rewrite Hq.
    set (st1 := if (_ || _)%bool then QuizScreen.saveComplexAnswer q st else st).
    assert (E1 : QuizScreen.submitted st1 = QuizScreen.submitted st).
    { unfold st1, QuizScreen.saveComplexAnswer.
      destruct (_ || _)%bool; [|reflexivity]. now destruct (type q). }
    destruct (QuizScreen.isLastQuestion questions st).
    + intros [= <-]. right. simpl. now rewrite E1.
    + intros H. apply go_to_frame in H as [_ H]. left. congruence.
  - intros H. apply go_to_frame in H as [_ H]. now left.
  - unfold QuizScreen.tick, QuizScreen.watch_effect.
    destruct (_ =? _)%Z.
    + intros [= <-]. left. now destruct (_ <=? _)%Z.
    + destruct (_ && _)%bool.
      * assert (Hq' : QuizScreen.currentQuestion questions
                        (if (QuizScreen.timeLeft st <=? 1)%Z
                         then QuizScreen.setTimeLeft st 0 false
                         else QuizScreen.setTimeLeft st
                                (JsNumber.round (QuizScreen.timeLeft st - 1))
                                (QuizScreen.interval st)) = Some q)
          by (now destruct (_ <=? _)%Z).
        rewrite Hq'. intros [= <-]. right. now destruct (_ <=? _)%Z.
      * intros [= <-]. left. now destruct (_ <=? _)%Z.
Qed.

(** What the mount hands to [onSubmit]: nothing, or the finalization of the
    state the initialization effect left. *)
Lemma mount_submitted (r : Random.Tape) (st : QuizScreen.State) :
  QuizScreen.mount sort_random questions timeLimit r = Some st ->
  QuizScreen.submitted st = []
  \/ exists q st1,
       Spec.answers_ok questions st1
       /\ QuizScreen.currentQuestion questions st1 = Some q
       /\ QuizScreen.submitted st
          = [QuizScreen.getFormattedAnswers questions q st1].
Proof.
  unfold QuizScreen.mount.
  match goal with
  | |- context [QuizScreen.currentQuestion questions ?s] => set (st0 := s)
  end.
  destruct (QuizScreen.currentQuestion questions st0) as [q|] eqn:Hq;
    [|discriminate].
  destruct (init_effect_frame sort_random q st0) as [Ea [Ei [Eo _]]].
  unfold QuizScreen.watch_effect.
  destruct (_ && _)%bool; [|intros [= <-]; left; exact Eo].
  destruct (QuizScreen.currentQuestion questions
              (QuizScreen.init_effect sort_random q st0)) as [q'|] eqn:Hq';
    [|discriminate].
  intros [= <-]. right. exists q', (QuizScreen.init_effect sort_random q st0).
  split; [|split; [exact Hq'|simpl; now rewrite Eo]].
  unfold Spec.answers_ok. rewrite Ea, Ei.
  split; [constructor|split; [intros i []|]].
  apply nth_error_Some. unfold QuizScreen.currentQuestion in Hq. congruence.
Qed.

(** With plain identities, every answer list handed to [onSubmit] has one
    answer per identity. *)
Lemma reachable_submitted_ok (st : QuizScreen.State) :
  Spec.plain_ids questions ->
  QuizScreen.reachable sort_random questions timeLimit st ->
  Forall (Spec.one_answer_per_identity questions) (QuizScreen.submitted st).
Proof.
  intros Hplain. induction 1 as [r st Hm|st ev st' Hr IH Hstep].
  - destruct (mount_submitted r st Hm) as [E|[q [st1 [Hok [Hq E]]]]];
      rewrite E; [constructor|].
    constructor; [|constructor].
    now apply (finalization_identities questions st1 q).
  - destruct (reachable_current sort_random questions timeLimit st Hr) as [q Hq].
    destruct (step_submitted st st' ev q Hq Hstep) as [E|E]; rewrite E;
      [assumption|].
    apply Forall_app. split; [assumption|]. constructor; [|constructor].
    apply (finalization_identities questions st q Hplain); [|exact Hq].
    now apply (reachable_answers_ok sort_random questions timeLimit).
Qed.

(** Claim C1, as the code has it.  For a question list whose identities are
    plain (binary64 integers below 10^21 in absolute value, which their keys
    in the answer map are read back as), in every reachable state the
    finalization gives one answer per question identity (no identity twice,
    every identity of the question list, no other), hence exactly as many
    answers as questions when the identities are pairwise distinct.  The
    current question is answered by its encoded state, every other question
    by what the answer map holds for it, and by the empty string when the map
    holds nothing.  Every list a step hands to [onSubmit], by the last
    question or by the timer, is this finalization, and every list handed
    over so far has one answer per identity. *)
Theorem C1_finalization_one_answer_per_identity (st : QuizScreen.State) :
  Spec.plain_ids questions ->
  QuizScreen.reachable sort_random questions timeLimit st ->
  exists q,
    QuizScreen.currentQuestion questions st = Some q
    /\ Spec.one_answer_per_identity questions
         (QuizScreen.getFormattedAnswers questions q st)
    /\ (NoDup (Spec.ids questions) ->
        List.length (QuizScreen.getFormattedAnswers questions q st)
        = List.length questions)
    /\ (forall a, In a (QuizScreen.getFormattedAnswers questions q st) ->
          answer a
          = if (questionId a =? id q)%Z then Spec.current_answer q st
            else geminiService.opt_string
                   (QuizScreen.answers_get (QuizScreen.answers st) (questionId a)))
    /\ (forall a, In a (QuizScreen.getFormattedAnswers questions q st) ->
          questionId a <> id q ->
          QuizScreen.answers_get (QuizScreen.answers st) (questionId a) = None ->
          answer a = "")
    /\ (forall ev st',
          QuizScreen.step sort_random questions timeLimit st ev = Some st' ->
          QuizScreen.submitted st' = QuizScreen.submitted st
          \/ QuizScreen.submitted st'
             = QuizScreen.submitted st
               ++ [QuizScreen.getFormattedAnswers questions q st])
    /\ Forall
         (fun out =>
            Spec.one_answer_per_identity questions out
            /\ (NoDup (Spec.ids questions) ->
                List.length out = List.length questions))
         (QuizScreen.submitted st).
Proof.
  intros Hplain Hr.
  destruct (reachable_current sort_random questions timeLimit st Hr) as [q Hq].
  pose proof (reachable_answers_ok sort_random questions timeLimit st Hr) as Hok.
  pose proof (finalization_identities questions st q Hplain Hok Hq) as Hone.
  pose proof (reachable_submitted_ok st Hplain Hr) as Hout.
  pose proof (currentQuestion_In questions st q Hq) as Hin.
  destruct Hok as [Hnd [Hincl Hidx]].
  assert (Hans : forall a,
             In a (QuizScreen.getFormattedAnswers questions q st) ->
             answer a
             = if (questionId a =? id q)%Z then Spec.current_answer q st
               else geminiService.opt_string
                      (QuizScreen.answers_get (QuizScreen.answers st)
                         (questionId a)))
    by (intros a Ha; now apply (getFormattedAnswers_answer questions)).
  exists q. repeat split; try (exact Hq); try (apply Hone); try (exact Hans).
  - intros Hdistinct. now apply (one_answer_per_identity_length questions).
  - intros a Ha Hne Hnone. rewrite (Hans a Ha), Hnone.
    apply Z.eqb_neq in Hne. now rewrite Hne.
  - intros ev st'. now apply step_submitted.
  - apply Forall_forall. intros out Hmem.
    rewrite Forall_forall in Hout. specialize (Hout out Hmem).
    split; [assumption|].
    intros Hdistinct. now apply (one_answer_per_identity_length questions).
Qed.

(** Claim C10, as the code has it.  Given that the engine's sort returns the
    elements it was given, while a sequencing question is the current one:
    if the question has items, the working list is a permutation of them, of
    the same length; the initialization effect leaves a permutation of them,
    and a move of an item of the list exchanges it with its neighbour or, at
    the boundary, does nothing.  If the question has no items, the
    initialization effect leaves the working list as it finds it.  In both
    cases the answer committed when the question is left, and the one
    finalization gives for it when the identities are plain, is the working
    list joined by the separator. *)
Theorem C10_working_list_is_permutation (st : QuizScreen.State) (q : Question) :
  Engine.permutes sort_random ->
  QuizScreen.reachable sort_random questions timeLimit st ->
  QuizScreen.currentQuestion questions st = Some q ->
  type q = SEQUENCING ->
  (forall items, sequencingItems q = Some items ->
     Permutation items (QuizScreen.sequenceItems st)
     /\ List.length (QuizScreen.sequenceItems st) = List.length items
     /\ (forall s,
           Permutation items
             (QuizScreen.sequenceItems (QuizScreen.init_effect sort_random q s)))
     /\ (forall index direction,
           index < List.length (QuizScreen.sequenceItems st) ->
           Permutation items
             (QuizScreen.moveItem (QuizScreen.sequenceItems st) index direction)
           /\ List.length
                (QuizScreen.moveItem (QuizScreen.sequenceItems st) index
                   direction)
              = List.length items))
  /\ (sequencingItems q = None ->
      forall s,
        QuizScreen.sequenceItems (QuizScreen.init_effect sort_random q s)
        = QuizScreen.sequenceItems s)
  /\ QuizScreen.moveItem (QuizScreen.sequenceItems st) 0 QuizScreen.up
     = QuizScreen.sequenceItems st
  /\ QuizScreen.moveItem (QuizScreen.sequenceItems st)
       (List.length (QuizScreen.sequenceItems st) - 1) QuizScreen.down
     = QuizScreen.sequenceItems st
  /\ (forall st',
        QuizScreen.step sort_random questions timeLimit st QuizScreen.Next
        = Some st' ->
        QuizScreen.answers_get (QuizScreen.answers st') (id q)
        = Some (JsString.join " || " (QuizScreen.sequenceItems st)))
  /\ (Spec.plain_ids questions ->
      forall a, In a (QuizScreen.getFormattedAnswers questions q st) ->
        questionId a = id q ->
        answer a = JsString.join " || " (QuizScreen.sequenceItems st)).
Proof.
  intros Hsorts Hr Hq Ht.
  pose proof (reachable_answers_ok sort_random questions timeLimit st Hr)
    as [Hnd [Hincl _]].
  pose proof (reachable_sequence_ok sort_random questions timeLimit Hsorts st Hr)
    as Hseq.
  split; [|split; [|split; [|split; [|split]]]].
  - intros items Hi.
    pose proof (Hseq q items Hq Ht Hi) as P.
    split; [exact P|]. split; [symmetry; now apply Permutation_length|].
    split; [intros s; now apply init_effect_sequence|].
    intros index direction Hidx.
    assert (P' : Permutation items
                   (QuizScreen.moveItem (QuizScreen.sequenceItems st) index direction))
      by (etransitivity; [exact P|now apply moveItem_perm]).
    split; [exact P'|]. symmetry. now apply Permutation_length.
  - intros Hn s. unfold QuizScreen.init_effect. now rewrite Ht, Hn.
  - reflexivity.
  - unfold QuizScreen.moveItem.
    replace (Z.of_nat (List.length (QuizScreen.sequenceItems st) - 1)
             <? Z.of_nat (List.length (QuizScreen.sequenceItems st)) - 1)%Z
      with false by (symmetry; apply Z.ltb_ge; lia).
    reflexivity.
  - intros st'. unfold QuizScreen.step, QuizScreen.enabled, QuizScreen.handle.
    rewrite Hq. unfold QuizScreen.handleNext. rewrite Hq, Ht.
    cbn [QuestionType_eqb orb].
    pose proof (saveComplexAnswer_sequencing q st Ht) as Hsave.
    destruct (QuizScreen.isLastQuestion questions st).
    + intros [= <-]. exact Hsave.
    + intros H. apply go_to_frame in H as [Ea _]. now rewrite Ea.
  - intros Hplain a Ha Hid.
    rewrite (getFormattedAnswers_answer questions q st a Hplain Hincl
               (currentQuestion_In questions st q Hq) Hnd Ha).
    apply Z.eqb_eq in Hid. rewrite Hid.
    unfold Spec.current_answer. now rewrite Ht.
Qed.

End SessionClaims.

Section TimeoutClaim.

Variable sort_random : Engine.RandomSort.
Variable questions : list Question.

(** The state a one-minute session starts in. *)
Lemma mount_one_minute (r : Random.Tape) (st0 : QuizScreen.State) :
  QuizScreen.mount sort_random questions 1 r = Some st0 ->
  exists q0,
    nth_error questions 0 = Some q0
    /\ QuizScreen.currentQuestion questions st0 = Some q0
    /\ QuizScreen.answers st0 = []
    /\ QuizScreen.submitted st0 = []
    /\ QuizScreen.timeLeft st0 = 60%Z
    /\ QuizScreen.interval st0 = true
    /\ Spec.current_answer q0 st0
       = match type q0 with
         | SEQUENCING => JsString.join " || " (QuizScreen.sequenceItems st0)
         | _ => ""
         end
    /\ (type q0 = SEQUENCING -> sequencingItems q0 = None ->
        QuizScreen.sequenceItems st0 = []).
Proof.
  unfold QuizScreen.mount.
  match goal with
  | |- context [QuizScreen.currentQuestion questions ?s] => set (s0 := s)
  end.
  unfold QuizScreen.currentQuestion at 1. simpl QuizScreen.currentIdx.
  destruct (nth_error questions 0) as [q0|] eqn:Hq; [|discriminate].
  destruct (init_effect_frame sort_random q0 s0) as [Ea [Ei [Eo [Et Ev]]]].
  unfold QuizScreen.watch_effect. rewrite Et. simpl.
  intros [= <-]. exists q0.
  split; [reflexivity|]. split.
  { unfold QuizScreen.currentQuestion. now rewrite Ei. }
  split; [exact Ea|]. split; [exact Eo|]. split; [exact Et|].
  split; [exact Ev|]. split.
  - unfold Spec.current_answer. rewrite Ea.
    unfold QuizScreen.init_effect.
    destruct (type q0); try reflexivity;
      destruct (sequencingItems q0) as [items|]; reflexivity.
  - intros Ht Hn. unfold QuizScreen.init_effect. now rewrite Ht, Hn.
Qed.

(** Claim C2, as the code has it.  A session of one minute in which nothing
    happens but the timer, on a question list whose identities are plain: no
    answer list is submitted during the first 59 firings; the 60th clears the
    interval and submits one list, after which the timer cannot fire, so that
    no run of firings submits twice.  The list has one answer per question
    identity (as many answers as questions when the identities are pairwise
    distinct).  Every answer is the empty string, except that of the first
    question when it is a sequencing question: its answer is its working
    list joined by the separator, and that list is a permutation of its
    items when the engine's sort returns what it was given. *)
Theorem C2_timeout_after_one_minute (r : Random.Tape) (st0 : QuizScreen.State) :
  Spec.plain_ids questions ->
  QuizScreen.mount sort_random questions 1 r = Some st0 ->
  exists q0 st out,
    nth_error questions 0 = Some q0
    /\ (forall n, n < 60 ->
          exists s,
            QuizScreen.run sort_random questions 1 st0 (repeat QuizScreen.Tick n)
            = Some s
            /\ QuizScreen.submitted s = [])
    /\ QuizScreen.run sort_random questions 1 st0 (repeat QuizScreen.Tick 60)
       = Some st
    /\ QuizScreen.submitted st = [out]
    /\ QuizScreen.interval st = false
    /\ QuizScreen.enabled questions st QuizScreen.Tick = false
    /\ (forall n, 60 < n ->
          QuizScreen.run sort_random questions 1 st0 (repeat QuizScreen.Tick n)
          = None)
    /\ Spec.one_answer_per_identity questions out
    /\ (NoDup (Spec.ids questions) -> List.length out = List.length questions)
    /\ (forall a, In a out ->
          answer a
          = if (questionId a =? id q0)%Z
            then match type q0 with
                 | SEQUENCING => JsString.join " || " (QuizScreen.sequenceItems st0)
                 | _ => ""
                 end
            else "")
    /\ (Engine.permutes sort_random ->
        forall items, type q0 = SEQUENCING -> sequencingItems q0 = Some items ->
          Permutation items (QuizScreen.sequenceItems st0))
    /\ (type q0 = SEQUENCING -> sequencingItems q0 = None ->
        QuizScreen.sequenceItems st0 = []).
Proof.
  intros Hplain Hm.
  pose proof (QuizScreen.reachable_mount sort_random questions 1 r st0 Hm) as Hr.
  pose proof (reachable_answers_ok sort_random questions 1 st0 Hr) as Hok.
  destruct (mount_one_minute r st0 Hm)
    as [q0 [Hq0 [Hq [Ea [Eo [Et [Ei [Hcur Hnone]]]]]]]].
  destruct (countdown sort_random questions 1 ltac:(lia) st0 q0 59 Hq Ei Et
              ltac:(reflexivity))
    as [Hearly [Hlast Hafter]].
  pose proof (finalization_identities questions st0 q0 Hplain Hok Hq) as Hone.
  destruct Hok as [Hnd [Hincl _]].
  exists q0. eexists. exists (QuizScreen.getFormattedAnswers questions q0 st0).
  split; [exact Hq0|]. split.
  { intros n Hn. eexists. split; [apply Hearly; lia|]. exact Eo. }
  split; [exact Hlast|]. split; [simpl; now rewrite Eo|].
  split; [reflexivity|]. split; [now apply tick_disabled|].
  split; [exact Hafter|]. split; [exact Hone|]. split.
  { intros Hd. now apply (one_answer_per_identity_length questions). }
  split; [|split; [|exact Hnone]].
  - intros a Ha.
    rewrite (getFormattedAnswers_answer questions q0 st0 a Hplain Hincl
               (currentQuestion_In questions st0 q0 Hq) Hnd Ha).
    rewrite Hcur, Ea. reflexivity.
  - intros Hsorts items Ht Hi.
    exact (reachable_sequence_ok sort_random questions 1 Hsorts st0 Hr
             q0 items Hq Ht Hi).
Qed.

End TimeoutClaim.

(** ** The claims on sample sessions *)

Lemma reachable_run (sort_random : Engine.RandomSort)
  (questions : list Question) (timeLimit : Z)
  (evs : list QuizScreen.Event) (st st' : QuizScreen.State) :
  QuizScreen.reachable sort_random questions timeLimit st ->
  QuizScreen.run sort_random questions timeLimit st evs = Some st' ->
  QuizScreen.reachable sort_random questions timeLimit st'.
Proof.
  revert st; induction evs as [|ev evs IH]; intros st Hr; simpl.
  - now intros [= <-].
  - destruct (QuizScreen.step sort_random questions timeLimit st ev) as [s|] eqn:E;
      [|discriminate].
    apply IH.
    now apply (QuizScreen.reachable_step sort_random questions timeLimit st ev).
Qed.

Lemma quiz_started_reachable :
  QuizScreen.reachable Engine.v8 quiz 0 (started quiz 0).
Proof.
  apply (QuizScreen.reachable_mount Engine.v8 quiz 0 zero_tape).
  vm_compute. reflexivity.
Qed.

Lemma quiz_after_reachable (evs : list QuizScreen.Event) :
  QuizScreen.run Engine.v8 quiz 0 (started quiz 0) evs = Some (after quiz 0 evs) ->
  QuizScreen.reachable Engine.v8 quiz 0 (after quiz 0 evs).
Proof. apply reachable_run, quiz_started_reachable. Qed.

Lemma quiz_after_next :
  QuizScreen.run Engine.v8 quiz 0 (started quiz 0) [QuizScreen.Next]
  = Some (after quiz 0 [QuizScreen.Next]).
Proof. vm_compute. reflexivity. Qed.

Lemma quiz_after_moves :
  QuizScreen.run Engine.v8 quiz 0 (started quiz 0)
    [QuizScreen.MoveItem 0 QuizScreen.down; QuizScreen.MoveItem 2 QuizScreen.up]
  = Some (after quiz 0 [QuizScreen.MoveItem 0 QuizScreen.down;
                        QuizScreen.MoveItem 2 QuizScreen.up]).
Proof. vm_compute. reflexivity. Qed.

Lemma quiz_mount_one_minute :
  QuizScreen.mount Engine.v8 quiz 1 zero_tape = Some (started quiz 1).
Proof. vm_compute. reflexivity. Qed.

Lemma quiz_distinct : NoDup (Spec.ids quiz).
Proof.
  repeat constructor; simpl; intuition discriminate.
Qed.

Lemma quiz_plain : Spec.plain_ids quiz.
Proof. intros q [<-|[<-|[]]]; reflexivity. Qed.

Lemma C1_finalization_one_answer_per_identity_witness :
  exists q,
    QuizScreen.currentQuestion quiz (after quiz 0 [QuizScreen.Next]) = Some q
    /\ List.length
         (QuizScreen.getFormattedAnswers quiz q (after quiz 0 [QuizScreen.Next]))
       = 2.
Proof.
  destruct (C1_finalization_one_answer_per_identity Engine.v8 quiz 0
              (after quiz 0 [QuizScreen.Next]) quiz_plain
              (quiz_after_reachable [QuizScreen.Next] quiz_after_next))
    as [q [Hq [_ [Hlen _]]]].
  exists q. split; [exact Hq|exact (Hlen quiz_distinct)].
Defined.

(** Claim C1 as stated fails: two questions of one identity are finalized
    into a single answer. *)
Lemma C1_two_questions_one_answer :
  List.length twins = 2
  /\ QuizScreen.mount Engine.v8 twins 0 zero_tape = Some (started twins 0)
  /\ QuizScreen.run Engine.v8 twins 0 (started twins 0)
       [QuizScreen.Next; QuizScreen.Next]
     = Some (after twins 0 [QuizScreen.Next; QuizScreen.Next])
  /\ QuizScreen.submitted (after twins 0 [QuizScreen.Next; QuizScreen.Next])
     = [[{| questionId := 1; answer := "" |}]].
Proof.
  split; [reflexivity|].
  split; [vm_compute; reflexivity|].
  split; vm_compute; reflexivity.
Qed.

(** What the hypothesis on the identities keeps out: the key of an identity
    from 10^21 on is in exponent form, and [parseInt] reads its first digit.
    The answer typed for such a question is submitted under the identity 1,
    and the question itself gets a blank answer. *)
Example key_of_large_identity :
  JsNumber.toString (10 ^ 21) = "1e+21"
  /\ QuizScreen.parseInt_key (10 ^ 21) = 1%Z
  /\ QuizScreen.submitted
       (after [far] 0 [QuizScreen.Answer "Paris"; QuizScreen.Next])
     = [[{| questionId := 1; answer := "Paris" |};
         {| questionId := 10 ^ 21; answer := "" |}]].
Proof. repeat split; vm_compute; reflexivity. Qed.

Lemma C2_timeout_after_one_minute_witness :
  exists out,
    QuizScreen.submitted (after quiz 1 (repeat QuizScreen.Tick 60)) = [out]
    /\ List.length out = 2.
Proof.
  destruct (C2_timeout_after_one_minute Engine.v8 quiz zero_tape (started quiz 1)
              quiz_plain quiz_mount_one_minute)
    as [q0 [st [out [_ [_ [Hrun [Hsub [_ [_ [_ [_ [Hlen _]]]]]]]]]]]].
  exists out. split; [|exact (Hlen quiz_distinct)].
  unfold after. rewrite Hrun. exact Hsub.
Defined.

(** Claim C2 as stated fails: the session times out on a sequencing question
    nobody touched, and its answer is not empty (it is the three items in the
    order the engine's sort left them in: with the draws of [zero_tape] every
    comparison is negative, and V8 reverses the array). *)
Lemma C2_untouched_sequencing_not_empty :
  QuizScreen.mount Engine.v8 quiz 1 zero_tape = Some (started quiz 1)
  /\ QuizScreen.run Engine.v8 quiz 1 (started quiz 1) (repeat QuizScreen.Tick 60)
     = Some (after quiz 1 (repeat QuizScreen.Tick 60))
  /\ QuizScreen.submitted (after quiz 1 (repeat QuizScreen.Tick 60))
     = [[{| questionId := 3; answer := "pour || steep || boil" |};
         {| questionId := 1; answer := "" |}]].
Proof.
  split; [vm_compute; reflexivity|].
  split; vm_compute; reflexivity.
Qed.

Lemma C10_working_list_is_permutation_witness :
  Permutation ["boil"; "steep"; "pour"]
    (QuizScreen.sequenceItems
       (after quiz 0 [QuizScreen.MoveItem 0 QuizScreen.down;
                      QuizScreen.MoveItem 2 QuizScreen.up]))
  /\ QuizScreen.sequenceItems
       (after quiz 0 [QuizScreen.MoveItem 0 QuizScreen.down;
                      QuizScreen.MoveItem 2 QuizScreen.up])
     = ["steep"; "boil"; "pour"].
Proof.
  split; [|vm_compute; reflexivity].
  apply (C10_working_list_is_permutation Engine.v8 quiz 0
           (after quiz 0 [QuizScreen.MoveItem 0 QuizScreen.down;
                          QuizScreen.MoveItem 2 QuizScreen.up])
           brewing).
  - exact v8_permutes.
  - apply quiz_after_reachable, quiz_after_moves.
  - vm_compute. reflexivity.
  - reflexivity.
  - reflexivity.
Defined.

(** Claim C10 as stated fails: for a sequencing question that has no items,
    the initialization effect leaves the working list as the question before
    left it, and that list is committed as its answer. *)
Lemma C10_question_without_items_keeps_the_list :
  QuizScreen.mount Engine.v8 unlisted 0 zero_tape = Some (started unlisted 0)
  /\ QuizScreen.run Engine.v8 unlisted 0 (started unlisted 0)
       [QuizScreen.Next; QuizScreen.Next]
     = Some (after unlisted 0 [QuizScreen.Next; QuizScreen.Next])
  /\ QuizScreen.currentQuestion unlisted (after unlisted 0 [QuizScreen.Next])
     = Some bare
  /\ type bare = SEQUENCING
  /\ sequencingItems bare = None
  /\ QuizScreen.sequenceItems (after unlisted 0 [QuizScreen.Next])
     = ["pour"; "steep"; "boil"]
  /\ QuizScreen.submitted (after unlisted 0 [QuizScreen.Next; QuizScreen.Next])
     = [[{| questionId := 3; answer := "pour || steep || boil" |};
         {| questionId := 5; answer := "pour || steep || boil" |}]].
Proof.
  split; [vm_compute; reflexivity|].
  split; [vm_compute; reflexivity|].
  repeat split; vm_compute; reflexivity.
Qed.

(** What [moveItem] would do with an index past the end, which no row of the
    rendered list carries: the array grows by an [undefined] slot. *)
Example moveItem_past_the_end :
  QuizScreen.moveItem ["a"; "b"] 2 QuizScreen.up = ["a"; ""; "b"].
Proof. reflexivity. Qed.

Example moveItem_down_first :
  QuizScreen.moveItem ["a"; "b"; "c"] 0 QuizScreen.down = ["b"; "a"; "c"].
Proof. reflexivity. Qed.

(** * Further properties of the code *)

(** ** The session: mounting, navigation and the timer *)

Section SessionMore.

Variable sort_random : Engine.RandomSort.
Variable questions : list Question.
Variable timeLimit : Z.

Abbreviation currentQuestion := (QuizScreen.currentQuestion questions).
Abbreviation step := (QuizScreen.step sort_random questions timeLimit).
Abbreviation reachable := (QuizScreen.reachable sort_random questions timeLimit).

Lemma init_effect_matching (q : Question) (st : QuizScreen.State) :
  QuizScreen.matchSelections (QuizScreen.init_effect sort_random q st)
  = match type q with
    | MATCHING => []
    | _ => QuizScreen.matchSelections st
    end.
Proof.
  unfold QuizScreen.init_effect.
  destruct (type q), (sequencingItems q) as [items|];
    try destruct (sort_random items (QuizScreen.rnd st));
    reflexivity.
Qed.

(** A change of question: where it leads and what it keeps. *)
Lemma go_to_spec (st st' : QuizScreen.State) (i : nat) :
  QuizScreen.go_to sort_random questions st i = Some st' ->
  QuizScreen.currentIdx st' = i
  /\ QuizScreen.answers st' = QuizScreen.answers st
  /\ QuizScreen.submitted st' = QuizScreen.submitted st
  /\ QuizScreen.timeLeft st' = QuizScreen.timeLeft st
  /\ QuizScreen.interval st' = QuizScreen.interval st
  /\ (i <> QuizScreen.currentIdx st ->
      forall q, nth_error questions i = Some q ->
      QuizScreen.matchSelections st'
      = match type q with
        | MATCHING => []
        | _ => QuizScreen.matchSelections st
        end).
Proof.
  unfold QuizScreen.go_to.
  destruct (Nat.eqb_spec i (QuizScreen.currentIdx st)) as [E|Hne].
  - intros [= <-]. repeat split; auto. congruence.
  - destruct (QuizScreen.currentQuestion questions _) as [q|] eqn:Hq;
      [|discriminate].
    intros [= <-].
    destruct (init_effect_frame sort_random q (QuizScreen.setCurrentIdx st i))
      as [Ea [Ei [Eo [Et Ev]]]].
    repeat split; try assumption.
    intros _ q' Hq'. unfold QuizScreen.currentQuestion in Hq. simpl in Hq.
    assert (q' = q) by congruence. subst q'.
    rewrite init_effect_matching. now destruct (type q).
Qed.

Lemma go_to_defined (st : QuizScreen.State) (i : nat) :
  i < List.length questions ->
  exists st', QuizScreen.go_to sort_random questions st i = Some st'.
Proof.
  intros Hi. unfold QuizScreen.go_to.
  destruct (i =? QuizScreen.currentIdx st)%nat; [eauto|].
  unfold QuizScreen.currentQuestion. simpl.
  destruct (nth_error questions i) eqn:E; [eauto|].
  apply nth_error_None in E. lia.
Qed.

Lemma not_last_next_inside (st : QuizScreen.State) :
  QuizScreen.currentIdx st < List.length questions ->
  QuizScreen.isLastQuestion questions st = false ->
  QuizScreen.currentIdx st + 1 < List.length questions.
Proof.
  unfold QuizScreen.isLastQuestion. intros Hi Hl.
  apply Z.eqb_neq in Hl. lia.
Qed.

(** What [Next] does: it commits the state of a sequencing or matching
    question, then submits on the last question and moves on otherwise. *)
Lemma step_next_spec (st st' : QuizScreen.State) (q : Question) :
  currentQuestion st = Some q ->
  step st QuizScreen.Next = Some st' ->
  QuizScreen.answers st'
  = QuizScreen.answers
      (if (QuestionType_eqb (type q) SEQUENCING
           || QuestionType_eqb (type q) MATCHING)%bool
       then QuizScreen.saveComplexAnswer q st else st)
  /\ QuizScreen.timeLeft st' = QuizScreen.timeLeft st
  /\ QuizScreen.interval st' = QuizScreen.interval st
  /\ if QuizScreen.isLastQuestion questions st
     then QuizScreen.currentIdx st' = QuizScreen.currentIdx st
          /\ QuizScreen.matchSelections st' = QuizScreen.matchSelections st
          /\ QuizScreen.submitted st'
             = QuizScreen.submitted st
               ++ [QuizScreen.getFormattedAnswers questions q st]
     else QuizScreen.currentIdx st' = QuizScreen.currentIdx st + 1
          /\ QuizScreen.submitted st' = QuizScreen.submitted st.
Proof.
  intros Hq. unfold QuizScreen.step, QuizScreen.enabled, QuizScreen.handle.
  rewrite Hq. unfold QuizScreen.handleNext. rewrite Hq.
  set (st1 := if (_ || _)%bool then QuizScreen.saveComplexAnswer q st else st).
  assert (E1 : QuizScreen.submitted st1 = QuizScreen.submitted st
               /\ QuizScreen.timeLeft st1 = QuizScreen.timeLeft st
               /\ QuizScreen.interval st1 = QuizScreen.interval st
               /\ QuizScreen.currentIdx st1 = QuizScreen.currentIdx st
               /\ QuizScreen.matchSelections st1 = QuizScreen.matchSelections st).
  { unfold st1, QuizScreen.saveComplexAnswer.
    destruct (_ || _)%bool; [|auto]. destruct (type q); auto. }
  destruct E1 as [Eo [Et [Ev [Ei Em]]]].
  destruct (QuizScreen.isLastQuestion questions st).
  - intros [= <-]. simpl. rewrite Eo. repeat split; assumption.
  - intros H. apply go_to_spec in H as [Hi [Ha [Hs [Ht [Hv _]]]]].
    repeat split; congruence.
Qed.

(** An event other than the timer leaves the countdown alone. *)
Lemma step_timer_frame (st st' : QuizScreen.State) (ev : QuizScreen.Event) :
  ev <> QuizScreen.Tick ->
  step st ev = Some st' ->
  QuizScreen.timeLeft st' = QuizScreen.timeLeft st
  /\ QuizScreen.interval st' = QuizScreen.interval st.
Proof.
  intros Hev Hstep.
  destruct (currentQuestion st) as [q|] eqn:Hq.
  - destruct ev as [val|index direction|l r| | |]; try congruence.
    + unfold QuizScreen.step, QuizScreen.handle in Hstep. rewrite Hq in Hstep.
      destruct (QuizScreen.enabled _ _ _); [|discriminate].
      injection Hstep as <-. auto.
    + unfold QuizScreen.step, QuizScreen.handle in Hstep. rewrite Hq in Hstep.
      destruct (QuizScreen.enabled _ _ _); [|discriminate].
      injection Hstep as <-. auto.
    + unfold QuizScreen.step, QuizScreen.handle in Hstep. rewrite Hq in Hstep.
      destruct (QuizScreen.enabled _ _ _); [|discriminate].
      injection Hstep as <-. auto.
    + destruct (step_next_spec st st' q Hq Hstep) as [_ [Ht [Hv _]]]. auto.
    + unfold QuizScreen.step, QuizScreen.handle in Hstep. rewrite Hq in Hstep.
      destruct (QuizScreen.enabled _ _ _); [|discriminate].
      apply go_to_spec in Hstep as [_ [_ [_ [Ht [Hv _]]]]]. auto.
  - unfold QuizScreen.step, QuizScreen.enabled in Hstep. rewrite Hq in Hstep.
    discriminate.
Qed.

(** What a firing of the interval leaves alone. *)
Lemma step_tick_frame (st st' : QuizScreen.State) (q : Question) :
  currentQuestion st = Some q ->
  step st QuizScreen.Tick = Some st' ->
  QuizScreen.interval st = true
  /\ QuizScreen.answers st' = QuizScreen.answers st
  /\ QuizScreen.currentIdx st' = QuizScreen.currentIdx st
  /\ QuizScreen.matchSelections st' = QuizScreen.matchSelections st.
Proof.
  intros Hq. unfold QuizScreen.step, QuizScreen.enabled, QuizScreen.handle.
  rewrite Hq. destruct (QuizScreen.interval st) eqn:Hi; [|discriminate].
  unfold QuizScreen.tick, QuizScreen.watch_effect.
  set (s := if (QuizScreen.timeLeft st <=? 1)%Z
            then QuizScreen.setTimeLeft st 0 false
            else QuizScreen.setTimeLeft st
                   (JsNumber.round (QuizScreen.timeLeft st - 1))
                   (QuizScreen.interval st)).
  assert (Hs : QuizScreen.answers s = QuizScreen.answers st
               /\ QuizScreen.currentIdx s = QuizScreen.currentIdx st
               /\ QuizScreen.matchSelections s = QuizScreen.matchSelections st)
    by (unfold s; destruct (_ <=? _)%Z; repeat split).
  destruct (_ =? _)%Z; [intros [= <-]; split; [reflexivity|exact Hs]|].
  destruct (_ && _)%bool; [|intros [= <-]; split; [reflexivity|exact Hs]].
  destruct (QuizScreen.currentQuestion questions s); [|discriminate].
  intros [= <-]. split; [reflexivity|exact Hs].
Qed.

(** What a firing of the interval does, the remaining time being below
    2^53. *)
Lemma step_tick_spec (st st' : QuizScreen.State) (q : Question) :
  (QuizScreen.timeLeft st < 2 ^ 53)%Z ->
  currentQuestion st = Some q ->
  step st QuizScreen.Tick = Some st' ->
  QuizScreen.interval st = true
  /\ QuizScreen.answers st' = QuizScreen.answers st
  /\ QuizScreen.currentIdx st' = QuizScreen.currentIdx st
  /\ QuizScreen.matchSelections st' = QuizScreen.matchSelections st
  /\ QuizScreen.timeLeft st'
     = (if (QuizScreen.timeLeft st <=? 1)%Z then 0 else QuizScreen.timeLeft st - 1)%Z
  /\ QuizScreen.interval st' = negb (QuizScreen.timeLeft st <=? 1)%Z
  /\ QuizScreen.submitted st'
     = if ((timeLimit >? 0) && negb (QuizScreen.timeLeft st =? 0)
           && (QuizScreen.timeLeft st <=? 1))%Z%bool
       then QuizScreen.submitted st
            ++ [QuizScreen.getFormattedAnswers questions q st]
       else QuizScreen.submitted st.
Proof.
  intros Hbound Hq. unfold QuizScreen.step, QuizScreen.enabled, QuizScreen.handle.
  rewrite Hq. destruct (QuizScreen.interval st) eqn:Hi; [|discriminate].
  unfold QuizScreen.tick, QuizScreen.watch_effect.
  destruct (QuizScreen.timeLeft st <=? 1)%Z eqn:Hle.
  - cbn [QuizScreen.timeLeft QuizScreen.setTimeLeft].
    rewrite (Z.eqb_sym 0). destruct (QuizScreen.timeLeft st =? 0)%Z eqn:Hz.
    + intros [= <-]. simpl. rewrite andb_false_r. repeat split; reflexivity.
    + rewrite Z.eqb_refl, andb_true_r. cbn [negb]. rewrite !andb_true_r.
      destruct (timeLimit >? 0)%Z.
      * unfold QuizScreen.currentQuestion in *. simpl. rewrite Hq.
        intros [= <-]. simpl. repeat split; reflexivity.
      * intros [= <-]. simpl. repeat split; reflexivity.
  - apply Z.leb_gt in Hle. rewrite round_small by lia.
    cbn [QuizScreen.timeLeft QuizScreen.setTimeLeft].
    replace (QuizScreen.timeLeft st - 1 =? QuizScreen.timeLeft st)%Z with false
      by (symmetry; apply Z.eqb_neq; lia).
    replace (QuizScreen.timeLeft st - 1 =? 0)%Z with false
      by (symmetry; apply Z.eqb_neq; lia).
    rewrite !andb_false_r. intros [= <-]. simpl.
    rewrite Hi. repeat split; reflexivity.
Qed.

Lemma set_In_inv {K V : Type} (key_eqb : K -> K -> bool)
  (key_eqb_eq : forall a b, key_eqb a b = true <-> a = b)
  (o : list (K * V)) (k k' : K) (v v' : V) :
  In (k', v') (JsObject.set key_eqb o k v) ->
  (k' = k /\ v' = v) \/ In (k', v') o.
Proof.
  induction o as [|[a w] o IH]; simpl.
  - intros [[= <- <-]|[]]. now left.
  - destruct (key_eqb a k) eqn:E; simpl.
    + apply key_eqb_eq in E. subst a.
      intros [[= <- <-]|H]; [now left|right; now right].
    + intros [H|H]; [right; now left|].
      destruct (IH H) as [H'|H']; [now left|right; now right].
Qed.

Lemma mem_In (x : string) (l : list string) :
  QuizScreen.mem x l = true -> In x l.
Proof.
  unfold QuizScreen.mem. rewrite existsb_exists.
  intros [y [Hy E]]. apply String.eqb_eq in E. now subst.
Qed.

Lemma currentQuestion_idx (st st' : QuizScreen.State) :
  QuizScreen.currentIdx st' = QuizScreen.currentIdx st ->
  currentQuestion st' = currentQuestion st.
Proof. unfold QuizScreen.currentQuestion. now intros ->. Qed.

(** The selections of a matching question stay within the question. *)
Lemma matching_ok_step (st st' : QuizScreen.State) (ev : QuizScreen.Event) :
  SessionSpec.matching_ok questions st ->
  step st ev = Some st' ->
  SessionSpec.matching_ok questions st'.
Proof.
  intros Hok Hstep.
  destruct (currentQuestion st) as [q|] eqn:Hq;
    [|unfold QuizScreen.step, QuizScreen.enabled in Hstep;
      rewrite Hq in Hstep; discriminate].
  assert (Hkeep : QuizScreen.currentIdx st' = QuizScreen.currentIdx st ->
                  QuizScreen.matchSelections st' = QuizScreen.matchSelections st ->
                  SessionSpec.matching_ok questions st').
  { intros Ei Em q' Hq' Ht. rewrite Em.
    rewrite (currentQuestion_idx st st' Ei) in Hq'. now apply Hok. }
  assert (Hmove : forall i, i <> QuizScreen.currentIdx st ->
                  QuizScreen.go_to sort_random questions st i = Some st' ->
                  SessionSpec.matching_ok questions st').
  { intros i Hne Hgo. apply go_to_spec in Hgo as [Hi [_ [_ [_ [_ Hm]]]]].
    intros q' Hq' Ht. unfold QuizScreen.currentQuestion in Hq'.
    rewrite Hi in Hq'. rewrite (Hm Hne q' Hq'), Ht.
    split; [constructor|intros l r []]. }
  destruct ev as [val|index direction|l r| | |].
  - unfold QuizScreen.step, QuizScreen.handle in Hstep. rewrite Hq in Hstep.
    destruct (QuizScreen.enabled _ _ _); [|discriminate].
    injection Hstep as <-. now apply Hkeep.
  - unfold QuizScreen.step, QuizScreen.handle in Hstep. rewrite Hq in Hstep.
    destruct (QuizScreen.enabled _ _ _); [|discriminate].
    injection Hstep as <-. now apply Hkeep.
  - unfold QuizScreen.step, QuizScreen.handle, QuizScreen.enabled in Hstep.
    rewrite Hq in Hstep.
    destruct (QuestionType_eqb (type q) MATCHING) eqn:Ht; [|discriminate].
    assert (Htype : type q = MATCHING) by (now destruct (type q)).
    cbn [andb] in Hstep.
    destruct (match matchingPairs q with
              | Some pairs => QuizScreen.mem l (map left pairs)
              | None => false
              end) eqn:Hl; [|discriminate].
    cbn [andb] in Hstep.
    destruct (QuizScreen.mem r ("" :: QuizScreen.rightOptions q)) eqn:Hr;
      [|discriminate].
    injection Hstep as <-.
    destruct (Hok q Hq Htype) as [Hnd Hin].
    intros q' Hq' _. unfold QuizScreen.currentQuestion in Hq', Hq.
    simpl in Hq'. assert (q' = q) by congruence. subst q'. simpl.
    unfold QuizScreen.match_set, QuizScreen.match_spread, JsObject.spread.
    split.
    + apply (NoDup_keys_set String.eqb String.eqb_eq).
      eapply Permutation_NoDup; [symmetry; apply keys_entries_perm|exact Hnd].
    + intros l' r' H.
      apply (set_In_inv String.eqb String.eqb_eq) in H.
      destruct H as [[-> ->]|H].
      * split; [|exact (mem_In _ _ Hr)].
        unfold SessionSpec.lefts. destruct (matchingPairs q); [|discriminate].
        exact (mem_In _ _ Hl).
      * apply Hin. eapply Permutation_in; [apply entries_perm|exact H].
  - destruct (step_next_spec st st' q Hq Hstep) as [_ [_ [_ H]]].
    destruct (QuizScreen.isLastQuestion questions st) eqn:Hlast.
    + destruct H as [Ei [Em _]]. now apply Hkeep.
    + unfold QuizScreen.step, QuizScreen.handle, QuizScreen.enabled in Hstep.
      rewrite Hq in Hstep. unfold QuizScreen.handleNext in Hstep.
      rewrite Hq, Hlast in Hstep.
      set (st1 := if (_ || _)%bool then QuizScreen.saveComplexAnswer q st else st)
        in Hstep.
      assert (E1 : QuizScreen.currentIdx st1 = QuizScreen.currentIdx st
                   /\ QuizScreen.matchSelections st1
                      = QuizScreen.matchSelections st).
      { unfold st1, QuizScreen.saveComplexAnswer.
        destruct (_ || _)%bool; [|auto]. destruct (type q); auto. }
      destruct E1 as [Ei Em].
      apply go_to_spec in Hstep as [Hi [_ [_ [_ [_ Hm]]]]].
      intros q' Hq' Ht. unfold QuizScreen.currentQuestion in Hq'.
      rewrite Hi in Hq'.
      rewrite (Hm ltac:(lia) q' Hq'), Ht. split; [constructor|intros ? ? []].
  - unfold QuizScreen.step, QuizScreen.handle, QuizScreen.enabled in Hstep.
    rewrite Hq in Hstep.
    destruct (Nat.eqb_spec (QuizScreen.currentIdx st) 0) as [E|Hne];
      [discriminate|].
    simpl negb in Hstep. cbv iota in Hstep.
    apply (Hmove (Nat.max 0 (QuizScreen.currentIdx st - 1))); [lia|exact Hstep].
  - destruct (step_tick_frame st st' q Hq Hstep) as [_ [_ [Ei Em]]].
    now apply Hkeep.
Qed.

Lemma matching_ok_mount (r : Random.Tape) (st : QuizScreen.State) :
  QuizScreen.mount sort_random questions timeLimit r = Some st ->
  SessionSpec.matching_ok questions st.
Proof.
  unfold QuizScreen.mount.
  match goal with
  | |- context [QuizScreen.currentQuestion questions ?s] => set (st0 := s)
  end.
  destruct (QuizScreen.currentQuestion questions st0) as [q|]; [|discriminate].
  unfold QuizScreen.watch_effect.
  assert (Hm : QuizScreen.matchSelections (QuizScreen.init_effect sort_random q st0) = []).
  { rewrite init_effect_matching. now destruct (type q). }
  destruct (_ && _)%bool.
  - destruct (QuizScreen.currentQuestion questions _); [|discriminate].
    intros [= <-]. intros q' _ _. simpl. rewrite Hm.
    split; [constructor|intros ? ? []].
  - intros [= <-]. intros q' _ _. rewrite Hm.
    split; [constructor|intros ? ? []].
Qed.

Lemma reachable_matching_ok (st : QuizScreen.State) :
  reachable st -> SessionSpec.matching_ok questions st.
Proof.
  induction 1 as [r st Hm|st ev st' _ IH Hstep].
  - now apply (matching_ok_mount r).
  - now apply (matching_ok_step st st' ev).
Qed.

End SessionMore.

Section SessionExtras.

Variable sort_random : Engine.RandomSort.
Variable questions : list Question.
Variable timeLimit : Z.

Abbreviation currentQuestion := (QuizScreen.currentQuestion questions).
Abbreviation step := (QuizScreen.step sort_random questions timeLimit).
Abbreviation reachable := (QuizScreen.reachable sort_random questions timeLimit).

Lemma mount_defined (r : Random.Tape) :
  QuizScreen.mount sort_random questions timeLimit r = None <-> questions = [].
Proof.
  unfold QuizScreen.mount.
  match goal with
  | |- context [QuizScreen.currentQuestion questions ?s] => set (st0 := s)
  end.
  unfold QuizScreen.currentQuestion at 1. simpl QuizScreen.currentIdx.
  destruct questions as [|q qs] eqn:E; simpl.
  - tauto.
  - split; [|discriminate]. unfold QuizScreen.watch_effect.
    destruct (_ && _)%bool; [|discriminate].
    unfold QuizScreen.currentQuestion.
    destruct (init_effect_frame sort_random q st0) as [_ [Ei _]]. rewrite Ei. simpl.
    discriminate.
Qed.

Lemma step_defined (st : QuizScreen.State) (ev : QuizScreen.Event) :
  reachable st -> QuizScreen.enabled questions st ev = true ->
  exists st', step st ev = Some st'.
Proof.
  intros Hr Hen.
  pose proof (reachable_answers_ok sort_random questions timeLimit st Hr) as [_ [_ Hidx]].
  destruct (reachable_current sort_random questions timeLimit st Hr) as [q Hq].
  unfold QuizScreen.step. rewrite Hen. unfold QuizScreen.handle. rewrite Hq.
  destruct ev as [val|index direction|l r| | |]; eauto.
  - unfold QuizScreen.handleNext. rewrite Hq.
    destruct (QuizScreen.isLastQuestion questions st) eqn:Hlast; [eauto|].
    apply go_to_defined.
    now apply not_last_next_inside.
  - apply go_to_defined. lia.
  - unfold QuizScreen.tick, QuizScreen.watch_effect.
    destruct (_ =? _)%Z; [eauto|].
    destruct (_ && _)%bool; [|eauto].
    assert (Hq' : QuizScreen.currentQuestion questions
                    (if (QuizScreen.timeLeft st <=? 1)%Z
                     then QuizScreen.setTimeLeft st 0 false
                     else QuizScreen.setTimeLeft st (JsNumber.round (QuizScreen.timeLeft st - 1))
                            (QuizScreen.interval st)) = Some q)
      by (now destruct (_ <=? _)%Z).
    rewrite Hq'. eauto.
Qed.

(** Property X1.  The component fails to mount exactly when the question
    list is empty (there is no first question to read).  Once mounted it
    never reads a missing question: in every reachable state every event the
    page offers leads to a next state. *)
Theorem X1_session_mounts_and_steps (r : Random.Tape) :
  (QuizScreen.mount sort_random questions timeLimit r = None <-> questions = [])
  /\ forall st ev,
       reachable st -> QuizScreen.enabled questions st ev = true ->
       exists st', step st ev = Some st'.
Proof.
  split; [apply mount_defined|apply step_defined].
Qed.

Lemma user_step_submitted (st st' : QuizScreen.State) (ev : QuizScreen.Event) :
  ev <> QuizScreen.Next -> ev <> QuizScreen.Tick ->
  step st ev = Some st' ->
  QuizScreen.submitted st' = QuizScreen.submitted st.
Proof.
  intros Hn Ht. unfold QuizScreen.step.
  destruct (QuizScreen.enabled questions st ev); [|discriminate].
  unfold QuizScreen.handle.
  destruct (QuizScreen.currentQuestion questions st) as [q|]; [|discriminate].
  destruct ev as [val|index direction|l r| | |]; try congruence.
  - now intros [= <-].
  - now intros [= <-].
  - now intros [= <-].
  - intros H. now apply go_to_spec in H.
Qed.

Lemma reachable_untimed (st : QuizScreen.State) :
  (timeLimit <= 0)%Z -> reachable st -> SessionSpec.untimed_ok timeLimit st.
Proof.
  intros Hlim. induction 1 as [r st Hm|st ev st' _ IH Hstep].
  - revert Hm. unfold QuizScreen.mount.
    match goal with
    | |- context [QuizScreen.currentQuestion questions ?s] => set (st0 := s)
    end.
    destruct (QuizScreen.currentQuestion questions st0) as [q|]; [|discriminate].
    unfold QuizScreen.watch_effect.
    replace (timeLimit >? 0)%Z with false
      by (rewrite Z.gtb_ltb; symmetry; apply Z.ltb_ge; lia).
    simpl. intros [= <-].
    destruct (init_effect_frame sort_random q st0) as [_ [_ [_ [Et Ev]]]].
    split; [rewrite Ev|rewrite Et]; simpl; [apply Z.ltb_ge; lia|reflexivity].
  - destruct IH as [Hi Ht].
    assert (Hev : ev = QuizScreen.Tick \/ ev <> QuizScreen.Tick)
      by (destruct ev; (now left) || (right; discriminate)).
    destruct Hev as [->|Hne].
    + unfold QuizScreen.step, QuizScreen.enabled in Hstep.
      destruct (QuizScreen.currentQuestion questions st); [|discriminate].
      rewrite Hi in Hstep. discriminate.
    + destruct (step_timer_frame sort_random questions timeLimit st st' ev Hne Hstep)
        as [Et Ev].
      split; congruence.
Qed.

(** Property X2.  A session without time limit (0 minutes, or less) has no
    timer: in every reachable state the interval is not set, the time cell
    holds its first value (the product [timeLimit * 60] as a binary64
    number, which is the product itself above -2^53), the timer cannot fire,
    and the only step that submits is [Next] on the last question. *)
Theorem X2_untimed_session_has_no_timer (st : QuizScreen.State) :
  (timeLimit <= 0)%Z ->
  reachable st ->
  QuizScreen.interval st = false
  /\ QuizScreen.timeLeft st = JsNumber.round (timeLimit * 60)
  /\ ((- 2 ^ 53 < timeLimit * 60)%Z ->
      QuizScreen.timeLeft st = (timeLimit * 60)%Z)
  /\ QuizScreen.enabled questions st QuizScreen.Tick = false
  /\ forall ev st',
       step st ev = Some st' ->
       QuizScreen.submitted st' <> QuizScreen.submitted st ->
       ev = QuizScreen.Next /\ QuizScreen.isLastQuestion questions st = true.
Proof.
  intros Hlim Hr.
  destruct (reachable_untimed st Hlim Hr) as [Hi Ht].
  split; [exact Hi|]. split; [exact Ht|].
  split; [intros Hb; rewrite Ht; apply round_small; lia|].
  split; [now apply tick_disabled|].
  intros ev st' Hstep Hsub.
  destruct (reachable_current sort_random questions timeLimit st Hr) as [q Hq].
  destruct ev as [val|index direction|l r| | |].
  - exfalso. apply Hsub.
    eapply user_step_submitted; [| |exact Hstep]; discriminate.
  - exfalso. apply Hsub.
    eapply user_step_submitted; [| |exact Hstep]; discriminate.
  - exfalso. apply Hsub.
    eapply user_step_submitted; [| |exact Hstep]; discriminate.
  - split; [reflexivity|].
    destruct (step_next_spec sort_random questions timeLimit st st' q Hq Hstep)
      as [_ [_ [_ H]]].
    destruct (QuizScreen.isLastQuestion questions st); [reflexivity|].
    exfalso. apply Hsub. apply H.
  - exfalso. apply Hsub.
    eapply user_step_submitted; [| |exact Hstep]; discriminate.
  - exfalso. unfold QuizScreen.step in Hstep.
    rewrite (tick_disabled questions st Hi) in Hstep. discriminate.
Qed.

Lemma submitted_grows (st st' : QuizScreen.State) (ev : QuizScreen.Event) :
  step st ev = Some st' ->
  QuizScreen.submitted st <> [] -> QuizScreen.submitted st' <> [].
Proof.
  intros Hstep Hne.
  destruct (currentQuestion st) as [q|] eqn:Hq.
  - destruct (step_submitted sort_random questions timeLimit st st' ev q Hq Hstep) as [E|E];
      rewrite E; [assumption|].
    destruct (QuizScreen.submitted st); [congruence|discriminate].
  - unfold QuizScreen.step, QuizScreen.enabled in Hstep. rewrite Hq in Hstep.
    discriminate.
Qed.

Lemma reachable_timer_ok (st : QuizScreen.State) :
  (0 < timeLimit)%Z -> (timeLimit * 60 < 2 ^ 53)%Z ->
  reachable st -> SessionSpec.timer_ok timeLimit st.
Proof.
  intros Hlim Hbound. induction 1 as [r st Hm|st ev st' Hr IH Hstep].
  - revert Hm. unfold QuizScreen.mount.
    match goal with
    | |- context [QuizScreen.currentQuestion questions ?s] => set (st0 := s)
    end.
    destruct (QuizScreen.currentQuestion questions st0) as [q|]; [|discriminate].
    destruct (init_effect_frame sort_random q st0) as [_ [_ [Eo [Et Ev]]]].
    unfold QuizScreen.watch_effect. rewrite Et. simpl QuizScreen.timeLeft.
    rewrite round_small by lia.
    replace (timeLimit * 60 =? 0)%Z with false
      by (symmetry; apply Z.eqb_neq; lia).
    rewrite andb_false_r. intros [= <-].
    unfold SessionSpec.timer_ok. rewrite Et, Ev. simpl.
    rewrite round_small by lia.
    split; [lia|]. split; [|lia].
    split; [lia|]. intros _. apply Z.ltb_lt. lia.
  - destruct IH as [Hb [Hi Hz]].
    destruct (reachable_current sort_random questions timeLimit st Hr) as [q Hq].
    assert (Hev : ev = QuizScreen.Tick \/ ev <> QuizScreen.Tick)
      by (destruct ev; (now left) || (right; discriminate)).
    destruct Hev as [->|Hne].
    + destruct (step_tick_spec sort_random questions timeLimit st st' q
                  ltac:(lia) Hq Hstep)
        as [Hon [_ [_ [_ [Et [Ev Es]]]]]].
      apply Hi in Hon. unfold SessionSpec.timer_ok. rewrite Et, Ev, Es.
      destruct (Z.leb_spec (QuizScreen.timeLeft st) 1) as [Hle|Hgt]; simpl.
      * replace (timeLimit >? 0)%Z with true by (symmetry; apply Z.gtb_lt; lia).
        replace (QuizScreen.timeLeft st =? 0)%Z with false
          by (symmetry; apply Z.eqb_neq; lia).
        simpl. split; [lia|]. split; [split; [discriminate|lia]|].
        intros _. destruct (QuizScreen.submitted st); discriminate.
      * split; [lia|]. split; [split; [lia|reflexivity]|]. lia.
    + destruct (step_timer_frame sort_random questions timeLimit st st' ev Hne Hstep)
        as [Et Ev].
      unfold SessionSpec.timer_ok. rewrite Et, Ev.
      split; [exact Hb|]. split; [exact Hi|].
      intros H0. apply (submitted_grows st st' ev Hstep). now apply Hz.
Qed.

(** Property X3.  In a session with a time limit of fewer than 2^53 seconds
    (up to there every count of seconds is a binary64 number), whatever the
    user does between the firings of the timer: the remaining time stays
    between 0 and the limit, the interval is set exactly while time remains,
    and when no time remains the answers have been submitted.  Every firing
    takes exactly one second off, and it submits (the finalization of the
    state it fires in) exactly when one second was left. *)
Theorem X3_timed_session_countdown (st : QuizScreen.State) :
  (0 < timeLimit)%Z ->
  (timeLimit * 60 < 2 ^ 53)%Z ->
  reachable st ->
  (0 <= QuizScreen.timeLeft st <= timeLimit * 60)%Z
  /\ (QuizScreen.interval st = true <-> (0 < QuizScreen.timeLeft st)%Z)
  /\ (QuizScreen.timeLeft st = 0%Z -> QuizScreen.submitted st <> [])
  /\ forall q st',
       currentQuestion st = Some q ->
       step st QuizScreen.Tick = Some st' ->
       QuizScreen.timeLeft st' = (QuizScreen.timeLeft st - 1)%Z
       /\ QuizScreen.submitted st'
          = if (QuizScreen.timeLeft st =? 1)%Z
            then QuizScreen.submitted st
                 ++ [QuizScreen.getFormattedAnswers questions q st]
            else QuizScreen.submitted st.
Proof.
  intros Hlim Hbound Hr.
  destruct (reachable_timer_ok st Hlim Hbound Hr) as [Hb [Hi Hz]].
  split; [exact Hb|]. split; [exact Hi|]. split; [exact Hz|].
  intros q st' Hq Hstep.
  destruct (step_tick_spec sort_random questions timeLimit st st' q
              ltac:(lia) Hq Hstep)
    as [Hon [_ [_ [_ [Et [_ Es]]]]]].
  apply Hi in Hon. rewrite Et, Es.
  replace (timeLimit >? 0)%Z with true by (symmetry; apply Z.gtb_lt; lia).
  replace (QuizScreen.timeLeft st =? 0)%Z with false
    by (symmetry; apply Z.eqb_neq; lia).
  simpl.
  destruct (Z.leb_spec (QuizScreen.timeLeft st) 1) as [Hle|Hgt].
  - replace (QuizScreen.timeLeft st) with 1%Z by lia. split; reflexivity.
  - replace (QuizScreen.timeLeft st =? 1)%Z with false
      by (symmetry; apply Z.eqb_neq; lia).
    split; reflexivity.
Qed.

Lemma handleAnswer_get_same (q : Question) (st : QuizScreen.State) (v : string) :
  QuizScreen.answers_get (QuizScreen.answers (QuizScreen.handleAnswer q st v)) (id q)
  = Some v.
Proof. apply (get_set_same Z.eqb Z.eqb_eq). Qed.

Lemma handleAnswer_get_other (q : Question) (st : QuizScreen.State) (v : string)
  (i : Z) :
  i <> id q ->
  QuizScreen.answers_get (QuizScreen.answers (QuizScreen.handleAnswer q st v)) i
  = QuizScreen.answers_get (QuizScreen.answers st) i.
Proof.
  intros Hne. unfold QuizScreen.handleAnswer, QuizScreen.answers_get. simpl.
  unfold QuizScreen.answers_set, QuizScreen.answers_spread, JsObject.spread.
  rewrite (get_set_other Z.eqb Z.eqb_eq) by assumption.
  apply (get_entries Z.eqb JsObject.number_index Z.eqb_eq).
Qed.

(** Property X4.  An event writes to the answer map under the identity of
    the current question only: what the map holds for any other identity is
    the same after the step as before. *)
Theorem X4_event_writes_current_answer_only (st st' : QuizScreen.State)
  (ev : QuizScreen.Event) (q : Question) (i : Z) :
  currentQuestion st = Some q ->
  step st ev = Some st' ->
  i <> id q ->
  QuizScreen.answers_get (QuizScreen.answers st') i
  = QuizScreen.answers_get (QuizScreen.answers st) i.
Proof.
  intros Hq Hstep Hne.
  destruct ev as [val|index direction|l r| | |].
  - unfold QuizScreen.step, QuizScreen.handle in Hstep. rewrite Hq in Hstep.
    destruct (QuizScreen.enabled _ _ _); [|discriminate].
    injection Hstep as <-. now apply handleAnswer_get_other.
  - unfold QuizScreen.step, QuizScreen.handle in Hstep. rewrite Hq in Hstep.
    destruct (QuizScreen.enabled _ _ _); [|discriminate].
    now injection Hstep as <-.
  - unfold QuizScreen.step, QuizScreen.handle in Hstep. rewrite Hq in Hstep.
    destruct (QuizScreen.enabled _ _ _); [|discriminate].
    now injection Hstep as <-.
  - destruct (step_next_spec sort_random questions timeLimit st st' q Hq Hstep) as [Ea _].
    rewrite Ea. destruct (_ || _)%bool; [|reflexivity].
    unfold QuizScreen.saveComplexAnswer.
    destruct (type q); try reflexivity; now apply handleAnswer_get_other.
  - unfold QuizScreen.step, QuizScreen.handle in Hstep. rewrite Hq in Hstep.
    destruct (QuizScreen.enabled _ _ _); [|discriminate].
    apply go_to_spec in Hstep as [_ [Ea _]]. now rewrite Ea.
  - destruct (step_tick_frame sort_random questions timeLimit st st' q Hq Hstep)
      as [_ [Ea _]].
    now rewrite Ea.
Qed.

Lemma or_else_empty (s : string) : JsString.or_else s "" = s.
Proof. now destruct s. Qed.

(** Property X5.  On a question list whose identities are plain (binary64
    integers below 10^21 in absolute value, which their keys are read back
    as): the value of an input on a question of a simple type is what
    finalization reports for that question right after it, and the answers of
    all other identities are as the answer map had them before the input. *)
Theorem X5_input_is_what_finalization_reports (st st' : QuizScreen.State)
  (val : string) :
  Spec.plain_ids questions ->
  reachable st ->
  step st (QuizScreen.Answer val) = Some st' ->
  exists q,
    currentQuestion st = Some q
    /\ currentQuestion st' = Some q
    /\ type q <> SEQUENCING /\ type q <> MATCHING
    /\ QuizScreen.answers_get (QuizScreen.answers st') (id q) = Some val
    /\ forall a,
         In a (QuizScreen.getFormattedAnswers questions q st') ->
         answer a
         = if (questionId a =? id q)%Z then val
           else geminiService.opt_string
                  (QuizScreen.answers_get (QuizScreen.answers st) (questionId a)).
Proof.
  intros Hplain Hr Hstep.
  pose proof (QuizScreen.reachable_step sort_random questions timeLimit st _ st' Hr Hstep)
    as Hr'.
  pose proof (reachable_answers_ok sort_random questions timeLimit st' Hr')
    as [Hnd [Hincl _]].
  destruct (reachable_current sort_random questions timeLimit st Hr) as [q Hq].
  pose proof (currentQuestion_In questions st q Hq) as Hmem.
  exists q. split; [exact Hq|].
  pose proof Hstep as Hstep'.
  unfold QuizScreen.step, QuizScreen.handle, QuizScreen.enabled in Hstep.
  rewrite Hq in Hstep.
  assert (Hsimple : type q <> SEQUENCING /\ type q <> MATCHING).
  { destruct (type q); split; try discriminate. }
  destruct (match type q with
            | MULTIPLE_CHOICE => _ | TRUE_FALSE => _ | FILL_IN_BLANK => _
            | SHORT_ANSWER => _ | MATCHING => _ | SEQUENCING => _
            end); [|discriminate].
  injection Hstep as <-.
  split; [exact Hq|]. split; [apply Hsimple|]. split; [apply Hsimple|].
  split; [apply handleAnswer_get_same|].
  intros a Ha.
  rewrite (getFormattedAnswers_answer questions q _ a Hplain Hincl Hmem Hnd Ha).
  destruct (Z.eqb_spec (questionId a) (id q)) as [E|Hne].
  - unfold Spec.current_answer. rewrite handleAnswer_get_same. simpl.
    destruct Hsimple. destruct (type q); try congruence; apply or_else_empty.
  - now rewrite handleAnswer_get_other.
Qed.

Lemma saveComplexAnswer_matching (q : Question) (st : QuizScreen.State) :
  type q = MATCHING ->
  QuizScreen.answers_get
    (QuizScreen.answers (QuizScreen.saveComplexAnswer q st)) (id q)
  = Some (QuizScreen.encode_matching (QuizScreen.matchSelections st)).
Proof.
  intros Ht. unfold QuizScreen.saveComplexAnswer. rewrite Ht.
  apply handleAnswer_get_same.
Qed.

(** Property X6.  While a matching question is the current one, the
    selections name only left items of that question, none twice, each with
    the placeholder's empty value or one of the offered choices.  The answer
    committed when the question is left, and the one finalization gives for
    it when the identities of the questions are plain, is the encoding of
    these selections. *)
Theorem X6_matching_selections_stay_within_question (st : QuizScreen.State)
  (q : Question) :
  reachable st ->
  currentQuestion st = Some q ->
  type q = MATCHING ->
  NoDup (JsObject.keys (QuizScreen.matchSelections st))
  /\ (forall l r, In (l, r) (QuizScreen.matchSelections st) ->
        In l (SessionSpec.lefts q) /\ In r (SessionSpec.choices q))
  /\ (forall st',
        step st QuizScreen.Next = Some st' ->
        QuizScreen.answers_get (QuizScreen.answers st') (id q)
        = Some (QuizScreen.encode_matching (QuizScreen.matchSelections st)))
  /\ (Spec.plain_ids questions ->
      forall a, In a (QuizScreen.getFormattedAnswers questions q st) ->
        questionId a = id q ->
        answer a = QuizScreen.encode_matching (QuizScreen.matchSelections st)).
Proof.
  intros Hr Hq Ht.
  destruct (reachable_matching_ok sort_random questions timeLimit st Hr q Hq Ht) as [Hnd Hin].
  pose proof (reachable_answers_ok sort_random questions timeLimit st Hr)
    as [Hnda [Hincl _]].
  split; [exact Hnd|]. split; [exact Hin|]. split.
  - intros st' Hstep.
    destruct (step_next_spec sort_random questions timeLimit st st' q Hq Hstep) as [Ea _].
    rewrite Ea, Ht. simpl. now apply saveComplexAnswer_matching.
  - intros Hplain a Ha Hid.
    rewrite (getFormattedAnswers_answer questions q st a Hplain Hincl
               (currentQuestion_In questions st q Hq) Hnda Ha).
    apply Z.eqb_eq in Hid. rewrite Hid.
    unfold Spec.current_answer. now rewrite Ht.
Qed.

(** Property X7.  Choosing a value in the select of a left item makes that
    value the selection of the item, whatever it was, and leaves the
    selections of the other items alone; the rows then show the chosen value
    for that item and for every other item what they showed before. *)
Theorem X7_match_select_shows_in_row (st st' : QuizScreen.State) (q : Question)
  (l r : string) :
  currentQuestion st = Some q ->
  step st (QuizScreen.MatchSelect l r) = Some st' ->
  QuizScreen.match_get (QuizScreen.matchSelections st') l = Some r
  /\ (forall l', l' <> l ->
        QuizScreen.match_get (QuizScreen.matchSelections st') l'
        = QuizScreen.match_get (QuizScreen.matchSelections st) l')
  /\ map QuizScreen.row_value
       (QuizScreen.matching_rows q (QuizScreen.matchSelections st'))
     = map (fun row =>
              if (QuizScreen.row_left row =? l)%string then r
              else QuizScreen.row_value row)
         (QuizScreen.matching_rows q (QuizScreen.matchSelections st)).
Proof.
  intros Hq Hstep.
  unfold QuizScreen.step, QuizScreen.handle in Hstep. rewrite Hq in Hstep.
  destruct (QuizScreen.enabled _ _ _); [|discriminate].
  injection Hstep as <-. simpl.
  assert (Hsame : QuizScreen.match_get
                    (QuizScreen.match_set
                       (QuizScreen.match_spread (QuizScreen.matchSelections st))
                       l r) l = Some r)
    by (apply (get_set_same String.eqb String.eqb_eq)).
  assert (Hother : forall l', l' <> l ->
            QuizScreen.match_get
              (QuizScreen.match_set
                 (QuizScreen.match_spread (QuizScreen.matchSelections st))
                 l r) l'
            = QuizScreen.match_get (QuizScreen.matchSelections st) l').
  { intros l' Hne. unfold QuizScreen.match_get, QuizScreen.match_set,
      QuizScreen.match_spread, JsObject.spread.
    rewrite (get_set_other String.eqb String.eqb_eq) by assumption.
    apply (get_entries String.eqb JsObject.string_index String.eqb_eq). }
  split; [exact Hsame|]. split; [exact Hother|].
  unfold QuizScreen.matching_rows.
  destruct (matchingPairs q) as [pairs|]; [|reflexivity].
  rewrite !map_map. apply map_ext. intros pair. simpl.
  destruct (String.eqb_spec (left pair) l) as [->|Hne].
  - rewrite Hsame. apply or_else_empty.
  - now rewrite Hother.
Qed.

(** Property X8.  Going back to a matching question starts it afresh: its
    selections are empty again while the answer map still holds what was
    committed before; going forward again without choosing anything commits
    the empty answer for it, in place of the earlier one. *)
Theorem X8_back_navigation_drops_matching_selections (st : QuizScreen.State)
  (i : nat) (q q' : Question) :
  nth_error questions i = Some q ->
  type q = MATCHING ->
  nth_error questions (S i) = Some q' ->
  QuizScreen.currentIdx st = S i ->
  exists st1 st2,
    step st QuizScreen.Previous = Some st1
    /\ QuizScreen.currentIdx st1 = i
    /\ QuizScreen.matchSelections st1 = []
    /\ QuizScreen.answers st1 = QuizScreen.answers st
    /\ step st1 QuizScreen.Next = Some st2
    /\ QuizScreen.currentIdx st2 = S i
    /\ QuizScreen.answers_get (QuizScreen.answers st2) (id q) = Some "".
Proof.
  intros Hq Ht Hq' Hidx.
  assert (Hlen : S i < List.length questions)
    by (apply nth_error_Some; congruence).
  assert (Hcur : currentQuestion st = Some q')
    by (unfold QuizScreen.currentQuestion; now rewrite Hidx).
  destruct (go_to_defined sort_random questions st i ltac:(lia)) as [st1 Hgo].
  assert (Hstep1 : step st QuizScreen.Previous = Some st1).
  { unfold QuizScreen.step, QuizScreen.enabled, QuizScreen.handle.
    rewrite Hcur, Hidx. simpl. now rewrite Nat.sub_0_r. }
  destruct (go_to_spec sort_random questions st st1 i Hgo) as [Hi [Ha [_ [_ [_ Hm]]]]].
  assert (Hsel : QuizScreen.matchSelections st1 = []).
  { rewrite (Hm ltac:(lia) q Hq), Ht. reflexivity. }
  assert (Hcur1 : currentQuestion st1 = Some q)
    by (unfold QuizScreen.currentQuestion; now rewrite Hi).
  assert (Hnl : QuizScreen.isLastQuestion questions st1 = false).
  { unfold QuizScreen.isLastQuestion. rewrite Hi. apply Z.eqb_neq. lia. }
  destruct (go_to_defined sort_random questions (QuizScreen.saveComplexAnswer q st1)
              (QuizScreen.currentIdx st1 + 1) ltac:(lia)) as [st2 Hgo2].
  assert (Hstep2 : step st1 QuizScreen.Next = Some st2).
  { unfold QuizScreen.step, QuizScreen.enabled, QuizScreen.handle.
    rewrite Hcur1. unfold QuizScreen.handleNext. rewrite Hcur1, Hnl, Ht.
    exact Hgo2. }
  exists st1, st2. repeat split; try assumption.
  - destruct (step_next_spec sort_random questions timeLimit st1 st2 q Hcur1 Hstep2)
      as [_ [_ [_ H]]].
    rewrite Hnl in H. destruct H as [H _]. lia.
  - destruct (step_next_spec sort_random questions timeLimit st1 st2 q Hcur1 Hstep2)
      as [Ea _].
    rewrite Ea, Ht. simpl.
    rewrite (saveComplexAnswer_matching q st1 Ht), Hsel. reflexivity.
Qed.

(** Property X9.  The current index stays inside the question list.  [Next]
    on a question that is not the last leads to the next question and submits
    nothing; on the last question it submits the finalization and stays.
    [Previous] leads to the question before, keeps the answer map and
    submits nothing; on the first question it is not offered. *)
Theorem X9_navigation_moves_by_one (st : QuizScreen.State) :
  reachable st ->
  QuizScreen.currentIdx st < List.length questions
  /\ (QuizScreen.isLastQuestion questions st = true
      <-> S (QuizScreen.currentIdx st) = List.length questions)
  /\ (forall q st',
        currentQuestion st = Some q ->
        step st QuizScreen.Next = Some st' ->
        if QuizScreen.isLastQuestion questions st
        then QuizScreen.currentIdx st' = QuizScreen.currentIdx st
             /\ QuizScreen.submitted st'
                = QuizScreen.submitted st
                  ++ [QuizScreen.getFormattedAnswers questions q st]
        else QuizScreen.currentIdx st' = QuizScreen.currentIdx st + 1
             /\ QuizScreen.submitted st' = QuizScreen.submitted st)
  /\ (forall st',
        step st QuizScreen.Previous = Some st' ->
        S (QuizScreen.currentIdx st') = QuizScreen.currentIdx st
        /\ QuizScreen.answers st' = QuizScreen.answers st
        /\ QuizScreen.submitted st' = QuizScreen.submitted st)
  /\ (QuizScreen.currentIdx st = 0 ->
      QuizScreen.enabled questions st QuizScreen.Previous = false).
Proof.
  intros Hr.
  pose proof (reachable_answers_ok sort_random questions timeLimit st Hr) as [_ [_ Hidx]].
  split; [exact Hidx|]. split; [|split; [|split]].
  - unfold QuizScreen.isLastQuestion. rewrite Z.eqb_eq. lia.
  - intros q st' Hq Hstep.
    destruct (step_next_spec sort_random questions timeLimit st st' q Hq Hstep)
      as [_ [_ [_ H]]].
    destruct (QuizScreen.isLastQuestion questions st); tauto.
  - intros st' Hstep.
    unfold QuizScreen.step, QuizScreen.enabled, QuizScreen.handle in Hstep.
    destruct (QuizScreen.currentQuestion questions st); [|discriminate].
    destruct (Nat.eqb_spec (QuizScreen.currentIdx st) 0) as [E|Hne];
      [discriminate|].
    simpl in Hstep.
    apply go_to_spec in Hstep as [Hi [Ha [Hs _]]].
    repeat split; try assumption. lia.
  - intros E. unfold QuizScreen.enabled.
    destruct (QuizScreen.currentQuestion questions st); [|reflexivity].
    now rewrite E.
Qed.

End SessionExtras.

(** ** The working list: moves *)

Section MoveFacts.

Lemma nth_error_swap {A : Type} (l : list A) (i j n : nat) :
  i < List.length l -> j < List.length l ->
  nth_error (geminiService.swap l i j) n
  = if (n =? j)%nat then nth_error l i
    else if (n =? i)%nat then nth_error l j
    else nth_error l n.
Proof.
  intros Hi Hj. unfold geminiService.swap.
  destruct (nth_error l i) as [a|] eqn:Ei;
    [|apply nth_error_None in Ei; lia].
  destruct (nth_error l j) as [b|] eqn:Ej;
    [|apply nth_error_None in Ej; lia].
  rewrite nth_error_set_nth by (now rewrite length_set_nth).
  destruct (n =? j)%nat; [reflexivity|].
  now rewrite nth_error_set_nth by assumption.
Qed.

Lemma length_swap {A : Type} (l : list A) (i j : nat) :
  List.length (geminiService.swap l i j) = List.length l.
Proof.
  unfold geminiService.swap.
  destruct (nth_error l i), (nth_error l j); try reflexivity.
  now rewrite !length_set_nth.
Qed.

(** Property X10.  Moving the item at [index] down exchanges it with its
    successor and touches nothing else; moving it up again from its new
    place gives the list back. *)
Theorem X10_moveItem_down_then_up (items : list string) (index : nat) :
  index + 1 < List.length items ->
  nth_error (QuizScreen.moveItem items index QuizScreen.down) (index + 1)
  = nth_error items index
  /\ nth_error (QuizScreen.moveItem items index QuizScreen.down) index
     = nth_error items (index + 1)
  /\ (forall n, n <> index -> n <> index + 1 ->
        nth_error (QuizScreen.moveItem items index QuizScreen.down) n
        = nth_error items n)
  /\ QuizScreen.moveItem (QuizScreen.moveItem items index QuizScreen.down)
       (index + 1) QuizScreen.up
     = items.
Proof.
  intros Hi.
  assert (Hdown : QuizScreen.moveItem items index QuizScreen.down
                  = geminiService.swap items index (index + 1)).
  { rewrite moveItem_inside by lia.
    destruct (Nat.eqb_spec index (List.length items - 1)) as [E|E];
      [lia|reflexivity]. }
  rewrite Hdown.
  assert (Hnth : forall n,
             nth_error (geminiService.swap items index (index + 1)) n
             = if (n =? index + 1)%nat then nth_error items index
               else if (n =? index)%nat then nth_error items (index + 1)
               else nth_error items n)
    by (intros n; apply nth_error_swap; lia).
  split; [rewrite Hnth; now rewrite Nat.eqb_refl|].
  split.
  { rewrite Hnth. destruct (Nat.eqb_spec index (index + 1)) as [E|E]; [lia|].
    now rewrite Nat.eqb_refl. }
  split.
  { intros k H1 H2. rewrite Hnth.
    destruct (Nat.eqb_spec k (index + 1)) as [E|E]; [lia|].
    destruct (Nat.eqb_spec k index) as [E'|E']; [lia|reflexivity]. }
  rewrite moveItem_inside by (rewrite length_swap; lia).
  destruct (Nat.eqb_spec (index + 1) 0) as [E|E]; [lia|].
  replace (index + 1 - 1) with index by lia.
  apply nth_error_ext. intros k.
  rewrite nth_error_swap by (rewrite length_swap; lia).
  rewrite !Hnth.
  destruct (Nat.eqb_spec k index) as [->|H1].
  - now rewrite Nat.eqb_refl.
  - destruct (Nat.eqb_spec k (index + 1)) as [->|H2].
    + destruct (Nat.eqb_spec index (index + 1)) as [E'|E']; [lia|].
      now rewrite Nat.eqb_refl.
    + reflexivity.
Qed.

End MoveFacts.

(** ** The further properties on sample sessions *)

Lemma sample_reachable (questions : list Question) (timeLimit : Z)
  (evs : list QuizScreen.Event) :
  QuizScreen.mount Engine.v8 questions timeLimit zero_tape
  = Some (started questions timeLimit) ->
  QuizScreen.run Engine.v8 questions timeLimit (started questions timeLimit) evs
  = Some (after questions timeLimit evs) ->
  QuizScreen.reachable Engine.v8 questions timeLimit (after questions timeLimit evs).
Proof.
  intros Hm Hrun.
  apply (reachable_run Engine.v8 questions timeLimit evs (started questions timeLimit));
    [|exact Hrun].
  now apply (QuizScreen.reachable_mount Engine.v8 questions timeLimit zero_tape).
Qed.

Ltac sample_session :=
  apply sample_reachable; vm_compute; reflexivity.

Lemma X1_session_mounts_and_steps_witness :
  QuizScreen.mount Engine.v8 [] 0 zero_tape = None
  /\ exists st',
       QuizScreen.step Engine.v8 quiz 0 (after quiz 0 [QuizScreen.Next]) QuizScreen.Next
       = Some st'.
Proof.
  split.
  - apply (X1_session_mounts_and_steps Engine.v8 [] 0 zero_tape). reflexivity.
  - apply (X1_session_mounts_and_steps Engine.v8 quiz 0 zero_tape).
    + sample_session.
    + vm_compute. reflexivity.
Defined.

Lemma X2_untimed_session_has_no_timer_witness :
  QuizScreen.interval (after quiz 0 [QuizScreen.Next]) = false
  /\ QuizScreen.enabled quiz (after quiz 0 [QuizScreen.Next]) QuizScreen.Tick
     = false.
Proof.
  destruct (X2_untimed_session_has_no_timer Engine.v8 quiz 0
              (after quiz 0 [QuizScreen.Next])) as [Hi [_ [_ [He _]]]].
  - lia.
  - sample_session.
  - split; assumption.
Defined.

Lemma X3_timed_session_countdown_witness :
  (0 <= QuizScreen.timeLeft (after quiz 1 [QuizScreen.Tick; QuizScreen.Next])
   <= 60)%Z
  /\ QuizScreen.timeLeft
       (after quiz 1 [QuizScreen.Tick; QuizScreen.Next; QuizScreen.Tick])
     = (QuizScreen.timeLeft (after quiz 1 [QuizScreen.Tick; QuizScreen.Next]) - 1)%Z.
Proof.
  destruct (X3_timed_session_countdown Engine.v8 quiz 1
              (after quiz 1 [QuizScreen.Tick; QuizScreen.Next]))
    as [Hb [_ [_ Htick]]].
  - lia.
  - reflexivity.
  - sample_session.
  - split; [exact Hb|].
    apply (Htick capital); vm_compute; reflexivity.
Defined.

Lemma X4_event_writes_current_answer_only_witness :
  QuizScreen.answers_get
    (QuizScreen.answers
       (after quiz 0 [QuizScreen.Next; QuizScreen.Answer "Paris";
                      QuizScreen.Previous; QuizScreen.Next])) 1
  = QuizScreen.answers_get
      (QuizScreen.answers
         (after quiz 0 [QuizScreen.Next; QuizScreen.Answer "Paris";
                        QuizScreen.Previous])) 1.
Proof.
  apply (X4_event_writes_current_answer_only Engine.v8 quiz 0 _ _ QuizScreen.Next brewing).
  - vm_compute. reflexivity.
  - vm_compute. reflexivity.
  - discriminate.
Defined.

Lemma X5_input_is_what_finalization_reports_witness :
  exists q,
    QuizScreen.currentQuestion quiz (after quiz 0 [QuizScreen.Next]) = Some q
    /\ QuizScreen.answers_get
         (QuizScreen.answers
            (after quiz 0 [QuizScreen.Next; QuizScreen.Answer "Paris"])) (id q)
       = Some "Paris".
Proof.
  destruct (X5_input_is_what_finalization_reports Engine.v8 quiz 0
              (after quiz 0 [QuizScreen.Next])
              (after quiz 0 [QuizScreen.Next; QuizScreen.Answer "Paris"])
              "Paris") as [q [Hq [_ [_ [_ [Hget _]]]]]].
  - exact quiz_plain.
  - sample_session.
  - vm_compute. reflexivity.
  - exists q. split; assumption.
Defined.

Lemma X6_matching_selections_stay_within_question_witness :
  NoDup (JsObject.keys
           (QuizScreen.matchSelections
              (after atlas 0 [QuizScreen.MatchSelect "Paris" "Europe";
                              QuizScreen.MatchSelect "Cairo" "Africa";
                              QuizScreen.MatchSelect "Paris" ""]))).
Proof.
  apply (X6_matching_selections_stay_within_question Engine.v8 atlas 0 _ continents).
  - sample_session.
  - vm_compute. reflexivity.
  - reflexivity.
Defined.

Lemma X7_match_select_shows_in_row_witness :
  QuizScreen.match_get
    (QuizScreen.matchSelections
       (after atlas 0 [QuizScreen.MatchSelect "Paris" "Africa";
                       QuizScreen.MatchSelect "Paris" "Europe"])) "Paris"
  = Some "Europe".
Proof.
  apply (X7_match_select_shows_in_row Engine.v8 atlas 0
           (after atlas 0 [QuizScreen.MatchSelect "Paris" "Africa"]) _ continents).
  - vm_compute. reflexivity.
  - vm_compute. reflexivity.
Defined.

Lemma X8_back_navigation_drops_matching_selections_witness :
  exists st1 st2,
    QuizScreen.step Engine.v8 atlas 0
      (after atlas 0 [QuizScreen.MatchSelect "Paris" "Europe"; QuizScreen.Next])
      QuizScreen.Previous = Some st1
    /\ QuizScreen.matchSelections st1 = []
    /\ QuizScreen.step Engine.v8 atlas 0 st1 QuizScreen.Next = Some st2
    /\ QuizScreen.answers_get (QuizScreen.answers st2) 4 = Some "".
Proof.
  destruct (X8_back_navigation_drops_matching_selections Engine.v8 atlas 0
              (after atlas 0 [QuizScreen.MatchSelect "Paris" "Europe";
                              QuizScreen.Next])
              0 continents capital)
    as [st1 [st2 [H1 [_ [Hsel [_ [H2 [_ Hget]]]]]]]].
  - reflexivity.
  - reflexivity.
  - reflexivity.
  - vm_compute. reflexivity.
  - exists st1, st2. repeat split; assumption.
Defined.

Lemma X9_navigation_moves_by_one_witness :
  QuizScreen.currentIdx (after quiz 0 [QuizScreen.Next; QuizScreen.Next]) < 2.
Proof.
  apply (X9_navigation_moves_by_one Engine.v8 quiz 0
           (after quiz 0 [QuizScreen.Next; QuizScreen.Next])).
  sample_session.
Defined.

Lemma X10_moveItem_down_then_up_witness :
  QuizScreen.moveItem
    (QuizScreen.moveItem ["boil"; "steep"; "pour"] 1 QuizScreen.down)
    2 QuizScreen.up
  = ["boil"; "steep"; "pour"].
Proof.
  apply (X10_moveItem_down_then_up ["boil"; "steep"; "pour"] 1).
  simpl. lia.
Defined.

(** ** The display of the remaining time *)

Section DisplayFacts.

Lemma includes_colon_cons (c : ascii) (s : string) :
  Ascii.eqb ":" c = false ->
  JsString.includes ":" (String c s) = JsString.includes ":" s.
Proof.
  intros Hc. cbn [JsString.includes]. rewrite prefix_cons, Hc. reflexivity.
Qed.

Lemma digits_no_colon (d : Decimal.uint) :
  JsString.includes ":" (DecimalString.NilEmpty.string_of_uint d) = false.
Proof.
  induction d; simpl DecimalString.NilEmpty.string_of_uint;
    [reflexivity|rewrite includes_colon_cons; [assumption|reflexivity]..].
Qed.

Lemma toString_decimal (z : Z) :
  (Z.abs z < 10 ^ 21)%Z -> QuizDisplay.toString z = JsNumber.decimal z.
Proof.
  intros Hz. unfold QuizDisplay.toString, JsNumber.toString.
  apply Z.ltb_lt in Hz. now rewrite Hz.
Qed.

Lemma toString_no_colon (z : Z) :
  (0 <= z < 10 ^ 21)%Z -> JsString.includes ":" (QuizDisplay.toString z) = false.
Proof.
  intros Hz. rewrite toString_decimal by lia. unfold JsNumber.decimal.
  destruct z as [|p|p]; [reflexivity| |lia].
  simpl. pose proof (DecimalPos.Unsigned.to_uint_nonnil p) as Hp.
  destruct (Pos.to_uint p) as [|u|u|u|u|u|u|u|u|u|u];
    [congruence
    |match goal with
     | |- JsString.includes ":" (DecimalString.NilZero.string_of_uint ?d) = false =>
         exact (digits_no_colon d)
     end..].
Qed.

Lemma parse_toString (z : Z) :
  (Z.abs z < 10 ^ 21)%Z -> DisplaySpec.parse (QuizDisplay.toString z) = Some z.
Proof.
  intros Hz. rewrite toString_decimal by assumption.
  unfold DisplaySpec.parse, JsNumber.decimal.
  rewrite DecimalString.NilZero.isi.
  - simpl. now rewrite DecimalZ.of_to.
  - destruct z; simpl; try discriminate.
    intros [= E]. now apply DecimalPos.Unsigned.to_uint_nonnil in E.
  - destruct z; simpl; try discriminate.
    intros [= E]. now apply DecimalPos.Unsigned.to_uint_nonnil in E.
Qed.

Lemma seconds_fields_ok :
  forallb DisplaySpec.seconds_field_ok (seq 0 60) = true.
Proof. vm_compute. reflexivity. Qed.

Lemma seconds_field (secs : Z) :
  (0 <= secs < 60)%Z ->
  let f := QuizDisplay.padStart (QuizDisplay.toString secs) 2 "0" in
  String.length f = 2
  /\ JsString.includes ":" f = false
  /\ DisplaySpec.parse f = Some secs.
Proof.
  intros Hs.
  pose proof seconds_fields_ok as H. rewrite forallb_forall in H.
  specialize (H (Z.to_nat secs)).
  rewrite in_seq in H. specialize (H ltac:(lia)).
  unfold DisplaySpec.seconds_field_ok in H.
  rewrite Z2Nat.id in H by lia.
  apply andb_true_iff in H as [H H3]. apply andb_true_iff in H as [H1 H2].
  apply Nat.eqb_eq in H1. apply negb_true_iff in H2.
  cbv zeta. split; [exact H1|]. split; [exact H2|].
  destruct (DisplaySpec.parse _) as [v|]; [|discriminate].
  apply Z.eqb_eq in H3. now subst.
Qed.

Lemma split_colon (m sec : string) :
  JsString.includes ":" m = false ->
  JsString.includes ":" sec = false ->
  JsString.split ":" (m ++ ":" ++ sec) = [m; sec].
Proof.
  intros Hm Hs. unfold JsString.split.
  pose proof (split_from_item "" ":" m "" sec) as E. cbv zeta in E.
  change ("" ++ ":")%string with ":" in E.
  rewrite E by (now rewrite append_empty_r).
  simpl. f_equal.
  now rewrite (split_from_no_match ":" "" "" sec Hs).
Qed.

(** Property X11.  For a time of at least 0 and less than 2^53 seconds (up
    to there the quotient by 60 and the conversion to a string are exact and
    in decimal digits), [formatTime] shows the minutes, a colon and a seconds
    field of exactly two code units, and the display reads back as the time:
    so two different remaining times are never shown alike. *)
Theorem X11_formatTime_reads_back (seconds : Z) :
  (0 <= seconds < 2 ^ 53)%Z ->
  (exists m sec,
     QuizDisplay.formatTime seconds = (m ++ ":" ++ sec)%string
     /\ m = QuizDisplay.toString (seconds / 60)
     /\ String.length sec = 2)
  /\ DisplaySpec.parseTime (QuizDisplay.formatTime seconds) = Some seconds
  /\ forall other,
       (0 <= other < 2 ^ 53)%Z ->
       QuizDisplay.formatTime other = QuizDisplay.formatTime seconds ->
       other = seconds.
Proof.
  assert (Hbig : (2 ^ 53 < 10 ^ 21)%Z) by reflexivity.
  assert (Hfield : forall t, (0 <= t)%Z -> (0 <= Z.rem t 60 < 60)%Z)
    by (intros t Ht; rewrite Z.rem_mod_nonneg by lia;
        apply Z.mod_pos_bound; lia).
  assert (Hmins : forall t, (0 <= t < 2 ^ 53)%Z -> (0 <= t / 60 < 10 ^ 21)%Z).
  { intros t Ht. split; [apply Z.div_pos; lia|].
    apply Z.div_lt_upper_bound; lia. }
  assert (Hback : forall t, (0 <= t < 2 ^ 53)%Z ->
            DisplaySpec.parseTime (QuizDisplay.formatTime t) = Some t).
  { intros t Ht. unfold QuizDisplay.formatTime, DisplaySpec.parseTime.
    rewrite floor_div_60 by assumption.
    destruct (seconds_field (Z.rem t 60) (Hfield t ltac:(lia))) as [_ [Hc Hp]].
    rewrite split_colon;
      [|apply toString_no_colon; now apply Hmins|exact Hc].
    rewrite parse_toString, Hp by (pose proof (Hmins t Ht); lia). f_equal.
    rewrite Z.rem_mod_nonneg by lia.
    pose proof (Z.div_mod t 60 ltac:(lia)). lia. }
  intros Hs. split; [|split].
  - eexists. eexists. split; [|split; [reflexivity|]].
    + unfold QuizDisplay.formatTime. now rewrite floor_div_60.
    + apply seconds_field. apply Hfield. lia.
  - now apply Hback.
  - intros other Ho E.
    pose proof (Hback other Ho) as H1. rewrite E, (Hback seconds Hs) in H1.
    congruence.
Qed.

End DisplayFacts.

Lemma X11_formatTime_reads_back_witness :
  QuizDisplay.formatTime 125 = "2:05"
  /\ DisplaySpec.parseTime (QuizDisplay.formatTime 125) = Some 125%Z.
Proof.
  split; [reflexivity|].
  apply (X11_formatTime_reads_back 125). split; [lia|reflexivity].
Defined.

(** ** The generation response as a whole *)

Section NormalizerFacts.

Variable QuestionType_value : QuestionType -> string.

Abbreviation process_question := (geminiService.process_question QuestionType_value).
Abbreviation process_questions := (geminiService.process_questions QuestionType_value).

Lemma process_question_related (q : Json.t) (rnd : Random.Tape) :
  q <> Json.JNull ->
  exists q' rnd',
    process_question q rnd = Return (q', rnd')
    /\ ResponseSpec.same_but_options q q'.
Proof.
  intros Hnull. unfold geminiService.process_question.
  destruct q as [|b|n|s|elems|props]; try congruence; simpl Json.field;
    cbn [bind]; try (eexists; eexists; split; [reflexivity|now left]).
  destruct (JsObject.get String.eqb props "type") as [[| | |s| |]|];
    try (eexists; eexists; split; [reflexivity|now left]).
  destruct (s =? QuestionType_value MULTIPLE_CHOICE)%string;
    [|eexists; eexists; split; [reflexivity|now left]].
  destruct (JsObject.get String.eqb props "options") as [[| | | |opts|]|] eqn:Eo;
    try (eexists; eexists; split; [reflexivity|now left]).
  pose proof (shuffleArray_perm opts rnd) as P.
  destruct (geminiService.shuffleArray opts rnd) as [shuffled rnd'].
  simpl in P.
  destruct (with_field_get_same props "options" (Json.JArray shuffled))
    as [props' [E [Hsame Hother]]].
  eexists; eexists; split; [reflexivity|].
  right. exists props, props', opts, shuffled. repeat split; assumption.
Qed.

Lemma process_questions_related (qs : list Json.t) (rnd : Random.Tape) :
  Forall (fun q => q <> Json.JNull) qs ->
  exists out rnd',
    process_questions qs rnd = Return (out, rnd')
    /\ Forall2 ResponseSpec.same_but_options qs out.
Proof.
  intros Hall. revert rnd.
  induction Hall as [|q qs Hq Hall IH]; intros rnd.
  - exists [], rnd. split; [reflexivity|constructor].
  - destruct (process_question_related q rnd Hq) as [q' [rnd1 [E1 R1]]].
    destruct (IH rnd1) as [out [rnd2 [E2 R2]]].
    exists (q' :: out), rnd2. cbn [geminiService.process_questions].
    rewrite E1. cbn [bind snd fst]. rewrite E2. cbn [bind snd fst].
    split; [reflexivity|now constructor].
Qed.

Lemma process_questions_null (qs : list Json.t) (rnd : Random.Tape) :
  In Json.JNull qs -> process_questions qs rnd = Throw TypeError.
Proof.
  revert rnd. induction qs as [|q qs IH]; intros rnd Hin; [destruct Hin|].
  cbn [geminiService.process_questions].
  destruct q as [|b|n|s|elems|props] eqn:Eq; [reflexivity|..];
    (destruct Hin as [Hin|Hin]; [discriminate|]);
    (destruct (process_question_related q rnd ltac:(subst q; discriminate))
       as [q' [rnd1 [E1 _]]]; subst q; rewrite E1; cbn [bind snd fst];
     now rewrite (IH rnd1 Hin)).
Qed.

(** Property X12.  Of a response that carries an array of questions none of
    which is [null], [generateQuiz] returns as many questions, in the order of
    the response, each one as it was or with its option list permuted: no
    question is dropped, added or moved, and its identity, type, text and
    correct answer are as received.  If an element of the array is [null] the
    call throws and returns nothing. *)
Theorem X12_generateQuiz_keeps_questions_in_order (apiKey : option string)
  (props : list (string * Json.t)) (qs : list Json.t) (rnd : Random.Tape) :
  geminiService.has_key apiKey = true ->
  JsObject.get String.eqb props "questions" = Some (Json.JArray qs) ->
  (Forall (fun q => q <> Json.JNull) qs ->
   exists out rnd',
     geminiService.generateQuiz QuestionType_value apiKey
       (Return (Json.JObject props)) rnd = Return (out, rnd')
     /\ List.length out = List.length qs
     /\ Forall2 ResponseSpec.same_but_options qs out)
  /\ (In Json.JNull qs ->
      geminiService.generateQuiz QuestionType_value apiKey
        (Return (Json.JObject props)) rnd = Throw TypeError).
Proof.
  intros Hkey Hqs.
  unfold geminiService.generateQuiz, geminiService.normalize.
  rewrite Hkey. cbn [negb bind]. simpl Json.field. cbn [bind]. rewrite Hqs.
  cbn [Json.truthy negb]. split.
  - intros Hall.
    destruct (process_questions_related qs rnd Hall) as [out [rnd' [E R]]].
    exists out, rnd'. split; [exact E|]. split; [|exact R].
    symmetry. exact (Forall2_length R).
  - intros Hin. now apply process_questions_null.
Qed.

End NormalizerFacts.

Lemma X12_generateQuiz_keeps_questions_in_order_witness :
  exists out rnd',
    geminiService.generateQuiz sample_tags (Some "key")
      (Return (Json.JObject
                 [("questions",
                   Json.JArray [Json.JObject sample_mcq;
                                Json.JObject sample_true_false])]))
      zero_tape
    = Return (out, rnd')
    /\ List.length out = 2.
Proof.
  destruct (X12_generateQuiz_keeps_questions_in_order sample_tags (Some "key")
              [("questions",
                Json.JArray [Json.JObject sample_mcq;
                             Json.JObject sample_true_false])]
              [Json.JObject sample_mcq; Json.JObject sample_true_false]
              zero_tape eq_refl eq_refl) as [H _].
  destruct H as [out [rnd' [E [Hlen _]]]].
  - repeat constructor; discriminate.
  - exists out, rnd'. split; assumption.
Defined.

(** ** The grading result: scores and answers *)

Section GradingMore.

Variable originalQuestions : list Question.
Variable userAnswers : list UserAnswer.

Lemma merge_returns (gq : geminiService.Graded) (g : GradedQuestion) :
  geminiService.merge originalQuestions userAnswers gq = Return g ->
  Spec.merged_from originalQuestions gq g.
Proof.
  unfold geminiService.merge.
  destruct (find _ originalQuestions) as [o|] eqn:E; [|discriminate].
  intros [= <-]. apply find_some in E as [Ho Hid]. apply Z.eqb_eq in Hid.
  repeat split; assumption.
Qed.

Lemma map_merge_returns (records : list geminiService.Graded)
  (merged : list GradedQuestion) :
  map_throwing (geminiService.merge originalQuestions userAnswers) records
  = Return merged ->
  Forall2 (Spec.merged_from originalQuestions) records merged.
Proof.
  revert merged. induction records as [|r records IH]; intros merged.
  - intros [= <-]. constructor.
  - cbn [map_throwing].
    destruct (geminiService.merge originalQuestions userAnswers r) as [g|e] eqn:Er;
      [|discriminate].
    cbn [bind].
    destruct (map_throwing _ records) as [rest|e] eqn:Em; [|discriminate].
    intros [= <-]. constructor; [now apply merge_returns|now apply IH].
Qed.

Lemma fold_left_scores (merged : list GradedQuestion) (acc : Q) :
  Qeq (fold_left (fun acc curr => Qplus acc (score curr)) merged acc)
      (Qplus acc (fold_right Qplus 0%Q (map score merged))).
Proof.
  revert acc. induction merged as [|g merged IH]; intros acc; simpl.
  - now rewrite Qplus_0_r.
  - rewrite IH. now rewrite Qplus_assoc.
Qed.

Lemma merged_scores (records : list geminiService.Graded)
  (merged : list GradedQuestion) :
  Forall2 (Spec.merged_from originalQuestions) records merged ->
  map score merged = map geminiService.g_score records.
Proof.
  induction 1 as [|gq g records merged [_ [_ [_ [Hs _]]]] _ IH]; simpl;
    [reflexivity|].
  now rewrite Hs, IH.
Qed.

Lemma merged_identities (records : list geminiService.Graded)
  (merged : list GradedQuestion) :
  Forall2 (Spec.merged_from originalQuestions) records merged ->
  incl (map geminiService.g_id records) (Spec.ids originalQuestions).
Proof.
  induction 1 as [|gq g records merged [Hin [Hid _]] _ IH]; simpl;
    [intros i []|].
  intros i [<-|Hi]; [|now apply IH].
  rewrite <- Hid. unfold Spec.ids. now apply in_map.
Qed.

Lemma sum_scores_bounds (records : list geminiService.Graded) :
  Forall (fun r => ResponseSpec.schema_score (geminiService.g_score r)) records ->
  Qle 0%Q (ResponseSpec.sum_scores records)
  /\ Qle (ResponseSpec.sum_scores records)
         (inject_Z (Z.of_nat (List.length records))).
Proof.
  unfold ResponseSpec.sum_scores.
  induction 1 as [|r records Hr _ [IH0 IH1]].
  - simpl. split; apply Qle_refl.
  - cbn [map fold_right List.length].
    replace (inject_Z (Z.of_nat (S (List.length records))))
      with (inject_Z (1 + Z.of_nat (List.length records))) by (f_equal; lia).
    rewrite inject_Z_plus.
    assert (H01 : Qle 0%Q (geminiService.g_score r)
                  /\ Qle (geminiService.g_score r) 1%Q).
    { destruct Hr as [E|[E|E]]; rewrite E; split; discriminate. }
    destruct H01 as [H0 H1]. split.
    + change 0%Q with (Qplus 0%Q 0%Q). now apply Qplus_le_compat.
    + now apply Qplus_le_compat.
Qed.

(** Property X13.  When [gradeQuiz] returns a result for a response whose
    scores are those the schema asks for (0, 0.5 or 1), the total score is the
    sum of the scores of the response, it lies between 0 and the number of
    records, and it is at most the maximum score if no two records of the
    response have the same identity.  The overall feedback of a result is
    never the empty string. *)
Theorem X13_total_score_within_maximum (apiKey : option string)
  (data : geminiService.GradingData) (records : list geminiService.Graded)
  (result : QuizResult) :
  geminiService.gradeQuiz apiKey (Return data) originalQuestions userAnswers
  = Return result ->
  geminiService.d_gradedQuestions data = Some records ->
  Forall (fun r => ResponseSpec.schema_score (geminiService.g_score r)) records ->
  Qeq (totalScore result) (ResponseSpec.sum_scores records)
  /\ Qle 0%Q (totalScore result)
  /\ Qle (totalScore result) (inject_Z (Z.of_nat (List.length records)))
  /\ (NoDup (map geminiService.g_id records) ->
      Qle (totalScore result) (inject_Z (Z.of_nat (maxScore result))))
  /\ overallFeedback result <> "".
Proof.
  intros Hret Hrec Hscores.
  unfold geminiService.gradeQuiz, geminiService.aggregate in Hret.
  destruct (negb (geminiService.has_key apiKey)); [discriminate|].
  cbn [bind] in Hret. rewrite Hrec in Hret. cbn [bind] in Hret.
  destruct (map_throwing _ records) as [merged|e] eqn:Em; [|discriminate].
  cbn [bind] in Hret. injection Hret as <-. cbn [totalScore maxScore overallFeedback].
  pose proof (map_merge_returns records merged Em) as Hm.
  assert (Hsum : Qeq (fold_left (fun acc curr => Qplus acc (score curr)) merged 0%Q)
                     (ResponseSpec.sum_scores records)).
  { rewrite fold_left_scores, Qplus_0_l. unfold ResponseSpec.sum_scores.
    rewrite (merged_scores records merged Hm). apply Qeq_refl. }
  destruct (sum_scores_bounds records Hscores) as [H0 H1].
  split; [exact Hsum|]. split; [now rewrite Hsum|]. split; [now rewrite Hsum|].
  split.
  - intros Hnd. rewrite Hsum. eapply Qle_trans; [exact H1|].
    rewrite <- Zle_Qle. apply Nat2Z.inj_le.
    pose proof (NoDup_incl_length Hnd (merged_identities records merged Hm)) as Hlen.
    unfold Spec.ids in Hlen. now rewrite !length_map in Hlen.
  - destruct (geminiService.d_overallFeedback data) as [[|c f]|]; discriminate.
Qed.

Lemma NoDup_map_eq {A B : Type} (f : A -> B) (l : list A) (x y : A) :
  NoDup (map f l) -> In x l -> In y l -> f x = f y -> x = y.
Proof.
  induction l as [|a l IH]; intros Hnd Hx Hy E; [destruct Hx|].
  simpl in Hnd. inversion Hnd as [|? ? Hna Hnd']; subst.
  destruct Hx as [->|Hx], Hy as [->|Hy].
  - reflexivity.
  - exfalso. apply Hna. rewrite E. now apply in_map.
  - exfalso. apply Hna. rewrite <- E. now apply in_map.
  - now apply IH.
Qed.

Lemma merge_carries_answer (gq : geminiService.Graded) (g : GradedQuestion) :
  Spec.one_answer_per_identity originalQuestions userAnswers ->
  geminiService.merge originalQuestions userAnswers gq = Return g ->
  ResponseSpec.carries_answer userAnswers gq g.
Proof.
  intros [Hnd Hiff] Hm. pose proof (merge_returns gq g Hm) as [Hin [Hid _]].
  unfold geminiService.merge in Hm.
  destruct (find _ originalQuestions) as [o|]; [|discriminate].
  injection Hm as <-. cbn [userAnswer].
  assert (Hi : In (geminiService.g_id gq) (Spec.answered_ids userAnswers)).
  { apply Hiff. rewrite <- Hid. unfold Spec.ids. now apply in_map. }
  unfold Spec.answered_ids in Hi. apply in_map_iff in Hi as [a0 [E0 H0]].
  destruct (find (fun a => (questionId a =? geminiService.g_id gq)%Z) userAnswers)
    as [a1|] eqn:Ef.
  - apply find_some in Ef as [H1 E1]. apply Z.eqb_eq in E1.
    split; [now exists a1|].
    intros a Ha Ea. simpl. rewrite or_else_empty.
    f_equal. apply (NoDup_map_eq questionId userAnswers); try assumption.
    congruence.
  - apply (find_none _ _ Ef) in H0. apply Z.eqb_neq in H0. contradiction.
Qed.

Lemma map_merge_carries_answer (records : list geminiService.Graded)
  (merged : list GradedQuestion) :
  Spec.one_answer_per_identity originalQuestions userAnswers ->
  map_throwing (geminiService.merge originalQuestions userAnswers) records
  = Return merged ->
  Forall2 (ResponseSpec.carries_answer userAnswers) records merged.
Proof.
  intros Hone. revert merged. induction records as [|r records IH]; intros merged.
  - intros [= <-]. constructor.
  - cbn [map_throwing].
    destruct (geminiService.merge originalQuestions userAnswers r) as [g|e] eqn:Er;
      [|discriminate].
    cbn [bind].
    destruct (map_throwing _ records) as [rest|e] eqn:Em; [|discriminate].
    intros [= <-]. constructor; [now apply merge_carries_answer|now apply IH].
Qed.

End GradingMore.

Lemma X13_total_score_within_maximum_witness :
  exists result,
    geminiService.gradeQuiz (Some "key") (Return (grading 1)) [capital]
      [{| questionId := 1; answer := "Paris" |}] = Return result
    /\ Qeq (totalScore result) 1%Q
    /\ Qle (totalScore result) (inject_Z (Z.of_nat (maxScore result))).
Proof.
  eexists. split; [reflexivity|].
  destruct (X13_total_score_within_maximum [capital]
              [{| questionId := 1; answer := "Paris" |}]
              (Some "key") (grading 1) [graded 1] _ eq_refl eq_refl)
    as [Hsum [_ [_ [Hmax _]]]].
  - constructor; [right; right; reflexivity|constructor].
  - split; [exact Hsum|]. apply Hmax. constructor; [intros []|constructor].
Defined.

(** ** From the session to the grading *)

Section SessionToGrading.

Variable sort_random : Engine.RandomSort.
Variable questions : list Question.
Variable timeLimit : Z.

(** Property X14.  For a quiz whose identities are plain (binary64 integers
    below 10^21 in absolute value, which their keys are read back as): an
    answer list the session submitted can be graded whenever the key is set
    and every record of the response names a question of the quiz; each
    graded question of the result then carries the answer the submitted list
    holds for the identity of its record: that list holds exactly one, so no
    graded question falls back on the empty answer for want of one. *)
Theorem X14_submitted_answers_reach_the_result (st : QuizScreen.State)
  (out : list UserAnswer) (apiKey : option string)
  (data : geminiService.GradingData) (records : list geminiService.Graded) :
  Spec.plain_ids questions ->
  QuizScreen.reachable sort_random questions timeLimit st ->
  In out (QuizScreen.submitted st) ->
  geminiService.has_key apiKey = true ->
  geminiService.d_gradedQuestions data = Some records ->
  (forall gq, In gq records ->
     exists q, In q questions /\ id q = geminiService.g_id gq) ->
  exists result,
    geminiService.gradeQuiz apiKey (Return data) questions out = Return result
    /\ Forall2 (ResponseSpec.carries_answer out) records (gradedQuestions result).
Proof.
  intros Hplain Hr Hout Hkey Hrec Hknown.
  pose proof (reachable_submitted_ok sort_random questions timeLimit st Hplain Hr)
    as Hsub.
  rewrite Forall_forall in Hsub. specialize (Hsub out Hout).
  destruct (map_merge_known questions out records Hknown) as [merged [Em _]].
  unfold geminiService.gradeQuiz, geminiService.aggregate.
  rewrite Hkey. cbn [negb bind]. rewrite Hrec. cbn [bind]. rewrite Em.
  cbn [bind]. eexists. split; [reflexivity|]. cbn [gradedQuestions].
  exact (map_merge_carries_answer questions out records merged Hsub Em).
Qed.

End SessionToGrading.

Lemma X14_submitted_answers_reach_the_result_witness :
  exists result,
    geminiService.gradeQuiz (Some "key") (Return (grading 1)) quiz
      (hd [] (QuizScreen.submitted
                (after quiz 0 [QuizScreen.Next; QuizScreen.Next])))
    = Return result
    /\ Forall2
         (ResponseSpec.carries_answer
            (hd [] (QuizScreen.submitted
                      (after quiz 0 [QuizScreen.Next; QuizScreen.Next]))))
         [graded 1] (gradedQuestions result).
Proof.
  apply (X14_submitted_answers_reach_the_result Engine.v8 quiz 0
           (after quiz 0 [QuizScreen.Next; QuizScreen.Next]) _
           (Some "key") (grading 1) [graded 1]).
  - exact quiz_plain.
  - sample_session.
  - vm_compute. left. reflexivity.
  - reflexivity.
  - reflexivity.
  - intros gq [<-|[]]. exists capital.
    split; [right; left; reflexivity|reflexivity].
Defined.

(** ** The tutor query, answered *)

Section TutorMore.

(** Property X15.  A blank query leaves the state as it is and asks nothing,
    whether the key is set or not.  A query that is not blank ends with the
    loading flag down, the input as it was and a chat response that is not
    the empty string: the text of the response when the call returned one
    that is not empty, and a fixed sentence when the response had no text. *)
Theorem X15_handleAskAI_outcome (apiKey : option string)
  (remote : Completion (option string)) (st : ResultScreen.State) :
  (JsString.truthy (JsString.trim (ResultScreen.chatInput st)) = false ->
   ResultScreen.handleAskAI apiKey remote st = Return st)
  /\ (JsString.truthy (JsString.trim (ResultScreen.chatInput st)) = true ->
      (exists s,
         s <> ""
         /\ ResultScreen.handleAskAI apiKey remote st
            = Return {| ResultScreen.chatInput := ResultScreen.chatInput st;
                        ResultScreen.chatResponse := Some s;
                        ResultScreen.isChatLoading := false |})
      /\ (geminiService.has_key apiKey = true ->
          forall text, remote = Return text ->
          ResultScreen.handleAskAI apiKey remote st
          = Return {| ResultScreen.chatInput := ResultScreen.chatInput st;
                      ResultScreen.chatResponse :=
                        Some (match text with
                              | Some (String c s) => String c s
                              | _ => "I couldn't generate an explanation at this time."
                              end);
                      ResultScreen.isChatLoading := false |})).
Proof.
  unfold ResultScreen.handleAskAI, geminiService.explainQuestion. split.
  - now intros ->.
  - intros ->. cbn [negb]. split.
    + destruct (geminiService.has_key apiKey); cbn [negb];
        [|eexists; (split; [|reflexivity]); discriminate].
      destruct remote as [[[|c s]|]|e];
        eexists; (split; [|reflexivity]); discriminate.
    + intros -> text ->. now destruct text as [[|c s]|].
Qed.

End TutorMore.

Lemma X15_handleAskAI_outcome_witness :
  ResultScreen.handleAskAI (Some "key") (Return (Some "Paris is in France.")) asking
  = Return {| ResultScreen.chatInput := "Why is my answer wrong?";
              ResultScreen.chatResponse := Some "Paris is in France.";
              ResultScreen.isChatLoading := false |}
  /\ ResultScreen.handleAskAI (Some "key") (Return (Some "Paris is in France."))
       {| ResultScreen.chatInput := no_break_spaces;
          ResultScreen.chatResponse := None;
          ResultScreen.isChatLoading := false |}
     = Return {| ResultScreen.chatInput := no_break_spaces;
                 ResultScreen.chatResponse := None;
                 ResultScreen.isChatLoading := false |}.
Proof.
  split.
  - destruct (X15_handleAskAI_outcome (Some "key")
                (Return (Some "Paris is in France.")) asking) as [_ H].
    destruct (H eq_refl) as [_ H'].
    exact (H' eq_refl (Some "Paris is in France.") eq_refl).
  - destruct (X15_handleAskAI_outcome (Some "key")
                (Return (Some "Paris is in France."))
                {| ResultScreen.chatInput := no_break_spaces;
                   ResultScreen.chatResponse := None;
                   ResultScreen.isChatLoading := false |}) as [H _].
    exact (H eq_refl).
Defined.

(** ** The upload page *)

Section UploadFacts.

Lemma includes_In (x : string) (l : list string) :
  UploadEvents.includes x l = true <-> In x l.
Proof.
  unfold UploadEvents.includes. rewrite existsb_exists. split.
  - intros [y [Hin E]]. apply String.eqb_eq in E. now subst.
  - intros Hin. exists x. split; [assumption|apply String.eqb_refl].
Qed.

Lemma QuestionType_eqb_eq (a b : QuestionType) :
  QuestionType_eqb a b = true <-> a = b.
Proof. destruct a, b; simpl; split; congruence. Qed.

Lemma selected_In (t : QuestionType) (types : list QuestionType) :
  UploadEvents.selected t types = true <-> In t types.
Proof.
  unfold UploadEvents.selected. rewrite existsb_exists. split.
  - intros [y [Hin E]]. apply QuestionType_eqb_eq in E. now subst.
  - intros Hin. exists t. split; [assumption|now apply QuestionType_eqb_eq].
Qed.

(** The documents the loop of [handleFiles] collects. *)
Lemma files_loop_documents (files : list UploadEvents.File)
  (newDocs : list UploadedFile) (err : string) (ids : UploadEvents.IdSupply) :
  fst (fst (UploadEvents.files_loop files newDocs err ids))
  = newDocs ++ UploadSpec.docs_of (filter UploadSpec.accepted files) ids.
Proof.
  revert newDocs err ids.
  induction files as [|f files IH]; intros newDocs err ids.
  - simpl. now rewrite app_nil_r.
  - cbn [UploadEvents.files_loop filter]. unfold UploadSpec.accepted at 1.
    destruct (UploadEvents.includes _ _); cbn [negb andb]; [|apply IH].
    rewrite Z.gtb_ltb, Z.leb_antisym.
    destruct (10 * 1024 * 1024 <? UploadEvents.f_size f)%Z; cbn [negb andb];
      [apply IH|].
    destruct (UploadEvents.f_read f) as [b64|e] eqn:Er; [|apply IH].
    rewrite IH. cbn [UploadSpec.docs_of]. rewrite Er. now rewrite <- app_assoc.
Qed.

Lemma files_loop_all_accepted (files : list UploadEvents.File)
  (newDocs : list UploadedFile) (err : string) (ids : UploadEvents.IdSupply) :
  forallb UploadSpec.accepted files = true ->
  snd (fst (UploadEvents.files_loop files newDocs err ids)) = err.
Proof.
  revert newDocs ids.
  induction files as [|f files IH]; intros newDocs ids Hall; [reflexivity|].
  cbn [forallb] in Hall. apply andb_prop in Hall as [Hf Hall].
  unfold UploadSpec.accepted in Hf.
  apply andb_prop in Hf as [Hf Hread]. apply andb_prop in Hf as [Htype Hsize].
  cbn [UploadEvents.files_loop]. rewrite Htype. cbn [negb].
  rewrite Z.gtb_ltb. apply Z.leb_le in Hsize.
  destruct (Z.ltb_spec (10 * 1024 * 1024) (UploadEvents.f_size f)) as [Hlt|_];
    [lia|].
  destruct (UploadEvents.f_read f) as [b64|e]; [|discriminate].
  now apply IH.
Qed.

Lemma files_loop_rejected (f : UploadEvents.File) (files : list UploadEvents.File)
  (newDocs : list UploadedFile) (err : string) (ids : UploadEvents.IdSupply) :
  UploadSpec.accepted f = false ->
  UploadEvents.files_loop (f :: files) newDocs err ids
  = UploadEvents.files_loop files newDocs (UploadSpec.rejection f) ids.
Proof.
  unfold UploadSpec.accepted, UploadSpec.rejection.
  cbn [UploadEvents.files_loop].
  destruct (UploadEvents.includes _ _); cbn [negb andb]; [|reflexivity].
  rewrite Z.gtb_ltb, Z.leb_antisym.
  destruct (10 * 1024 * 1024 <? UploadEvents.f_size f)%Z; cbn [negb andb];
    [reflexivity|].
  destruct (UploadEvents.f_read f) as [b64|e]; [discriminate|reflexivity].
Qed.

Lemma files_loop_last_rejected (pre : list UploadEvents.File)
  (f : UploadEvents.File) (post : list UploadEvents.File)
  (newDocs : list UploadedFile) (err : string) (ids : UploadEvents.IdSupply) :
  UploadSpec.accepted f = false ->
  forallb UploadSpec.accepted post = true ->
  snd (fst (UploadEvents.files_loop (pre ++ f :: post) newDocs err ids))
  = UploadSpec.rejection f.
Proof.
  intros Hf Hpost. revert newDocs err ids.
  induction pre as [|g pre IH]; intros newDocs err ids.
  - simpl app. rewrite files_loop_rejected by assumption.
    now apply files_loop_all_accepted.
  - simpl app. destruct (UploadSpec.accepted g) eqn:Hg.
    + unfold UploadSpec.accepted in Hg.
      apply andb_prop in Hg as [Hg Hread]. apply andb_prop in Hg as [Htype Hsize].
      cbn [UploadEvents.files_loop]. rewrite Htype. cbn [negb].
      rewrite Z.gtb_ltb. apply Z.leb_le in Hsize.
      destruct (Z.ltb_spec (10 * 1024 * 1024) (UploadEvents.f_size g)) as [Hlt|_];
        [lia|].
      destruct (UploadEvents.f_read g) as [b64|e]; [|discriminate].
      apply IH.
    + rewrite files_loop_rejected by assumption. apply IH.
Qed.

Lemma docs_of_types (fs : list UploadEvents.File) (ids : UploadEvents.IdSupply) :
  Forall (fun f => In (UploadEvents.f_type f) UploadEvents.validTypes) fs ->
  Forall (fun d => In (mimeType d) UploadEvents.validTypes)
    (UploadSpec.docs_of fs ids).
Proof.
  intros Hall. revert ids.
  induction Hall as [|f fs Hf _ IH]; intros ids; simpl; constructor;
    [exact Hf|apply IH].
Qed.

Lemma accepted_types (files : list UploadEvents.File) :
  Forall (fun f => In (UploadEvents.f_type f) UploadEvents.validTypes)
    (filter UploadSpec.accepted files).
Proof.
  apply Forall_forall. intros f Hin. apply filter_In in Hin as [_ Hacc].
  unfold UploadSpec.accepted in Hacc.
  apply andb_prop in Hacc as [Hacc _]. apply andb_prop in Hacc as [Htype _].
  now apply includes_In.
Qed.

(** Property X16.  [handleFiles] keeps the documents there are and appends
    one document for every file that is accepted (an allowed type, at most
    10 MB, readable), in the order of the files, with the file's name, type
    and content; a file that is not accepted never keeps the others out.  The
    error message afterwards is empty when every file was accepted, and else
    the message for the last file that was not.  The settings are left as
    they were. *)
Theorem X16_handleFiles_appends_accepted_files (st : UploadScreen.State)
  (files : list UploadEvents.File) (ids : UploadEvents.IdSupply) :
  let st' := fst (UploadEvents.handleFiles st files ids) in
  UploadScreen.documents st'
  = UploadScreen.documents st
    ++ UploadSpec.docs_of (filter UploadSpec.accepted files) ids
  /\ (forallb UploadSpec.accepted files = true -> UploadScreen.error st' = "")
  /\ (forall pre f post,
        files = pre ++ f :: post ->
        UploadSpec.accepted f = false ->
        forallb UploadSpec.accepted post = true ->
        UploadScreen.error st' = UploadSpec.rejection f)
  /\ UploadScreen.numQuestions st' = UploadScreen.numQuestions st
  /\ UploadScreen.selectedTypes st' = UploadScreen.selectedTypes st
  /\ UploadScreen.autoDetect st' = UploadScreen.autoDetect st
  /\ UploadScreen.difficulty st' = UploadScreen.difficulty st
  /\ UploadScreen.customInstructions st' = UploadScreen.customInstructions st
  /\ UploadScreen.timeLimit st' = UploadScreen.timeLimit st.
Proof.
  intros st'. unfold st', UploadEvents.handleFiles.
  pose proof (files_loop_documents files [] "" ids) as Hdocs.
  pose proof (files_loop_all_accepted files [] "" ids) as Hall.
  pose proof (fun pre f post =>
                files_loop_last_rejected pre f post [] "" ids) as Hlast.
  destruct (UploadEvents.files_loop files [] "" ids) as [[newDocs err] ids'] eqn:E.
  simpl in Hdocs, Hall. cbn [fst UploadEvents.with_documents
    UploadScreen.documents UploadScreen.error UploadScreen.numQuestions
    UploadScreen.selectedTypes UploadScreen.autoDetect UploadScreen.difficulty
    UploadScreen.customInstructions UploadScreen.timeLimit].
  split; [now rewrite Hdocs|]. split; [exact Hall|].
  split; [|repeat split].
  intros pre f post -> Hf Hpost. specialize (Hlast pre f post Hf Hpost).
  rewrite E in Hlast. exact Hlast.
Qed.

Lemma settings_ok_documents (st : UploadScreen.State)
  (docs : list UploadedFile) (err : string) :
  UploadSpec.settings_ok st ->
  Forall (fun d => In (mimeType d) UploadEvents.validTypes) docs ->
  UploadSpec.settings_ok (UploadEvents.with_documents st docs err).
Proof.
  intros [Ha [Hnd [Ht [Hn _]]]] Hdocs. repeat split; try assumption; apply Hn.
Qed.

Lemma settings_ok_toggleType (st : UploadScreen.State) (t : QuestionType) :
  UploadSpec.settings_ok st ->
  UploadSpec.settings_ok (UploadEvents.toggleType st t).
Proof.
  intros [Ha [Hnd [Ht [Hn Hdocs]]]]. unfold UploadEvents.toggleType.
  split; [discriminate|]. split; [|repeat split; try assumption; apply Hn].
  cbn [UploadEvents.with_types UploadScreen.selectedTypes].
  destruct (UploadEvents.selected t (UploadScreen.selectedTypes st)) eqn:Hsel.
  - now apply NoDup_filter.
  - apply NoDup_app; [assumption|repeat constructor; intros []|].
    intros x Hx [<-|[]]. apply selected_In in Hx. congruence.
Qed.

Lemma settings_ok_step (st : UploadScreen.State) (ev : UploadEvents.Event)
  (ids : UploadEvents.IdSupply) :
  UploadSpec.settings_ok st ->
  UploadEvents.enabled st ev = true ->
  UploadSpec.settings_ok (fst (UploadEvents.handle st ev ids)).
Proof.
  intros Hok Hen. pose proof Hok as [Ha [Hnd [Ht [Hn Hdocs]]]].
  destruct ev as [files|i|t| |n|val|d|s| ]; cbn [UploadEvents.handle fst].
  - unfold UploadEvents.handleFiles.
    pose proof (files_loop_documents files [] "" ids) as E.
    destruct (UploadEvents.files_loop files [] "" ids) as [[newDocs err] ids'].
    simpl in E. cbn [fst]. apply settings_ok_documents; [assumption|].
    apply Forall_app. split; [assumption|]. rewrite E.
    apply docs_of_types, accepted_types.
  - apply settings_ok_documents; [assumption|].
    apply Forall_forall. intros d Hd. apply filter_In in Hd as [Hd _].
    rewrite Forall_forall in Hdocs. now apply Hdocs.
  - now apply settings_ok_toggleType.
  - unfold UploadEvents.toggleAutoDetect.
    repeat split; try assumption; try apply Hn. constructor.
  - cbn [UploadEvents.enabled] in Hen. apply andb_prop in Hen as [H1 H2].
    apply Z.leb_le in H1, H2. repeat split; assumption.
  - unfold UploadEvents.changeTimeLimit.
    repeat split; try assumption; try apply Hn.
    cbn [UploadEvents.with_settings UploadScreen.timeLimit].
    destruct val as [v|]; lia.
  - repeat split; try assumption; apply Hn.
  - repeat split; try assumption; apply Hn.
  - unfold UploadScreen.handleSubmit.
    destruct (List.length (UploadScreen.documents st) =? 0)%nat;
      [repeat split; try assumption; apply Hn|].
    destruct (negb (UploadScreen.autoDetect st)
              && (List.length (UploadScreen.selectedTypes st) =? 0)%nat)%bool;
      [repeat split; try assumption; apply Hn|assumption].
Qed.

Lemma reachable_settings_ok (st : UploadScreen.State) :
  UploadEvents.reachable st -> UploadSpec.settings_ok st.
Proof.
  induction 1 as [|st ev ids _ IH Hen].
  - repeat split; try constructor; simpl; lia.
  - now apply settings_ok_step.
Qed.

(** Property X17.  In every state the upload page can reach, automatic
    selection goes with an empty list of selected types, no type is selected
    twice, the time limit is not negative, the question count is between 1
    and 100, and every document has an allowed media type.  So every
    configuration the page hands to [onStartQuiz] has these properties, at
    least one document, and in manual selection at least one type. *)
Theorem X17_upload_page_hands_over_coherent_settings (st st' : UploadScreen.State)
  (cfg : QuizConfig) :
  UploadEvents.reachable st ->
  UploadSpec.settings_ok st
  /\ (UploadScreen.handleSubmit st = (st', Some cfg) ->
      st' = st /\ UploadSpec.config_ok cfg).
Proof.
  intros Hr. pose proof (reachable_settings_ok st Hr) as Hok.
  split; [exact Hok|].
  destruct Hok as [Ha [Hnd [Ht [Hn Hdocs]]]].
  unfold UploadScreen.handleSubmit.
  destruct (UploadScreen.documents st) as [|d ds] eqn:Ed; [discriminate|].
  cbn [List.length Nat.eqb].
  destruct (UploadScreen.autoDetect st) eqn:Eauto; cbn [negb andb].
  - intros [= <- <-]. split; [reflexivity|].
    unfold UploadSpec.config_ok. cbn. rewrite (Ha eq_refl).
    repeat split; try assumption; try discriminate; try constructor; apply Hn.
  - destruct (UploadScreen.selectedTypes st) as [|t ts] eqn:Et; [discriminate|].
    cbn [List.length Nat.eqb]. intros [= <- <-]. split; [reflexivity|].
    unfold UploadSpec.config_ok. cbn.
    repeat split; try assumption; try discriminate; apply Hn.
Qed.

(** Property X18.  A click on a question type flips whether that type is
    selected, leaves every other type as it was and switches automatic
    selection off; a second click on the same type brings the selection back
    to the same set of types. *)
Theorem X18_toggleType_flips_one_type (st : UploadScreen.State)
  (t t' : QuestionType) :
  UploadEvents.selected t'
    (UploadScreen.selectedTypes (UploadEvents.toggleType st t))
  = (if QuestionType_eqb t' t
     then negb (UploadEvents.selected t (UploadScreen.selectedTypes st))
     else UploadEvents.selected t' (UploadScreen.selectedTypes st))
  /\ UploadScreen.autoDetect (UploadEvents.toggleType st t) = false
  /\ UploadEvents.selected t'
       (UploadScreen.selectedTypes
          (UploadEvents.toggleType (UploadEvents.toggleType st t) t))
     = UploadEvents.selected t' (UploadScreen.selectedTypes st).
Proof.
  assert (Hflip : forall types,
             UploadEvents.selected t'
               (if UploadEvents.selected t types
                then filter (fun x => negb (QuestionType_eqb x t)) types
                else types ++ [t])
             = if QuestionType_eqb t' t
               then negb (UploadEvents.selected t types)
               else UploadEvents.selected t' types).
  { intros types. destruct (QuestionType_eqb t' t) eqn:E.
    - apply QuestionType_eqb_eq in E. subst t'.
      destruct (UploadEvents.selected t types) eqn:Hsel; cbn [negb].
      + apply not_true_is_false. intros H. apply selected_In in H.
        apply filter_In in H as [_ H].
        assert (Ht : QuestionType_eqb t t = true) by now apply QuestionType_eqb_eq.
        rewrite Ht in H. discriminate.
      + apply selected_In, in_or_app. right. now left.
    - assert (Hne : t' <> t).
      { intros ->. assert (Ht : QuestionType_eqb t t = true)
          by now apply QuestionType_eqb_eq. congruence. }
      destruct (UploadEvents.selected t types).
      + destruct (UploadEvents.selected t' types) eqn:Hsel.
        * apply selected_In. apply filter_In. split; [now apply selected_In|].
          now rewrite E.
        * apply not_true_is_false. intros H. apply selected_In in H.
          apply filter_In in H as [H _]. apply selected_In in H. congruence.
      + destruct (UploadEvents.selected t' types) eqn:Hsel.
        * apply selected_In, in_or_app. left. now apply selected_In.
        * apply not_true_is_false. intros H. apply selected_In in H.
          apply in_app_or in H as [H|[H|[]]]; [|congruence].
          apply selected_In in H. congruence. }
  split; [apply Hflip|]. split; [reflexivity|].
  unfold UploadEvents.toggleType at 1.
  cbn [UploadEvents.with_types UploadScreen.selectedTypes].
  rewrite Hflip.
  destruct (QuestionType_eqb t' t) eqn:E; [|apply Hflip].
  apply QuestionType_eqb_eq in E. subst t'.
  unfold UploadEvents.toggleType.
  cbn [UploadEvents.with_types UploadScreen.selectedTypes].
  rewrite Hflip. apply negb_involutive.
Qed.

End UploadFacts.

Lemma X16_handleFiles_appends_accepted_files_witness :
  UploadScreen.documents
    (fst (UploadEvents.handleFiles UploadEvents.initial [notes; lesson] sample_ids))
  = [sample_file]
  /\ UploadScreen.error
       (fst (UploadEvents.handleFiles UploadEvents.initial [notes; lesson] sample_ids))
     = "Skipped invalid file: notes.txt. Only PDF/Images allowed.".
Proof.
  destruct (X16_handleFiles_appends_accepted_files UploadEvents.initial
              [notes; lesson] sample_ids) as [Hdocs [_ [Herr _]]].
  split; [exact Hdocs|].
  exact (Herr [] notes [lesson] eq_refl eq_refl eq_refl).
Defined.

Lemma X17_upload_page_hands_over_coherent_settings_witness :
  exists st' cfg,
    UploadScreen.handleSubmit
      (fst (UploadEvents.handle UploadEvents.initial
              (UploadEvents.Files [lesson]) sample_ids))
    = (st', Some cfg)
    /\ UploadSpec.config_ok cfg.
Proof.
  eexists. eexists. split; [reflexivity|].
  refine (proj2 (proj2 (X17_upload_page_hands_over_coherent_settings
                   (fst (UploadEvents.handle UploadEvents.initial
                           (UploadEvents.Files [lesson]) sample_ids)) _ _ _) eq_refl)).
  apply UploadEvents.reachable_step;
    [apply UploadEvents.reachable_initial|reflexivity].
Defined.

(** ** The content of a file as read *)

Section ReaderFacts.

Lemma split_comma_first (header rest : string) :
  JsString.includes "," header = false ->
  JsString.split "," (header ++ "," ++ rest)
  = header :: JsString.split_from "," 0 "" rest.
Proof.
  intros Hh. unfold JsString.split.
  pose proof (split_from_item "" "," header "" rest) as E. cbv zeta in E.
  change ("" ++ ",")%string with "," in E.
  rewrite E by (now rewrite append_empty_r).
  reflexivity.
Qed.

(** Property X19.  Of a data URL, a header without a comma followed by a
    comma and the payload, the reader's handler passes on the payload when
    the payload has no comma, and otherwise the part of the payload before
    its first comma; of a result without any comma it passes on
    [undefined]. *)
Theorem X19_reader_passes_on_the_payload (header payload rest : string) :
  JsString.includes "," header = false ->
  JsString.includes "," payload = false ->
  UploadEvents.base64_of_result (header ++ "," ++ payload) = Some payload
  /\ UploadEvents.base64_of_result (header ++ "," ++ payload ++ "," ++ rest)
     = Some payload
  /\ UploadEvents.base64_of_result header = None.
Proof.
  intros Hh Hp. unfold UploadEvents.base64_of_result. split; [|split].
  - rewrite (split_comma_first header payload Hh).
    now rewrite (split_from_no_match "," "" "" payload Hp).
  - rewrite (split_comma_first header _ Hh).
    pose proof (split_from_item "" "," payload "" rest) as E. cbv zeta in E.
    change ("" ++ ",")%string with "," in E.
    rewrite E by (now rewrite append_empty_r).
    reflexivity.
  - unfold JsString.split.
    now rewrite (split_from_no_match "," "" "" header Hh).
Qed.

End ReaderFacts.

Lemma X19_reader_passes_on_the_payload_witness :
  UploadEvents.base64_of_result "data:application/pdf;base64,JVBERi0="
  = Some "JVBERi0=".
Proof.
  destruct (X19_reader_passes_on_the_payload "data:application/pdf;base64"
              "JVBERi0=" "" eq_refl eq_refl) as [H _].
  exact H.
Defined.

(** ** The request for a quiz *)

Example closing_length : String.length geminiRequest.closing = 309.
Proof. reflexivity. Qed.

Example critical_length : String.length (geminiRequest.critical "") = 333.
Proof. reflexivity. Qed.

Section RequestFacts.

Variable QuestionType_value : QuestionType -> string.

Abbreviation prompt := (geminiRequest.prompt QuestionType_value).

Lemma includes_prefix (p s : string) :
  prefix p s = true -> JsString.includes p s = true.
Proof.
  intros H. destruct s as [|c s]; cbn [JsString.includes]; now rewrite H.
Qed.

Lemma includes_app_r (p a s : string) :
  JsString.includes p s = true -> JsString.includes p (a ++ s) = true.
Proof.
  intros H. induction a as [|c a IH]; [exact H|].
  simpl append. cbn [JsString.includes]. rewrite IH. apply orb_true_r.
Qed.

Lemma includes_middle (p a b : string) :
  JsString.includes p (a ++ p ++ b) = true.
Proof. apply includes_app_r, includes_prefix, prefix_refl_app. Qed.

Lemma includes_app_l (p s b : string) :
  JsString.includes p s = true -> JsString.includes p (s ++ b) = true.
Proof.
  induction s as [|c s IH]; cbn [JsString.includes]; intros H.
  - rewrite orb_false_r in H. destruct p as [|d p]; [|discriminate].
    apply includes_prefix, prefix_empty.
  - simpl append. cbn [JsString.includes].
    apply orb_true_iff in H as [H|H].
    + change (String c (s ++ b)) with (String c s ++ b)%string.
      now rewrite prefix_app_true.
    + rewrite (IH H). apply orb_true_r.
Qed.

(** Property X20.  The prompt of [generateQuiz] does not depend on the
    selected types while automatic selection is on, and in manual selection
    it carries the sentence that lists the selected types, joined by a comma
    and a space.  Custom instructions that are empty or all white space (the
    no-break space included) leave the prompt as it is without any; others
    are quoted in it as given, untrimmed. *)
Theorem X20_prompt_of_the_request (numQuestions : Z)
  (types : list QuestionType) (difficulty : Difficulty)
  (customInstructions : option string) :
  (forall types' autoDetect,
     autoDetect = true ->
     prompt numQuestions types autoDetect difficulty customInstructions
     = prompt numQuestions types' autoDetect difficulty customInstructions)
  /\ JsString.includes (geminiRequest.whitelist QuestionType_value types)
       (prompt numQuestions types false difficulty customInstructions) = true
  /\ (forall autoDetect c,
        customInstructions = Some c -> JsString.trim c = "" ->
        prompt numQuestions types autoDetect difficulty customInstructions
        = prompt numQuestions types autoDetect difficulty None)
  /\ (forall autoDetect c,
        customInstructions = Some c -> JsString.trim c <> "" ->
        JsString.includes
          (geminiRequest.dquote ++ c ++ geminiRequest.dquote)
          (prompt numQuestions types autoDetect difficulty customInstructions)
        = true).
Proof.
  split; [|split; [|split]].
  - intros types' autoDetect ->. reflexivity.
  - unfold geminiRequest.prompt. cbv zeta. cbn [negb].
    match goal with
    | |- JsString.includes ?w ((?a ++ ?w) ++ ?b)%string = true =>
        rewrite (append_assoc a w b); apply includes_middle
    end.
  - intros autoDetect c -> Hblank. unfold geminiRequest.prompt.
    cbv zeta. unfold geminiRequest.given. rewrite Hblank.
    cbn [JsString.truthy]. now rewrite andb_false_r.
  - intros autoDetect c -> Hgiven. unfold geminiRequest.prompt. cbv zeta.
    assert (Hg : geminiRequest.given (Some c) = true).
    { unfold geminiRequest.given.
      destruct (JsString.trim c) as [|x t] eqn:Et; [congruence|].
      destruct c as [|y c']; [discriminate|reflexivity]. }
    rewrite Hg. cbn [geminiService.opt_string].
    apply includes_app_l.
    destruct autoDetect; apply includes_app_l; apply includes_app_r;
      unfold geminiRequest.critical;
      match goal with
      | |- JsString.includes ?w (?a ++ ?d ++ ?c ++ ?d ++ ?b)%string = true =>
          rewrite <- (append_assoc c d b), <- (append_assoc d (c ++ d) b);
          apply includes_middle
      end.
Qed.

End RequestFacts.

Lemma X20_prompt_of_the_request_witness :
  geminiRequest.prompt sample_tags 5 [MATCHING] true Medium (Some no_break_spaces)
  = geminiRequest.prompt sample_tags 5 [MATCHING] true Medium None
  /\ JsString.includes
       (geminiRequest.dquote ++ " use the vocabulary in context "
        ++ geminiRequest.dquote)
       (geminiRequest.prompt sample_tags 5 [MATCHING] false Medium
          (Some " use the vocabulary in context "))
     = true.
Proof.
  split.
  - destruct (X20_prompt_of_the_request sample_tags 5 [MATCHING] Medium
                (Some no_break_spaces)) as [_ [_ [H _]]].
    exact (H true no_break_spaces eq_refl eq_refl).
  - destruct (X20_prompt_of_the_request sample_tags 5 [MATCHING] Medium
                (Some " use the vocabulary in context "))
      as [_ [_ [_ H]]].
    apply (H false " use the vocabulary in context " eq_refl).
    vm_compute. discriminate.
Defined.

(** ** Every order can come out of the shuffle *)

Section ShuffleReach.

Context {A : Type}.

Lemma least_numerator (j k T : N) :
  (j < k)%N -> (k <= T)%N ->
  let m := ((j * T + k - 1) / k)%N in
  (m < T)%N /\ (m * k / T = j)%N.
Proof.
  intros Hj Hk m.
  assert (Hk0 : (k <> 0)%N) by lia.
  pose proof (N.div_mod (j * T + k - 1) k Hk0) as Hdm. fold m in Hdm.
  pose proof (N.mod_lt (j * T + k - 1) k Hk0) as Hlt.
  set (r := ((j * T + k - 1) mod k)%N) in *. clearbody m r.
  assert (HjT : (j * T + T <= k * T)%N) by nia.
  assert (Hlo : (j * T <= m * k)%N) by lia.
  assert (Hhi : (m * k < j * T + k)%N) by lia.
  assert (Hm : (m < T)%N).
  { destruct (N.lt_ge_cases m T) as [H|H]; [exact H|].
    assert (k * T <= k * m)%N by nia. lia. }
  split; [exact Hm|].
  symmetry. apply (N.div_unique _ _ _ (m * k - j * T)%N); lia.
Qed.

Lemma floor_times_draw_for (j k : nat) (t : Random.Tape) :
  j < k -> (N.of_nat k <= Random.two53)%N ->
  Random.floor_times (Draws.tape_of [Draws.draw_for j k] t) k = j.
Proof.
  intros Hj Hk. unfold Random.floor_times, Random.numerator.
  cbn [Draws.tape_of]. unfold Draws.draw_for.
  destruct (least_numerator (N.of_nat j) (N.of_nat k) Random.two53
              ltac:(lia) Hk) as [Hm E].
  rewrite (N.mod_small _ _ Hm), E. apply Nnat.Nat2N.id.
Qed.

Lemma set_nth_app (a b : list A) (i : nat) (x : A) :
  i < List.length a ->
  geminiService.set_nth (a ++ b) i x = geminiService.set_nth a i x ++ b.
Proof.
  revert i; induction a as [|h a IH]; intros i Hi; simpl in Hi; [lia|].
  destruct i as [|i]; simpl; [reflexivity|].
  rewrite IH by lia. reflexivity.
Qed.

Lemma swap_app (a b : list A) (i j : nat) :
  i < List.length a -> j < List.length a ->
  geminiService.swap (a ++ b) i j = geminiService.swap a i j ++ b.
Proof.
  intros Hi Hj. unfold geminiService.swap.
  rewrite !nth_error_app1 by assumption.
  destruct (nth_error a i) as [x|] eqn:Ei; [|apply nth_error_None in Ei; lia].
  destruct (nth_error a j) as [y|] eqn:Ej; [|apply nth_error_None in Ej; lia].
  rewrite set_nth_app by assumption.
  rewrite set_nth_app by (now rewrite length_set_nth).
  reflexivity.
Qed.

Lemma last_position (l : list A) (i : nat) (x : A) :
  List.length l = S i -> nth_error l i = Some x ->
  exists l1, l = l1 ++ [x] /\ List.length l1 = i.
Proof.
  intros Hlen Hx.
  destruct (exists_last (l := l)) as [l1 [y E]];
    [intros ->; discriminate|].
  subst l. rewrite length_app in Hlen. simpl in Hlen.
  assert (Hl1 : List.length l1 = i) by lia.
  rewrite nth_error_app2 in Hx by lia.
  rewrite Hl1, Nat.sub_diag in Hx. injection Hx as ->.
  now exists l1.
Qed.

Lemma shuffle_loop_reaches (i : nat) :
  forall a a' b : list A,
    List.length a = S i ->
    Permutation a a' ->
    (N.of_nat (S i) <= Random.two53)%N ->
    exists draws,
      List.length draws = i
      /\ forall t,
           geminiService.shuffle_loop i (a ++ b) (Draws.tape_of draws t)
           = (a' ++ b, t).
Proof.
  induction i as [|i IH]; intros a a' b Hlen Hperm Hbound.
  - exists []. split; [reflexivity|]. intros t. simpl.
    destruct a as [|y [|z a]]; try discriminate.
    apply Permutation_length_1_inv in Hperm. now subst a'.
  - assert (Hlen' : List.length a' = S (S i))
      by (rewrite <- Hlen; symmetry; now apply Permutation_length).
    destruct (exists_last (l := a')) as [a0' [x E]];
      [intros ->; discriminate|].
    subst a'.
    assert (Hx : In x a).
    { eapply Permutation_in; [symmetry; exact Hperm|].
      apply in_or_app. right. now left. }
    apply In_nth_error in Hx as [j Hj].
    assert (Hjlt : j < List.length a) by (apply nth_error_Some; congruence).
    destruct (last_position (geminiService.swap a (S i) j) (S i) x)
      as [a1 [Ea1 Hl1]].
    { now rewrite length_swap. }
    { rewrite nth_error_swap by lia. rewrite Nat.eqb_refl.
      destruct (Nat.eqb_spec (S i) j) as [<-|_]; exact Hj. }
    assert (Hp1 : Permutation a1 a0').
    { apply (Permutation_app_inv_r [x]). rewrite <- Ea1.
      etransitivity; [symmetry; apply swap_perm|exact Hperm]. }
    destruct (IH a1 a0' (x :: b) Hl1 Hp1 ltac:(lia)) as [draws [Hd Hrun]].
    exists (Draws.draw_for j (S i + 1) :: draws).
    split; [simpl; now rewrite Hd|].
    intros t. cbn [geminiService.shuffle_loop].
    change (Random.floor_times
              (Draws.tape_of (Draws.draw_for j (S i + 1) :: draws) t) (S i + 1))
      with (Random.floor_times
              (Draws.tape_of [Draws.draw_for j (S i + 1)]
                 (Draws.tape_of draws t)) (S i + 1)).
    rewrite floor_times_draw_for by lia.
    change (Random.advance
              (Draws.tape_of (Draws.draw_for j (S i + 1) :: draws) t))
      with (Draws.tape_of draws t).
    rewrite swap_app by lia. rewrite Ea1, <- app_assoc. simpl app.
    rewrite Hrun. now rewrite <- app_assoc.
Qed.

(** Property X21.  Every order of an array can come out of [shuffleArray]:
    for every permutation of an array (of at most 2^53 elements) there are
    draws of [Math.random], one less than the array has elements, with which
    [shuffleArray] returns that permutation, having used these draws and no
    other. *)
Theorem X21_shuffleArray_reaches_every_order (array target : list A) :
  Permutation array target ->
  (N.of_nat (List.length array) <= Random.two53)%N ->
  exists draws,
    List.length draws = List.length array - 1
    /\ forall t,
         geminiService.shuffleArray array (Draws.tape_of draws t) = (target, t).
Proof.
  intros Hperm Hbound. unfold geminiService.shuffleArray.
  destruct array as [|y array].
  - apply Permutation_nil in Hperm. subst target.
    exists []. split; reflexivity.
  - cbn [List.length] in *. rewrite Nat.sub_succ, Nat.sub_0_r.
    destruct (shuffle_loop_reaches (List.length array) (y :: array) target []
                eq_refl Hperm Hbound) as [draws [Hd Hrun]].
    exists draws. split; [exact Hd|]. intros t.
    specialize (Hrun t). now rewrite !app_nil_r in Hrun.
Qed.

End ShuffleReach.

Lemma X21_shuffleArray_reaches_every_order_witness :
  exists draws,
    List.length draws = 2
    /\ forall t,
         geminiService.shuffleArray ["a"; "b"; "c"]%string (Draws.tape_of draws t)
         = (["c"; "a"; "b"]%string, t).
Proof.
  apply (X21_shuffleArray_reaches_every_order
           ["a"; "b"; "c"]%string ["c"; "a"; "b"]%string).
  - apply Permutation_sym.
    apply (Permutation_cons_app ["a"; "b"]%string [] "c"%string).
    reflexivity.
  - vm_compute. discriminate.
Defined.
